(** * sfjs: protocol codec, item dirty tracking, model store and singleton resolver

    A shallow embedding of the parts of [dist/sfjs.js] (and of the
    [SFSyncManager] / [SFAbstractCrypto] sources) that the specification's
    testable properties talk about.

    - [Js]      : the few JavaScript string operations the code relies on.
    - [Codec]   : [SFAbstractCrypto] and [SFItemTransformer].
    - [Store]   : [SFItem] dirty tracking and relationships, [SFModelManager],
                  the dirty bookkeeping of [SFSyncManager.sync] and
                  [SFSingletonManager.resolveSingletons].

    The library calls (CryptoJS, which [dist/sfjs.js] bundles minified,
    [btoa], [atob], [JSON], the random source) are parameters of the
    development, bundled in [Codec.Primitives]. *)

From Stdlib Require Import ZArith NArith Ascii String List Lia Bool.
From Stdlib Require Import Numbers.DecimalString.
From Stdlib Require Import Sorting.Sorted Sorting.Permutation.
From stdpp Require Import base option list.
Set Warnings "-register-all".
Import ListNotations.
Local Open Scope string_scope.

(* ===================================================================== *)
(** ** JavaScript strings *)
(* ===================================================================== *)

Module Js.

Definition colon : ascii := ":"%char.

(** [s.startsWith(p)] *)
Definition startsWith (s p : string) : bool := String.prefix p s.

(** [s.substring(a, b)] for [0 <= a <= b]; indices past the end are
    clamped by [String.substring] exactly as JavaScript does. *)
Definition substring (s : string) (a b : nat) : string :=
  String.substring a (b - a) s.

(** [s.split(":")] (a one-character separator). *)
Fixpoint split (sep : ascii) (s : string) : list string :=
  match s with
  | EmptyString => [EmptyString]
  | String c s' =>
      if Ascii.eqb c sep then EmptyString :: split sep s'
      else match split sep s' with
           | [] => [String c EmptyString]
           | f :: fs => String c f :: fs
           end
  end.

(** [arr.join(":")]; [undefined] and [null] elements print as the
    empty string. *)
Definition join (sep : string) (l : list (option string)) : string :=
  String.concat sep (map (default EmptyString) l).

(** Truthiness of a possibly-undefined string: [undefined], [null] and
    the empty string are falsy. *)
Definition truthy (o : option string) : bool :=
  match o with
  | Some s => negb (String.eqb s EmptyString)
  | None => false
  end.

(** [x || <empty string>] *)
Definition orEmpty (o : option string) : string := default EmptyString o.

(** No [":"] occurs in [s]. *)
Fixpoint colonFree (s : string) : bool :=
  match s with
  | EmptyString => true
  | String c s' => negb (Ascii.eqb c colon) && colonFree s'
  end.

(** [String(n)] for a non-negative integer. *)
Definition numberToString (n : N) : string :=
  NilEmpty.string_of_uint (N.to_uint n).

(** JavaScript values as far as item contents need them. *)
Inductive jsval : Type :=
| VUndefined
| VNull
| VBool (b : bool)
| VNum (z : Z)
| VStr (s : string)
| VArr (l : list jsval)
| VObj (fields : list (string * jsval)).

(** [obj[k] = v] on a plain object: overwrite in place or append. *)
Fixpoint setField (k : string) (v : jsval) (fields : list (string * jsval))
  : list (string * jsval) :=
  match fields with
  | [] => [(k, v)]
  | (k', v') :: rest =>
      if String.eqb k k' then (k, v) :: rest
      else (k', v') :: setField k v rest
  end.

End Js.

(* ===================================================================== *)
(** ** SFAbstractCrypto and SFItemTransformer *)
(* ===================================================================== *)

Module Codec.
Import Js.

(** The library functions the crypto class calls.  Ciphertexts, hashes
    and keys are the strings CryptoJS prints (base64 and hex). *)
Record Primitives : Type := {
  (** [CryptoJS.AES.encrypt(text, Hex.parse(key), {iv: Hex.parse(iv), CBC, Pkcs7}).toString()] *)
  AES_encrypt : string -> string -> string -> string;
  (** [CryptoJS.AES.decrypt(...).toString(Utf8)]; [None] when it throws. *)
  AES_decrypt : string -> string -> string -> option string;
  (** [CryptoJS.HmacSHA256(Utf8.parse(message), Hex.parse(key)).toString()] *)
  HmacSHA256 : string -> string -> string;
  (** [CryptoJS.SHA256(text).toString()] *)
  SHA256 : string -> string;
  (** [CryptoJS.PBKDF2(password, salt, {keySize: length/32, hasher: SHA512, iterations}).toString()] *)
  PBKDF2_SHA512 : string -> string -> N -> N -> string;
  (** [btoa] after UTF-8 encoding, and [atob] ([None] when it throws). *)
  btoa : string -> string;
  atob : string -> option string;
  (** [JSON.stringify] and [JSON.parse] ([None] when it throws). *)
  JSON_stringify : jsval -> string;
  JSON_parse : string -> option jsval;
  (** [CryptoJS.lib.WordArray.random(bits/8).toString()], threading the
      state of the random source. *)
  rng : Type;
  random : N -> rng -> string * rng
}.

Record Keys : Type := { pw : string; mk : string; ak : string }.

Record AuthParams : Type := {
  version : string;
  identifier : option string;
  pw_cost : N;
  pw_nonce : option string;
  pw_salt : option string
}.

(** The object [JSON.stringify(auth_params)] serialises. *)
Definition authParamsObject (ap : AuthParams) : jsval :=
  let opt k o := match o with Some s => [(k, VStr s)] | None => [] end in
  VObj (opt "pw_nonce" (pw_nonce ap)
        ++ [("pw_cost", VNum (Z.of_N (pw_cost ap)))]
        ++ opt "identifier" (identifier ap)
        ++ [("version", VStr (version ap))]
        ++ opt "pw_salt" (pw_salt ap)).

(** The fields of an item that the transformer reads or writes. *)
Record SFItem : Type := {
  uuid : string;
  content : jsval;
  appData : jsval;
  enc_item_key : option string;
  auth_hash : option string;
  auth_params : option jsval;
  deleted : bool;
  errorDecrypting : bool;
  errorDecryptingValueChanged : bool
}.

Definition set_content (v : jsval) (i : SFItem) : SFItem :=
  {| uuid := uuid i; content := v; appData := appData i;
     enc_item_key := enc_item_key i; auth_hash := auth_hash i;
     auth_params := auth_params i; deleted := deleted i;
     errorDecrypting := errorDecrypting i;
     errorDecryptingValueChanged := errorDecryptingValueChanged i |}.

Definition set_auth_params (v : option jsval) (i : SFItem) : SFItem :=
  {| uuid := uuid i; content := content i; appData := appData i;
     enc_item_key := enc_item_key i; auth_hash := auth_hash i;
     auth_params := v; deleted := deleted i;
     errorDecrypting := errorDecrypting i;
     errorDecryptingValueChanged := errorDecryptingValueChanged i |}.

Definition set_errorDecrypting (b : bool) (i : SFItem) : SFItem :=
  {| uuid := uuid i; content := content i; appData := appData i;
     enc_item_key := enc_item_key i; auth_hash := auth_hash i;
     auth_params := auth_params i; deleted := deleted i;
     errorDecrypting := b;
     errorDecryptingValueChanged := errorDecryptingValueChanged i |}.

Definition set_errorDecryptingValueChanged (b : bool) (i : SFItem) : SFItem :=
  {| uuid := uuid i; content := content i; appData := appData i;
     enc_item_key := enc_item_key i; auth_hash := auth_hash i;
     auth_params := auth_params i; deleted := deleted i;
     errorDecrypting := errorDecrypting i;
     errorDecryptingValueChanged := b |}.

(** What [encryptionComponentsFromString] returns. *)
Record Components : Type := {
  encryptionVersion : option string;
  c_authHash : option string;
  c_uuid : option string;
  c_iv : option string;
  contentCiphertext : option string;
  c_authParams : option string;
  ciphertextToAuth : string;
  encryptionKey : string;
  authKey : string
}.

Definition set_authHash (h : option string) (c : Components) : Components :=
  {| encryptionVersion := encryptionVersion c; c_authHash := h;
     c_uuid := c_uuid c; c_iv := c_iv c;
     contentCiphertext := contentCiphertext c;
     c_authParams := c_authParams c;
     ciphertextToAuth := ciphertextToAuth c;
     encryptionKey := encryptionKey c; authKey := authKey c |}.

(** The four ways [decryptText] can end: [return;], [return null;], a
    decrypted string, or an exception out of CryptoJS. *)
Inductive DecryptResult : Type :=
| DUndefined
| DNull
| DText (s : string)
| DThrow.

(** How an [async] method ended. *)
Inductive Completion : Type := Returned | Thrown.

(** What [encryptItem] returns. *)
Record EncryptedParams : Type := {
  p_enc_item_key : string;
  p_auth_hash : option string;
  p_content : string
}.

(** What [SFItemParams.__params] decides: [content], [enc_item_key] and
    [auth_hash] ([None] for [null] and for a field that is not set). *)
Record ItemParams : Type := {
  ip_content : jsval;
  ip_enc_item_key : option string;
  ip_auth_hash : option string
}.

Section WithPrimitives.
Context (P : Primitives).

(* ---------------- SFAbstractCrypto ---------------- *)

Definition DefaultPBKDF2Length : N := 768.

Definition hmac256 (message key : string) : string :=
  HmacSHA256 P message key.

Definition sha256 (text : string) : string := SHA256 P text.

Definition base64 (text : string) : string := btoa P text.

Definition base64Decode (s : string) : option string := atob P s.

Definition pbkdf2 (password salt : string) (cost length : N) : string :=
  PBKDF2_SHA512 P password salt cost length.

Definition encryptText (text key : string) (iv : option string) : string :=
  AES_encrypt P text key (orEmpty iv).

Definition decryptText (c : Components) (requiresAuth : bool)
  : DecryptResult :=
  if requiresAuth && negb (truthy (c_authHash c)) then DUndefined
  else
    let decrypt :=
      match contentCiphertext c with
      | None => DThrow
      | Some ct =>
          match AES_decrypt P ct (encryptionKey c) (orEmpty (c_iv c)) with
          | Some text => DText text
          | None => DThrow
          end
      end in
    if truthy (c_authHash c) then
      let localAuthHash := hmac256 (ciphertextToAuth c) (authKey c) in
      if negb (String.eqb (orEmpty (c_authHash c)) localAuthHash)
      then DNull
      else decrypt
    else decrypt.

Definition generateRandomKey (bits : N) (g : rng P) : string * rng P :=
  random P bits g.

Definition generateItemEncryptionKey (g : rng P) : string * rng P :=
  let length := 512%N in
  let cost := 1%N in
  let '(salt, g1) := generateRandomKey length g in
  let '(passphrase, g2) := generateRandomKey length g1 in
  (pbkdf2 passphrase salt cost length, g2).

Definition firstHalfOfKey (key : string) : string :=
  substring key 0 (String.length key / 2).

Definition secondHalfOfKey (key : string) : string :=
  substring key (String.length key / 2) (String.length key).

Definition generateSalt (identifier version : string) (cost : N)
  (nonce : option string) : string :=
  sha256 (join ":" [Some identifier; Some "SF"; Some version;
                    Some (numberToString cost); nonce]).

(** [output.slice(a, b)] on the hex string. *)
Definition generateSymmetricKeyPair (password : string)
  (pw_salt : option string) (pw_cost : N) : list string :=
  let output := pbkdf2 password (orEmpty pw_salt) pw_cost
                  DefaultPBKDF2Length in
  let outputLength := String.length output in
  let splitLength := outputLength / 3 in
  let firstThird := substring output 0 splitLength in
  let secondThird := substring output splitLength (splitLength * 2) in
  let thirdThird := substring output (splitLength * 2) (splitLength * 3) in
  [firstThird; secondThird; thirdThird].

(** [None] is the bare [return;] taken when the identifier is missing. *)
Definition computeEncryptionKeysForUser (password : string)
  (authParams : AuthParams) : option Keys :=
  let derive salt :=
    match generateSymmetricKeyPair password salt (pw_cost authParams) with
    | [k0; k1; k2] => Some {| pw := k0; mk := k1; ak := k2 |}
    | _ => None
    end in
  if String.eqb (version authParams) "003" then
    if negb (truthy (identifier authParams)) then None
    else
      derive (Some (generateSalt (orEmpty (identifier authParams))
                      (version authParams) (pw_cost authParams)
                      (pw_nonce authParams)))
  else derive (pw_salt authParams).

(* ---------------- SFItem, as the transformer uses it ---------------- *)

(** The [contentObject] getter: an empty object for a falsy content, the
    content itself when it is an object, the parsed JSON text otherwise. *)
Definition contentObject (i : SFItem) : jsval :=
  match content i with
  | VUndefined | VNull | VBool false | VNum 0 | VStr EmptyString => VObj []
  | VObj _ | VArr _ => content i
  | VStr s => match JSON_parse P s with
              | Some c => c
              | None => VObj []
              end
  | VBool true | VNum _ => content i
  end.

(** [params = this.contentObject; params.appData = this.appData]; the
    assignment only shows in the serialisation of a plain object. *)
Definition structureParams (i : SFItem) : jsval :=
  match contentObject i with
  | VObj fields => VObj (setField "appData" (appData i) fields)
  | v => v
  end.

Definition createContentJSONFromProperties (i : SFItem) : jsval :=
  structureParams i.

(* ---------------- SFItemTransformer ---------------- *)

Definition _private_encryptString (str encryptionKey authKey uuid : string)
  (auth_params : AuthParams) (g : rng P) : string * rng P :=
  if String.eqb (version auth_params) "001" then
    let contentCiphertext := encryptText str encryptionKey None in
    (version auth_params ++ contentCiphertext, g)
  else
    let '(iv, g1) := generateRandomKey 128 g in
    let contentCiphertext := encryptText str encryptionKey (Some iv) in
    let ciphertextToAuth :=
      join ":" [Some (version auth_params); Some uuid; Some iv;
                Some contentCiphertext] in
    let authHash := hmac256 ciphertextToAuth authKey in
    let authParamsString :=
      base64 (JSON_stringify P (authParamsObject auth_params)) in
    (join ":" [Some (version auth_params); Some authHash; Some uuid; Some iv;
               Some contentCiphertext; Some authParamsString], g1).

Definition encryptItem (item : SFItem) (keys : Keys) (auth_params : AuthParams)
  (g : rng P) : EncryptedParams * rng P :=
  let '(item_key, g1) := generateItemEncryptionKey g in
  let '(enc_key, g2) :=
    if String.eqb (version auth_params) "001"
    then (encryptText item_key (mk keys) None, g1)
    else _private_encryptString item_key (mk keys) (ak keys) (uuid item)
           auth_params g1 in
  let ek := firstHalfOfKey item_key in
  let ak := secondHalfOfKey item_key in
  let '(ciphertext, g3) :=
    _private_encryptString
      (JSON_stringify P (createContentJSONFromProperties item))
      ek ak (uuid item) auth_params g2 in
  let authHash :=
    if String.eqb (version auth_params) "001"
    then Some (hmac256 ciphertext ak) else None in
  ({| p_enc_item_key := enc_key; p_auth_hash := authHash;
      p_content := ciphertext |}, g3).

Definition encryptionComponentsFromString (str encryptionKey authKey : string)
  : Components :=
  let encryptionVersion := substring str 0 3 in
  if String.eqb encryptionVersion "001" then
    {| contentCiphertext := Some (substring str 3 (String.length str));
       encryptionVersion := Some encryptionVersion;
       ciphertextToAuth := str;
       c_iv := None;
       c_authHash := None;
       c_uuid := None;
       c_authParams := None;
       encryptionKey := encryptionKey;
       authKey := authKey |}
  else
    let components := split colon str in
    {| encryptionVersion := components !! 0%nat;
       c_authHash := components !! 1%nat;
       c_uuid := components !! 2%nat;
       c_iv := components !! 3%nat;
       contentCiphertext := components !! 4%nat;
       c_authParams := components !! 5%nat;
       ciphertextToAuth :=
         join ":" [components !! 0%nat; components !! 2%nat;
                   components !! 3%nat; components !! 4%nat];
       encryptionKey := encryptionKey;
       authKey := authKey |}.

(** The block repeated at every failure exit of [decryptItem]:
    [if(!item.errorDecrypting) item.errorDecryptingValueChanged = true;
     item.errorDecrypting = true;] *)
Definition markErrorDecrypting (item : SFItem) : SFItem :=
  set_errorDecrypting true
    (if negb (errorDecrypting item)
     then set_errorDecryptingValueChanged true item
     else item).

(** The success exit of [decryptItem]. *)
Definition markDecrypted (text : string) (item : SFItem) : SFItem :=
  set_content (VStr text)
    (set_errorDecrypting false
       (if errorDecrypting item
        then set_errorDecryptingValueChanged true item
        else item)).

(** [uuid && uuid !== item.uuid] *)
Definition uuidMismatch (c : Components) (item : SFItem) : bool :=
  truthy (c_uuid c) && negb (String.eqb (orEmpty (c_uuid c)) (uuid item)).

(** [try { item.auth_params = JSON.parse(base64Decode(authParams)) } catch {}];
    [atob(undefined)] decodes the text ["undefined"]. *)
Definition readAuthParams (c : Components) (item : SFItem) : SFItem :=
  match base64Decode (default "undefined" (c_authParams c)) with
  | Some decoded =>
      match JSON_parse P decoded with
      | Some v => set_auth_params (Some v) item
      | None => item
      end
  | None => item
  end.

(** [!key.startsWith("002") && !key.startsWith("003")]: the encrypted item
    key is taken to be a legacy one, which has no prefix. *)
Definition isLegacyKey (key : string) : bool :=
  negb (startsWith key "002") && negb (startsWith key "003").

(** The second half of [decryptItem], once the item key is known. *)
Definition decryptContent (item : SFItem) (text item_key : string)
  : SFItem * Completion :=
  let ek := firstHalfOfKey item_key in
  let ak := secondHalfOfKey item_key in
  let itemParams := encryptionComponentsFromString text ek ak in
  let item1 := readAuthParams itemParams item in
  if uuidMismatch itemParams item1
  then (markErrorDecrypting item1, Returned)
  else
    let itemParams1 :=
      if negb (truthy (c_authHash itemParams))
      then set_authHash (auth_hash item1) itemParams
      else itemParams in
    match decryptText itemParams1 true with
    | DThrow => (item1, Thrown)
    | DUndefined | DNull => (markErrorDecrypting item1, Returned)
    | DText plain =>
        if String.eqb plain EmptyString
        then (markErrorDecrypting item1, Returned)
        else (markDecrypted plain item1, Returned)
    end.

Definition decryptItem (item : SFItem) (keys : Keys) : SFItem * Completion :=
  match content item with
  | VStr text =>
      if startsWith text "000" then
        match base64Decode (substring text 3 (String.length text)) with
        | Some decoded =>
            match JSON_parse P decoded with
            | Some v => (set_content v item, Returned)
            | None => (item, Returned)
            end
        | None => (item, Returned)
        end
      else if negb (truthy (enc_item_key item)) then (item, Returned)
      else
        let key0 := orEmpty (enc_item_key item) in
        let legacy := isLegacyKey key0 in
        let encryptedItemKey := if legacy then "001" ++ key0 else key0 in
        let requiresAuth := negb legacy in
        let keyParams :=
          encryptionComponentsFromString encryptedItemKey (mk keys) (ak keys) in
        if uuidMismatch keyParams item then (markErrorDecrypting item, Returned)
        else
          match decryptText keyParams requiresAuth with
          | DThrow => (item, Thrown)
          | DUndefined | DNull => (markErrorDecrypting item, Returned)
          | DText item_key =>
              if String.eqb item_key EmptyString
              then (markErrorDecrypting item, Returned)
              else decryptContent item text item_key
          end
  | _ => (item, Returned)
  end.

(** The [decrypt] closure of [decryptMultipleItems]. *)
Definition decrypt (throws : bool) (keys : Keys) (item : SFItem)
  : SFItem * Completion :=
  let contentIsNull :=
    match content item with VUndefined | VNull => true | _ => false end in
  if deleted item && contentIsNull then (item, Returned)
  else
    match content item with
    | VStr _ =>
        match decryptItem item keys with
        | (item', Thrown) =>
            (markErrorDecrypting item', if throws then Thrown else Returned)
        | r => r
        end
    | _ => (item, Returned)
    end.

(** [decryptMultipleItems(items, keys)] with [throws] unset. *)
Definition decryptMultipleItems (items : list SFItem) (keys : Keys)
  : list SFItem :=
  map (fun item => fst (decrypt false keys item)) items.

(* ---------------- StandardFile and registration ---------------- *)

(** [StandardFile.version()], [costMinimumForVersion(version)] and
    [defaultPasswordGenerationCost()]. *)
Definition libraryVersion : string := "003".

Definition costMinimumForVersion (v : string) : option N :=
  if String.eqb v "001" then Some 3000%N
  else if String.eqb v "002" then Some 3000%N
  else if String.eqb v "003" then Some 110000%N
  else None.

Definition defaultPasswordGenerationCost : option N :=
  costMinimumForVersion libraryVersion.

(** [generateInitialKeysAndAuthParamsForUser(identifier, password)];
    [None] stands for the failure of the call on an undefined cost. *)
Definition generateInitialKeysAndAuthParamsForUser
  (identifier password : string) (g : rng P)
  : option (Keys * AuthParams) * rng P :=
  let version := libraryVersion in
  match defaultPasswordGenerationCost with
  | None => (None, g)
  | Some pw_cost =>
      let '(pw_nonce, g1) := generateRandomKey 256 g in
      let pw_salt := generateSalt identifier version pw_cost (Some pw_nonce) in
      match generateSymmetricKeyPair password (Some pw_salt) pw_cost with
      | [k0; k1; k2] =>
          (Some ({| pw := k0; mk := k1; ak := k2 |},
                 {| version := version; identifier := Some identifier;
                    pw_cost := pw_cost; pw_nonce := Some pw_nonce;
                    pw_salt := None |}), g1)
      | _ => (None, g1)
      end
  end.

(* ---------------- SFItemParams ---------------- *)

(** [SFItemParams.__params()], as far as [content], [enc_item_key] and
    [auth_hash] go ([uuid], [content_type], [deleted], [created_at] and
    the additional fields are copied from the item; the additional fields
    the library sets, [updated_at], [dirty] and [errorDecrypting], are
    none of the three).  [credentials] are the [keys] and [auth_params] of
    the constructor, which refuses keys without auth params;
    [doNotEncrypt] is the answer of [item.doNotEncrypt()].  [None] is both
    [null] and a field that is not set. *)
Definition __params (item : SFItem) (credentials : option (Keys * AuthParams))
  (doNotEncrypt forExportFile : bool) (g : rng P) : ItemParams * rng P :=
  if negb (errorDecrypting item) then
    let doNotEncrypt := doNotEncrypt && negb forExportFile in
    let plain :=
      ({| ip_content :=
            if forExportFile then createContentJSONFromProperties item
            else VStr ("000" ++ base64 (JSON_stringify P
                                          (createContentJSONFromProperties item)));
          ip_enc_item_key := None;
          ip_auth_hash := None |}, g) in
    match credentials with
    | Some (keys, auth_params) =>
        if negb doNotEncrypt then
          let '(encryptedParams, g1) := encryptItem item keys auth_params g in
          ({| ip_content := VStr (p_content encryptedParams);
              ip_enc_item_key := Some (p_enc_item_key encryptedParams);
              ip_auth_hash :=
                if negb (String.eqb (version auth_params) "001") then None
                else p_auth_hash encryptedParams |}, g1)
        else plain
    | None => plain
    end
  else
    ({| ip_content := content item;
        ip_enc_item_key := enc_item_key item;
        ip_auth_hash := auth_hash item |}, g).

(** [paramsForSync()] on a new [SFItemParams], whose [forExportFile] is
    not set, and [paramsForLocalStorage()], which sets it. *)
Definition paramsForSync (item : SFItem)
  (credentials : option (Keys * AuthParams)) (doNotEncrypt : bool) (g : rng P)
  : ItemParams * rng P :=
  __params item credentials doNotEncrypt false g.

Definition paramsForLocalStorage (item : SFItem)
  (credentials : option (Keys * AuthParams)) (doNotEncrypt : bool) (g : rng P)
  : ItemParams * rng P :=
  __params item credentials doNotEncrypt true g.

End WithPrimitives.

(** The record an item comes back as, when it was stored or sent with
    the given params. *)
Definition withItemParams (params : ItemParams) (item : SFItem) : SFItem :=
  {| uuid := uuid item;
     content := ip_content params;
     appData := appData item;
     enc_item_key := ip_enc_item_key params;
     auth_hash := ip_auth_hash params;
     auth_params := auth_params item;
     deleted := deleted item;
     errorDecrypting := errorDecrypting item;
     errorDecryptingValueChanged := errorDecryptingValueChanged item |}.

(* ---------------- generateUUIDSync ---------------- *)

(** [v.toString(16)] for [0 <= v < 16]. *)
Definition hexDigitOf (v : Z) : ascii :=
  if (v <? 10)%Z then ascii_of_nat (48 + Z.to_nat v)
  else ascii_of_nat (87 + Z.to_nat v).

(** An element of a [Uint32Array], as the 32-bit signed integer that the
    operator [>>] works on. *)
Definition toInt32 (w : Z) : Z :=
  let m := (w mod 2 ^ 32)%Z in
  if (m <? 2 ^ 31)%Z then m else (m - 2 ^ 32)%Z.

(** [buf[idx >> 3] >> idx % 8 * 4 & 15] *)
Definition randomNibble (buf : list Z) (idx : Z) : Z :=
  Z.land
    (Z.shiftr (toInt32 (nth (Z.to_nat (Z.shiftr idx 3)) buf 0%Z))
       ((idx mod 8) * 4))
    15.

(** [template.replace(/[xy]/g, c => ...)], with the counter [idx] that
    the callback increments. *)
Fixpoint fillTemplate (buf : list Z) (template : string) (idx : Z) : string :=
  match template with
  | EmptyString => EmptyString
  | String c rest =>
      if Ascii.eqb c "x" || Ascii.eqb c "y" then
        let idx := (idx + 1)%Z in
        let r := randomNibble buf idx in
        let v := if Ascii.eqb c "x" then r else Z.lor (Z.land r 3) 8 in
        String (hexDigitOf v) (fillTemplate buf rest idx)
      else String c (fillTemplate buf rest idx)
  end.

Definition uuidTemplate : string := "xxxxxxxx-xxxx-4xxx-yxxx-xxxxxxxxxxxx".

(** [generateUUIDSync()] where [crypto.getRandomValues] exists: [buf] is
    what it wrote to the [Uint32Array(4)]. *)
Definition generateUUIDSync (buf : list Z) : string :=
  fillTemplate buf uuidTemplate (-1).

(** A lower-case hexadecimal digit; one of [8 9 a b]. *)
Definition isHexDigit (c : ascii) : bool :=
  let n := nat_of_ascii c in
  ((48 <=? n) && (n <=? 57) || (97 <=? n) && (n <=? 102))%nat.

Definition isVariantDigit (c : ascii) : bool :=
  let n := nat_of_ascii c in
  ((n =? 56) || (n =? 57) || (n =? 97) || (n =? 98))%nat.

(** [s] has the shape of [template]: a hexadecimal digit for every [x],
    one of [8 9 a b] for every [y], and the template's own character
    elsewhere. *)
Fixpoint matchesTemplate (template s : string) : bool :=
  match template, s with
  | EmptyString, EmptyString => true
  | String t template', String c s' =>
      (if Ascii.eqb t "x" then isHexDigit c
       else if Ascii.eqb t "y" then isVariantDigit c
       else Ascii.eqb c t)
      && matchesTemplate template' s'
  | _, _ => false
  end.


(** The text of an envelope: five fields and whatever follows them (the
    encoded auth params, further fields, or nothing). *)
Definition trailing (rest : option string) : string :=
  match rest with
  | Some r => String colon r
  | None => EmptyString
  end.

Definition envelope (version authHash uuid iv ciphertext : string)
  (rest : option string) : string :=
  version ++ String colon (authHash ++ String colon (uuid ++ String colon
    (iv ++ String colon (ciphertext ++ trailing rest)))).

(** Flip bit [bit] of a character. *)
Definition flipAscii (bit : nat) (c : ascii) : ascii :=
  let '(Ascii b0 b1 b2 b3 b4 b5 b6 b7) := c in
  match bit with
  | 0 => Ascii (negb b0) b1 b2 b3 b4 b5 b6 b7
  | 1 => Ascii b0 (negb b1) b2 b3 b4 b5 b6 b7
  | 2 => Ascii b0 b1 (negb b2) b3 b4 b5 b6 b7
  | 3 => Ascii b0 b1 b2 (negb b3) b4 b5 b6 b7
  | 4 => Ascii b0 b1 b2 b3 (negb b4) b5 b6 b7
  | 5 => Ascii b0 b1 b2 b3 b4 (negb b5) b6 b7
  | 6 => Ascii b0 b1 b2 b3 b4 b5 (negb b6) b7
  | _ => Ascii b0 b1 b2 b3 b4 b5 b6 (negb b7)
  end.

(** Flip bit [bit] of the character at [index]. *)
Fixpoint flipBit (index bit : nat) (s : string) : string :=
  match s, index with
  | EmptyString, _ => EmptyString
  | String c rest, O => String (flipAscii bit c) rest
  | String c rest, S index' => String c (flipBit index' bit rest)
  end.

(** The fields of an envelope that its hash covers, besides the version. *)
Inductive AuthenticatedField : Type := UuidField | IvField | CiphertextField.

Definition fieldIndex (f : AuthenticatedField) : nat :=
  match f with
  | UuidField => 2
  | IvField => 3
  | CiphertextField => 4
  end.

(** The envelope with one bit of one of these fields flipped. *)
Definition tamper (f : AuthenticatedField) (index bit : nat) (text : string)
  : string :=
  let fields := split colon text in
  match fields !! fieldIndex f with
  | Some field =>
      String.concat ":" (<[fieldIndex f := flipBit index bit field]> fields)
  | None => text
  end.

(** The derivation as the specification words it: the salt is the SHA-256
    of [identifier:"SF":version:pw_cost:pw_nonce], PBKDF2-HMAC-SHA512 runs
    over the password and that salt with [pw_cost] iterations and 768 bits
    of output, and the output is cut in three 256-bit keys, [pw], [mk] and
    [ak], in that order (64 hex digits each). *)
Definition specifiedKeys003 (P : Primitives) (identifier password : string)
  (version : string) (pw_cost : N) (pw_nonce : string) : Keys :=
  let pw_salt :=
    SHA256 P (identifier ++ ":" ++ "SF" ++ ":" ++ version ++ ":"
              ++ numberToString pw_cost ++ ":" ++ pw_nonce) in
  let output := PBKDF2_SHA512 P password pw_salt pw_cost 768 in
  {| pw := String.substring 0 64 output;
     mk := String.substring 64 64 output;
     ak := String.substring 128 64 output |}.

End Codec.

(* ===================================================================== *)
(** ** SFItem, SFModelManager, SFSyncManager, SFSingletonManager *)
(* ===================================================================== *)

Module Store.
Local Open Scope list_scope.

(** Items are JavaScript objects: they live in a heap and are named by
    their address, so that an item held at once by the store's list, by
    the UUID index and by other items' [referencingObjects] is one object. *)
Definition loc := nat.

(** An entry of [content.references]. *)
Record Reference : Type := { r_uuid : string; r_content_type : string }.

(** The fields of an item that dirty tracking, the reference graph and the
    mapper read or write.  [content] is represented by its [references]
    array; a missing [content_type] is the empty string and an undefined
    flag is [false]; [dirtyCount] keeps [undefined] apart from [0]. *)
Record SFItem : Type := {
  uuid : string;
  content_type : string;
  references : list Reference;
  referencingObjects : list loc;
  created_at : Z;
  deleted : bool;
  dirty : bool;
  dirtyCount : option nat;
  dummy : bool;
  errorDecrypting : bool
}.

Definition with_uuid (v : string) (i : SFItem) : SFItem :=
  {| uuid := v; content_type := content_type i; references := references i;
     referencingObjects := referencingObjects i; created_at := created_at i;
     deleted := deleted i; dirty := dirty i; dirtyCount := dirtyCount i;
     dummy := dummy i; errorDecrypting := errorDecrypting i |}.

Definition with_references (v : list Reference) (i : SFItem) : SFItem :=
  {| uuid := uuid i; content_type := content_type i; references := v;
     referencingObjects := referencingObjects i; created_at := created_at i;
     deleted := deleted i; dirty := dirty i; dirtyCount := dirtyCount i;
     dummy := dummy i; errorDecrypting := errorDecrypting i |}.

Definition with_referencingObjects (v : list loc) (i : SFItem) : SFItem :=
  {| uuid := uuid i; content_type := content_type i;
     references := references i;
     referencingObjects := v; created_at := created_at i;
     deleted := deleted i; dirty := dirty i; dirtyCount := dirtyCount i;
     dummy := dummy i; errorDecrypting := errorDecrypting i |}.

Definition with_deleted (v : bool) (i : SFItem) : SFItem :=
  {| uuid := uuid i; content_type := content_type i;
     references := references i;
     referencingObjects := referencingObjects i; created_at := created_at i;
     deleted := v; dirty := dirty i; dirtyCount := dirtyCount i;
     dummy := dummy i; errorDecrypting := errorDecrypting i |}.

Definition with_dirty (v : bool) (c : option nat) (i : SFItem) : SFItem :=
  {| uuid := uuid i; content_type := content_type i;
     references := references i;
     referencingObjects := referencingObjects i; created_at := created_at i;
     deleted := deleted i; dirty := v; dirtyCount := c;
     dummy := dummy i; errorDecrypting := errorDecrypting i |}.

Definition with_dummy (v : bool) (i : SFItem) : SFItem :=
  {| uuid := uuid i; content_type := content_type i;
     references := references i;
     referencingObjects := referencingObjects i; created_at := created_at i;
     deleted := deleted i; dirty := dirty i; dirtyCount := dirtyCount i;
     dummy := v; errorDecrypting := errorDecrypting i |}.

(** The [content] of a record handed to the mapper: absent (or omitted),
    a string that is not JSON (undecrypted ciphertext), or an object (or
    its JSON text) with or without a [references] key. *)
Inductive JContent : Type :=
| CMissing
| CUnparsed
| CObject (refs : option (list Reference)).

(** A record ([json_obj]) as the mapper and [updateFromJSON] read it.
    [None] is a key that is not present. *)
Record JsonObj : Type := {
  j_uuid : string;
  j_content_type : string;
  j_content : JContent;
  j_created_at : option Z;
  j_deleted : bool;
  j_dirty : option bool;
  j_dirtyCount : option nat;
  j_errorDecrypting : option bool
}.

(** An item passed where a record is expected (the mapper is given the
    item itself by [alternateUUIDForItem]). *)
Definition jsonOfItem (i : SFItem) : JsonObj :=
  {| j_uuid := uuid i; j_content_type := content_type i;
     j_content := CObject (Some (references i));
     j_created_at := Some (created_at i);
     j_deleted := deleted i; j_dirty := Some (dirty i);
     j_dirtyCount := dirtyCount i;
     j_errorDecrypting := Some (errorDecrypting i) |}.

(** [delete json_obj[key]] for the keys the model tracks. *)
Definition omitField (key : string) (j : JsonObj) : JsonObj :=
  {| j_uuid := if String.eqb key "uuid" then EmptyString else j_uuid j;
     j_content_type :=
       if String.eqb key "content_type" then EmptyString else j_content_type j;
     j_content := if String.eqb key "content" then CMissing else j_content j;
     j_created_at :=
       if String.eqb key "created_at" then None else j_created_at j;
     j_deleted := if String.eqb key "deleted" then false else j_deleted j;
     j_dirty := if String.eqb key "dirty" then None else j_dirty j;
     j_dirtyCount :=
       if String.eqb key "dirtyCount" then None else j_dirtyCount j;
     j_errorDecrypting :=
       if String.eqb key "errorDecrypting" then None
       else j_errorDecrypting j |}.

Definition hasContent (j : JsonObj) : bool :=
  match j_content j with CMissing => false | _ => true end.

Record MissedRef : Type := { reference_uuid : string; for_item : loc }.

Record SFModelManager : Type := {
  items : list loc;
  (** [itemsHash], an object used as a map from UUID to item. *)
  itemsHash : list (string * loc);
  itemsPendingRemoval : list string;
  (** [missedReferences]: the keys in insertion order, as [Object.keys]
      lists them. *)
  missedReferences : list (string * MissedRef);
  acceptableContentTypes : option (list string)
}.

Record State : Type := {
  heap : list SFItem;
  modelManager : SFModelManager;
  (** [new Date()] *)
  now : Z;
  (** The answers [SFJS.crypto.generateUUID] is going to give. *)
  uuidSource : nat -> string;
  uuidNext : nat
}.

Definition with_heap (h : list SFItem) (s : State) : State :=
  {| heap := h; modelManager := modelManager s; now := now s;
     uuidSource := uuidSource s; uuidNext := uuidNext s |}.

Definition with_modelManager (m : SFModelManager) (s : State) : State :=
  {| heap := heap s; modelManager := m; now := now s;
     uuidSource := uuidSource s; uuidNext := uuidNext s |}.

Definition with_items (v : list loc) (m : SFModelManager) : SFModelManager :=
  {| items := v; itemsHash := itemsHash m;
     itemsPendingRemoval := itemsPendingRemoval m;
     missedReferences := missedReferences m;
     acceptableContentTypes := acceptableContentTypes m |}.

Definition with_itemsHash (v : list (string * loc)) (m : SFModelManager)
  : SFModelManager :=
  {| items := items m; itemsHash := v;
     itemsPendingRemoval := itemsPendingRemoval m;
     missedReferences := missedReferences m;
     acceptableContentTypes := acceptableContentTypes m |}.

Definition with_itemsPendingRemoval (v : list string) (m : SFModelManager)
  : SFModelManager :=
  {| items := items m; itemsHash := itemsHash m;
     itemsPendingRemoval := v;
     missedReferences := missedReferences m;
     acceptableContentTypes := acceptableContentTypes m |}.

Definition with_missedReferences (v : list (string * MissedRef))
  (m : SFModelManager) : SFModelManager :=
  {| items := items m; itemsHash := itemsHash m;
     itemsPendingRemoval := itemsPendingRemoval m;
     missedReferences := v;
     acceptableContentTypes := acceptableContentTypes m |}.

(** Mutate the object at [l]. *)
Definition update (l : loc) (f : SFItem -> SFItem) (s : State) : State :=
  with_heap (alter f l (heap s)) s.

(** [obj[key]] on an object used as a map. *)
Fixpoint lookupKey {A : Type} (key : string) (m : list (string * A))
  : option A :=
  match m with
  | [] => None
  | (k, v) :: rest => if String.eqb key k then Some v else lookupKey key rest
  end.

(** [delete obj[key]] *)
Definition deleteKey {A : Type} (key : string) (m : list (string * A))
  : list (string * A) :=
  List.filter (fun kv => negb (String.eqb key (fst kv))) m.

(** [obj[key] = v]: an existing key keeps its place, a new one goes last. *)
Fixpoint setKey {A : Type} (key : string) (v : A) (m : list (string * A))
  : list (string * A) :=
  match m with
  | [] => [(key, v)]
  | (k, v') :: rest =>
      if String.eqb key k then (k, v) :: rest else (k, v') :: setKey key v rest
  end.

(** The [uuid] read through a pointer. *)
Definition uuidAt (s : State) (l : loc) : string :=
  match heap s !! l with Some i => uuid i | None => EmptyString end.

(** A [for (x of array)] loop over an array that the body may change in
    place: the iterator re-reads [array[index]] and [array.length] at every
    step.  [fuel] bounds the number of iterations. *)
Fixpoint forOfLive {A : Type} (fuel : nat) (array : State -> list A)
  (body : A -> State -> State) (index : nat) (s : State) : State :=
  match fuel with
  | O => s
  | S fuel' =>
      match array s !! index with
      | None => s
      | Some x => forOfLive fuel' array body (S index) (body x s)
      end
  end.

(* ---------------- SFItem ---------------- *)

(** [setDirty(dirty, dontUpdateClientDate)].  The [client_updated_at]
    stamp it also writes lives in [appData], outside this model. *)
Definition setDirty_item (flag : bool) (i : SFItem) : SFItem :=
  let count :=
    match dirtyCount i with
    | None | Some O => O
    | Some n => n
    end in
  with_dirty flag (Some (if flag then S count else O)) i.

Definition setDirty (this : loc) (flag : bool) (s : State) : State :=
  update this (setDirty_item flag) s.

(** [this.content.references.find(r => r.uuid == item.uuid) != null] *)
Definition hasReferenceTo (u : string) (i : SFItem) : bool :=
  existsb (fun r => String.eqb (r_uuid r) u) (references i).

Definition hasRelationshipWithItem (this item : loc) (s : State) : bool :=
  match heap s !! this with
  | Some i => hasReferenceTo (uuidAt s item) i
  | None => false
  end.

Definition removeReferenceWithUuid_item (u : string) (i : SFItem) : SFItem :=
  with_references
    (List.filter (fun r => negb (String.eqb (r_uuid r) u)) (references i)) i.

Definition removeReferenceWithUuid (this : loc) (u : string) (s : State)
  : State :=
  update this (removeReferenceWithUuid_item u) s.

(** [_.find(this.referencingObjects, {uuid: item.uuid})] finds nothing. *)
Definition notReferencedBy (s : State) (u : string) (i : SFItem) : bool :=
  negb (existsb (fun l => String.eqb (uuidAt s l) u) (referencingObjects i)).

Definition setIsBeingReferencedBy (this item : loc) (s : State) : State :=
  match heap s !! this with
  | Some i =>
      if notReferencedBy s (uuidAt s item) i
      then update this
             (fun i => with_referencingObjects (referencingObjects i ++ [item]) i)
             s
      else s
  | None => s
  end.

Definition setIsNoLongerBeingReferencedBy (this item : loc) (s : State)
  : State :=
  let u := uuidAt s item in
  (* _.remove(this.referencingObjects, {uuid: item.uuid}) *)
  let s1 :=
    update this
      (fun i =>
         with_referencingObjects
           (List.filter (fun l => negb (String.eqb (uuidAt s l) u))
              (referencingObjects i)) i) s in
  (* Legacy two-way relationships should be handled here *)
  if hasRelationshipWithItem this item s1
  then setDirty this true (removeReferenceWithUuid this u s1)
  else s1.

Definition addItemAsRelationship (this item : loc) (s : State) : State :=
  let s1 := setIsBeingReferencedBy item this s in
  if hasRelationshipWithItem this item s1 then s1
  else
    match heap s1 !! item with
    | Some it =>
        update this
          (fun i =>
             with_references
               (references i ++
                  [{| r_uuid := uuid it; r_content_type := content_type it |}])
               i) s1
    | None => s1
    end.

Definition removeItemAsRelationship (this item : loc) (s : State) : State :=
  let s1 := setIsNoLongerBeingReferencedBy item this s in
  removeReferenceWithUuid this (uuidAt s1 item) s1.

(** [potentialItemOfInterestHasChangedItsUUID]: every reference to
    [oldUUID] is rewritten in place, with one [setDirty(true)] each. *)
Fixpoint renameReferences (oldUUID newUUID : string) (refs : list Reference)
  : list Reference * nat :=
  match refs with
  | [] => ([], O)
  | r :: rest =>
      let '(rest', n) := renameReferences oldUUID newUUID rest in
      if String.eqb (r_uuid r) oldUUID
      then ({| r_uuid := newUUID; r_content_type := r_content_type r |}
              :: rest', S n)
      else (r :: rest', n)
  end.

Definition potentialItemOfInterestHasChangedItsUUID_item
  (oldUUID newUUID : string) (i : SFItem) : SFItem :=
  let '(refs, n) := renameReferences oldUUID newUUID (references i) in
  Nat.iter n (setDirty_item true) (with_references refs i).

Definition potentialItemOfInterestHasChangedItsUUID (this : loc)
  (oldUUID newUUID : string) (s : State) : State :=
  update this (potentialItemOfInterestHasChangedItsUUID_item oldUUID newUUID) s.

(** [updateFromJSON(json)].  [deepMerge] replaces an existing
    [references] array by the incoming one and keeps it when the incoming
    content has none; nothing is merged when the content does not parse. *)
Definition updateFromJSON_item (time : Z) (json : JsonObj) (i : SFItem)
  : SFItem :=
  {| uuid := j_uuid json;
     content_type :=
       if String.eqb (content_type i) EmptyString
       then j_content_type json else content_type i;
     references :=
       match j_content json with
       | CObject (Some refs) => refs
       | _ => references i
       end;
     referencingObjects := referencingObjects i;
     created_at := default time (j_created_at json);
     deleted := j_deleted json;
     dirty := default (dirty i) (j_dirty json);
     dirtyCount :=
       match j_dirtyCount json with
       | Some n => Some n
       | None => dirtyCount i
       end;
     dummy := dummy i;
     errorDecrypting := default (errorDecrypting i) (j_errorDecrypting json)
  |}.

Definition updateFromJSON (this : loc) (json : JsonObj) (s : State) : State :=
  update this (updateFromJSON_item (now s) json) s.

(** [SFJS.crypto.generateUUID()] *)
Definition generateUUID (s : State) : string * State :=
  (uuidSource s (uuidNext s),
   {| heap := heap s; modelManager := modelManager s; now := now s;
      uuidSource := uuidSource s; uuidNext := S (uuidNext s) |}).

(** [new SFItem(json_obj)]: the new object and its address. *)
Definition newSFItem (json : JsonObj) (s : State) : loc * State :=
  let blank :=
    {| uuid := EmptyString; content_type := EmptyString; references := [];
       referencingObjects := []; created_at := 0%Z; deleted := false;
       dirty := false; dirtyCount := None; dummy := false;
       errorDecrypting := false |} in
  let i := updateFromJSON_item (now s) json blank in
  let '(i, s) :=
    if String.eqb (uuid i) EmptyString
    then let '(u, s') := generateUUID s in (with_uuid u i, s')
    else (i, s) in
  (length (heap s), with_heap (heap s ++ [i]) s).

(* ---------------- SFModelManager ---------------- *)

Definition findItem (s : State) (itemId : string) : option loc :=
  lookupKey itemId (itemsHash (modelManager s)).

(** [findItems(ids, includeBlanks = true)] *)
Definition findItems (s : State) (ids : list string) : list (option loc) :=
  map (findItem s) ids.

(** [createItem(json_obj, dontNotifyObservers)]; observers are called
    back later, through [$timeout]. *)
Definition createItem (json : JsonObj) (s : State) : loc * State :=
  newSFItem json s.

Definition addItem (item : loc) (s : State) : State :=
  let m := modelManager s in
  let u := uuidAt s item in
  match lookupKey u (itemsHash m) with
  | Some _ => s
  | None =>
      with_modelManager
        (with_items (items m ++ [item])
           (with_itemsHash (setKey u item (itemsHash m)) m)) s
  end.

Definition removeItemLocally (item : loc) (s : State) : State :=
  let m := modelManager s in
  let u := uuidAt s item in
  with_modelManager
    (with_itemsPendingRemoval (itemsPendingRemoval m ++ [u])
       (with_itemsHash (deleteKey u (itemsHash m))
          (with_items
             (List.filter (fun l => negb (String.eqb (uuidAt s l) u)) (items m))
             m))) s.

(** The [allItems] getter. *)
Definition allItems (s : State) : list loc :=
  List.filter
    (fun l => match heap s !! l with
              | Some i => negb (dummy i)
              | None => false
              end)
    (items (modelManager s)).

Definition isDirtyItem (i : SFItem) : bool :=
  dirty i && negb (dummy i) && (negb (errorDecrypting i) || deleted i).

Definition getDirtyItems (s : State) : list loc :=
  List.filter
    (fun l => match heap s !! l with
              | Some i => isDirtyItem i
              | None => false
              end)
    (items (modelManager s)).

Definition clearDirtyItems (ls : list loc) (s : State) : State :=
  fold_left (fun s l => setDirty l false s) ls s.

Definition missedReferenceBuildKey (referenceId objectId : string) : string :=
  (referenceId ++ ":" ++ objectId)%string.

Definition resolveReferencesForItem (item : loc) (markReferencesDirty : bool)
  (s : State) : State :=
  match heap s !! item with
  | None => s
  | Some i =>
      let referencesIds := map r_uuid (references i) in
      let referencesObjectResults := findItems s referencesIds in
      fold_left
        (fun s '(missingRefId, referencedItem) =>
           match referencedItem with
           | Some r =>
               let s1 := addItemAsRelationship item r s in
               if markReferencesDirty then setDirty r true s1 else s1
           | None =>
               let m := modelManager s in
               let mappingKey :=
                 missedReferenceBuildKey missingRefId (uuidAt s item) in
               match lookupKey mappingKey (missedReferences m) with
               | Some _ => s
               | None =>
                   with_modelManager
                     (with_missedReferences
                        (setKey mappingKey
                           {| reference_uuid := missingRefId;
                              for_item := item |}
                           (missedReferences m)) m) s
               end
           end)
        (combine referencesIds referencesObjectResults) s
  end.

Definition popMissedReferenceStructsForObjects (objects : list JsonObj)
  (s : State) : list MissedRef * State :=
  match objects with
  | [] => ([], s)
  | first :: _ =>
      let m := modelManager s in
      let uuids := map j_uuid objects in
      let genericUuidLength := String.length (j_uuid first) in
      let matches (candidateKey : string) : bool :=
        existsb (String.eqb (Js.substring candidateKey 0 genericUuidLength))
          uuids in
      let results :=
        map snd (List.filter (fun kv => matches (fst kv)) (missedReferences m)) in
      let remaining :=
        List.filter (fun kv => negb (matches (fst kv))) (missedReferences m) in
      (results, with_modelManager (with_missedReferences remaining m) s)
  end.

(** The first loop of the mapper, for one record.  The accumulator is
    the state with [models] and [processedObjects]; the list of models to
    notify observers of is not kept, since observers run later, through
    [$timeout]. *)
Definition mapRecord (omitFields : option (list string))
  (acc : State * list loc * list JsonObj) (json_obj : JsonObj)
  : State * list loc * list JsonObj :=
  let '(s, models, processedObjects) := acc in
  if (String.eqb (j_content_type json_obj) EmptyString
      || negb (hasContent json_obj)
      || String.eqb (j_uuid json_obj) EmptyString)
     && negb (j_deleted json_obj)
     && negb (default false (j_errorDecrypting json_obj))
  then acc
  else
    let json_obj :=
      match omitFields with
      | Some keys => fold_left (fun j key => omitField key j) keys json_obj
      | None => json_obj
      end in
    let item := findItem s (j_uuid json_obj) in
    let s :=
      match item with
      | Some l => update l (with_dummy false) (updateFromJSON l json_obj s)
      | None => s
      end in
    let m := modelManager s in
    if existsb (String.eqb (j_uuid json_obj)) (itemsPendingRemoval m) then
      (with_modelManager
         (with_itemsPendingRemoval
            (List.filter (fun u => negb (String.eqb u (j_uuid json_obj)))
               (itemsPendingRemoval m)) m) s,
       models, processedObjects)
    else
      let contentType :=
        if negb (String.eqb (j_content_type json_obj) EmptyString)
        then j_content_type json_obj
        else match item with
             | Some l => match heap s !! l with
                         | Some i => content_type i
                         | None => EmptyString
                         end
             | None => EmptyString
             end in
      let unknownContentType :=
        match acceptableContentTypes m with
        | Some types => negb (existsb (String.eqb contentType) types)
        | None => false
        end in
      if unknownContentType then (s, models, processedObjects)
      else if j_deleted json_obj && negb (default false (j_dirty json_obj)) then
        (match item with
         | Some l => removeItemLocally l s
         | None => s
         end, models, processedObjects)
      else
        let '(l, s) :=
          match item with
          | Some l => (l, s)
          | None => createItem json_obj s
          end in
        let s := addItem l s in
        (s, models ++ [l], processedObjects ++ [json_obj]).

(** [mapResponseItemsToLocalModelsOmittingFields(items, omitFields, source)].
    After the second loop the variable [model] still holds the model of
    the last processed record; the loop over the popped missed references
    uses it. *)
Definition mapResponseItemsToLocalModelsOmittingFields
  (records : list JsonObj) (omitFields : option (list string)) (s : State)
  : list loc * State :=
  let '(s, models, processedObjects) :=
    fold_left (mapRecord omitFields) records (s, [], []) in
  let s :=
    fold_left
      (fun s '(json_obj, model) =>
         if hasContent json_obj
         then resolveReferencesForItem model false s
         else s)
      (combine processedObjects models) s in
  let '(missedRefs, s) :=
    popMissedReferenceStructsForObjects processedObjects s in
  let s :=
    match last models with
    | Some model =>
        fold_left
          (fun s ref =>
             let itemWaitingForTheValueInThisCurrentLoop := for_item ref in
             addItemAsRelationship itemWaitingForTheValueInThisCurrentLoop
               model s)
          missedRefs s
    | None => s
    end in
  (models, s).

Definition mapResponseItemsToLocalModels (records : list JsonObj) (s : State)
  : list loc * State :=
  mapResponseItemsToLocalModelsOmittingFields records None s.

Definition informModelsOfUUIDChangeForItem (newItem : loc)
  (oldUUID newUUID : string) (s : State) : State :=
  fold_left
    (fun s model =>
       potentialItemOfInterestHasChangedItsUUID model oldUUID newUUID s)
    (items (modelManager s)) s.

(** The body of the loop over [item.referencingObjects] in
    [alternateUUIDForItem]. *)
Definition inheritRelationship (item newItem referencingObject : loc)
  (s : State) : State :=
  setDirty referencingObject true
    (addItemAsRelationship referencingObject newItem
       (setIsNoLongerBeingReferencedBy referencingObject item s)).

Definition referencingObjectsAt (l : loc) (s : State) : list loc :=
  match heap s !! l with
  | Some i => referencingObjects i
  | None => []
  end.

(** [alternateUUIDForItem(item)], up to the point where the UUID-change
    observers are called with [(item, newItem)]. *)
Definition alternateUUIDForItem (item : loc) (s : State) : option loc * State :=
  match heap s !! item with
  | None => (None, s)
  | Some original =>
      let '(newItem, s) := createItem (jsonOfItem original) s in
      let '(newUUID, s) := generateUUID s in
      let s := update newItem (with_uuid newUUID) s in
      let s := informModelsOfUUIDChangeForItem newItem (uuid original) newUUID s in
      let s :=
        forOfLive (length (referencingObjectsAt item s))
          (referencingObjectsAt item)
          (inheritRelationship item newItem) 0 s in
      let s := update item (with_deleted true) s in
      let s := update item (with_references []) s in
      let s := setDirty item false s in
      let s :=
        match heap s !! item with
        | Some i => snd (mapResponseItemsToLocalModels [jsonOfItem i] s)
        | None => s
        end in
      let s := addItem newItem s in
      let s := setDirty newItem true s in
      (Some newItem, s)
  end.

(** First loop of [removeAndDirtyAllRelationshipsForItem]: the direct
    relationships.  [removeReferenceWithUuid] installs a new array, so the
    loop runs over the array it started with. *)
Definition removeDirectRelationship (item : loc) (s : State) (reference : Reference)
  : State :=
  match findItem s (r_uuid reference) with
  | Some relationship =>
      let s := removeItemAsRelationship item relationship s in
      if hasRelationshipWithItem relationship item s
      then setDirty relationship true
             (removeItemAsRelationship relationship item s)
      else s
  | None => s
  end.

(** Second loop: the indirect relationships.  Its body removes the
    current element from the very array the loop walks. *)
Definition removeIndirectRelationship (item object : loc) (s : State) : State :=
  setDirty object true (removeItemAsRelationship object item s).

Definition removeAndDirtyAllRelationshipsForItem (item : loc) (s : State)
  : State :=
  match heap s !! item with
  | None => s
  | Some i =>
      let s := fold_left (removeDirectRelationship item) (references i) s in
      let s :=
        forOfLive (length (referencingObjectsAt item s))
          (referencingObjectsAt item)
          (removeIndirectRelationship item) 0 s in
      update item (with_referencingObjects []) s
  end.

Definition setItemToBeDeleted (item : loc) (s : State) : State :=
  let s := update item (with_deleted true) s in
  let s :=
    match heap s !! item with
    | Some i => if negb (dummy i) then setDirty item true s else s
    | None => s
    end in
  removeAndDirtyAllRelationshipsForItem item s.

(* ---------------- SFSyncManager: dirty bookkeeping ---------------- *)

(** The repository holds the [SFSyncManager] twice: its source and the
    bundled build.  Both reset [dirtyCount] on the items they submit and
    clear the submitted items at the head of the success handler; the
    bundle, in addition, resets the counter of every dirty item it is
    about to write to local storage, at the very start of [sync]. *)

Definition submitLimit : nat := 100.

(** [sync], from [getDirtyItems] to the reset of the counters: returns
    [subItems], the batch that is about to be posted. *)
Definition prepareSubmission (s : State) : list loc * State :=
  let allDirtyItems := getDirtyItems s in
  let subItems := take submitLimit allDirtyItems in
  (subItems,
   fold_left
     (fun s item => update item (fun i => with_dirty (dirty i) (Some O) i) s)
     subItems s).

(** [item.dirtyCount == 0] *)
Definition dirtyCountIsZero (s : State) (l : loc) : bool :=
  match heap s !! l with
  | Some i => match dirtyCount i with Some O => true | _ => false end
  | None => false
  end.

(** The head of [onSyncSuccess]. *)
Definition itemsToClearAsDirty (subItems : list loc) (s : State) : list loc :=
  List.filter (dirtyCountIsZero s) subItems.

Definition clearSubmitted (subItems : list loc) (s : State) : State :=
  clearDirtyItems (itemsToClearAsDirty subItems s) s.

(** The filter [dirtyItemsNotYetSaved] at the start of the bundled
    [sync]: [if(candidate.dirtyCount > 0) candidate.dirtyCount = 0]. *)
Definition resetNotYetSaved (allDirtyItems : list loc) (s : State) : State :=
  fold_left
    (fun s candidate =>
       update candidate
         (fun i => match dirtyCount i with
                   | Some (S _) => with_dirty (dirty i) (Some O) i
                   | _ => i
                   end) s)
    allDirtyItems s.

(** The bundled [sync], from the slice of [allDirtyItems] to the reset of
    the counters. *)
Definition submit (allDirtyItems : list loc) (s : State) : list loc * State :=
  let subItems := take submitLimit allDirtyItems in
  (subItems,
   fold_left
     (fun s item => update item (fun i => with_dirty (dirty i) (Some O) i) s)
     subItems s).

(** [syncOffline(items)], through the write to local storage it waits
    for: the deleted items are then removed locally.  (The [updated_at]
    stamp it writes first is outside this model.) *)
Definition syncOffline (items : list loc) (s : State) : State :=
  fold_left
    (fun s item =>
       match heap s !! item with
       | Some i => if deleted i then removeItemLocally item s else s
       | None => s
       end)
    items s.

(** The sync manager's own state, as far as dirty tracking goes:
    [syncStatus.syncOpInProgress] and the [subItems] its response handler
    closed over. *)
Record SFSyncManager : Type := {
  syncOpInProgress : bool;
  subItemsInFlight : list loc
}.

(** The steps that write [dirty] or [dirtyCount], or run between two that
    do.  Each step is run to its end before the next one starts.

    - [CallSetDirty]: [item.setDirty(flag)].
    - [CallSync]: [sync()] of the source, without [options.force], from
      its entry to the posting of the request (or to its return, when a
      request is in flight or the user is offline).
    - [CallBundledSync]: the same stretch of [sync()] in the bundle.
    - [ResponseCleared]: the success handler ([onSyncSuccess] in the
      source, [handleSyncSuccess] in the bundle) from its entry to
      [clearDirtyItems(itemsToClearAsDirty)].
    - [ResponseItems]: the mapping of [handleItemsResponse], which the
      success handler runs on the retrieved items (without [omitFields])
      and on the saved items (omitting [content] and [auth_hash]); the
      records are given as [decryptMultipleItems] left them.
    - [ResponseHandled]: [syncStatus.syncOpInProgress = false] at the end
      of the success handler.
    - [ResponseError]: the error handler.

    [handleUnsavedItemsResponse], which the success handler runs between
    the mappings and its end when the response lists conflicts, is not
    among the steps. *)
Inductive Call : Type :=
| CallSetDirty (item : loc) (flag : bool)
| CallSync (offline : bool)
| CallBundledSync (offline : bool)
| ResponseCleared
| ResponseItems (responseItems : list JsonObj)
    (omitFields : option (list string))
| ResponseHandled
| ResponseError.

Definition call (c : Call) (st : State * SFSyncManager)
  : State * SFSyncManager :=
  let '(s, sm) := st in
  match c with
  | CallSetDirty item flag => (setDirty item flag s, sm)
  | CallSync offline =>
      if syncOpInProgress sm then (s, sm)
      else if offline then
        let allDirtyItems := getDirtyItems s in
        let s := clearDirtyItems allDirtyItems s in
        (syncOffline allDirtyItems s, sm)
      else
        let '(subItems, s) := prepareSubmission s in
        (s, {| syncOpInProgress := true; subItemsInFlight := subItems |})
  | CallBundledSync offline =>
      let allDirtyItems := getDirtyItems s in
      let s := resetNotYetSaved allDirtyItems s in
      if syncOpInProgress sm then (s, sm)
      else if offline then
        let s := syncOffline allDirtyItems s in
        (clearDirtyItems allDirtyItems s, sm)
      else
        let '(subItems, s) := submit allDirtyItems s in
        (s, {| syncOpInProgress := true; subItemsInFlight := subItems |})
  | ResponseCleared =>
      if syncOpInProgress sm
      then (clearSubmitted (subItemsInFlight sm) s,
            {| syncOpInProgress := true; subItemsInFlight := [] |})
      else (s, sm)
  | ResponseItems responseItems omitFields =>
      (snd (mapResponseItemsToLocalModelsOmittingFields responseItems
              omitFields s), sm)
  | ResponseHandled =>
      (s, {| syncOpInProgress := false; subItemsInFlight := [] |})
  | ResponseError =>
      (s, {| syncOpInProgress := false; subItemsInFlight := [] |})
  end.

Definition run (calls : list Call) (st : State * SFSyncManager)
  : State * SFSyncManager :=
  fold_left (fun st c => call c st) calls st.

(** [dirtyCount > 0] only on items that are dirty. *)
Definition countOk (i : SFItem) : Prop :=
  forall n, dirtyCount i = Some (S n) -> dirty i = true.

Definition countImpliesDirty (s : State) : Prop :=
  forall l i n, heap s !! l = Some i -> dirtyCount i = Some (S n) ->
                dirty i = true.

(** A record without the client keys [dirty] and [dirtyCount], as the
    server sends it, and a step that maps only such records. *)
Definition withoutDirtyKeys (json : JsonObj) : bool :=
  match j_dirty json, j_dirtyCount json with
  | None, None => true
  | _, _ => false
  end.

Definition mapsServerRecords (c : Call) : bool :=
  match c with
  | ResponseItems responseItems _ => forallb withoutDirtyKeys responseItems
  | _ => true
  end.

(** Relations between an item before and after a call. *)

(** Every item that was there is still there, and is related to what it
    was. *)
Definition heapRel (R : SFItem -> SFItem -> Prop) (s s' : State) : Prop :=
  forall (l : loc) (i : SFItem),
    heap s !! l = Some i -> exists i', heap s' !! l = Some i' /\ R i i'.

(** What the relationship methods and [setDirty(true)] leave alone: they
    only touch [references], [referencingObjects] and the dirty state, and
    never clean an item. *)
Definition quiet (i i' : SFItem) : Prop :=
  uuid i' = uuid i /\ content_type i' = content_type i /\
  created_at i' = created_at i /\ deleted i' = deleted i /\
  dummy i' = dummy i /\ errorDecrypting i' = errorDecrypting i /\
  (dirty i = true -> dirty i' = true).

(** The same, for calls that may also mark items deleted. *)
Definition marks (i i' : SFItem) : Prop :=
  uuid i' = uuid i /\ created_at i' = created_at i /\ dummy i' = dummy i /\
  (deleted i = true -> deleted i' = true) /\
  (dirty i = true -> dirty i' = true).

(** A step that writes neither [dirty] nor [dirtyCount]: the items that
    were there keep both, and the items it creates are clean. *)
Definition sameDirty (i i' : SFItem) : Prop :=
  dirty i' = dirty i /\ dirtyCount i' = dirtyCount i.

Definition keepsDirty (s s' : State) : Prop :=
  heapRel sameDirty s s'
  /\ forall (l : loc) (i' : SFItem),
       heap s' !! l = Some i' -> heap s !! l = None ->
       dirty i' = false /\ dirtyCount i' = None.

(** What UUID alternation is to achieve for an item [r] that referenced
    the original: a reference to the new UUID, none to the old one, and a
    dirty [r]; and for the original at [x]: no references, deleted, clean. *)
Definition rebound (oldUUID newUUID : string) (r : loc) (s : State) : Prop :=
  exists R, heap s !! r = Some R /\ hasReferenceTo newUUID R = true /\
            hasReferenceTo oldUUID R = false /\ dirty R = true.

Definition retired (x : loc) (s : State) : Prop :=
  exists X, heap s !! x = Some X /\ references X = [] /\
            deleted X = true /\ dirty X = false.

(* ---------------- SFSingletonManager ---------------- *)

(** [Array.prototype.sort(compare)], as an insertion sort that places an
    element before the first one it compares below. *)
Fixpoint sortInsert {A : Type} (below : A -> A -> bool) (x : A) (l : list A)
  : list A :=
  match l with
  | [] => [x]
  | y :: rest => if below x y then x :: y :: rest else y :: sortInsert below x rest
  end.

Definition Array_sort {A : Type} (below : A -> A -> bool) (l : list A) : list A :=
  fold_right (sortInsert below) [] l.

Record SingletonHandler (predicate : Type) : Type := {
  predicates : list predicate;
  resolutionCallback : bool;
  createBlock : bool;
  singleton : option loc;
  pendingCreateBlockCallback : bool
}.
Arguments predicates {predicate}.
Arguments resolutionCallback {predicate}.
Arguments createBlock {predicate}.
Arguments singleton {predicate}.
Arguments pendingCreateBlockCallback {predicate}.

(** What the resolver does to the outside: [syncManager.sync()], a call of
    a handler's [resolutionCallback] and a call of its [createBlock]. *)
Inductive Effect : Type :=
| SyncTriggered
| ResolutionCallback (handler : nat) (item : loc)
| CreateBlock (handler : nat).

Section WithPredicates.
Context {predicate : Type}.
(** [SFPredicate.ItemSatisfiesPredicate(item, predicate)] *)
Context (ItemSatisfiesPredicate : SFItem -> predicate -> bool).

Definition filterItemsWithPredicates (s : State) (ls : list loc)
  (ps : list predicate) : list loc :=
  List.filter
    (fun l => match heap s !! l with
              | Some i => forallb (ItemSatisfiesPredicate i) ps
              | None => false
              end) ls.

Definition itemsMatchingPredicates (s : State) (ps : list predicate)
  : list loc :=
  filterItemsWithPredicates s (allItems s) ps.

Definition createdAt (s : State) (l : loc) : Z :=
  match heap s !! l with Some i => created_at i | None => 0%Z end.

(** [a.created_at < b.created_at ? -1 : 1] is negative. *)
Definition createdBefore (s : State) (a b : loc) : bool :=
  (createdAt s a <? createdAt s b)%Z.

Definition with_singleton (v : option loc) (h : SingletonHandler predicate)
  : SingletonHandler predicate :=
  {| predicates := predicates h; resolutionCallback := resolutionCallback h;
     createBlock := createBlock h; singleton := v;
     pendingCreateBlockCallback := pendingCreateBlockCallback h |}.

Definition with_pending (v : bool) (h : SingletonHandler predicate)
  : SingletonHandler predicate :=
  {| predicates := predicates h; resolutionCallback := resolutionCallback h;
     createBlock := createBlock h; singleton := singleton h;
     pendingCreateBlockCallback := v |}.

Definition callback (idx : nat) (h : SingletonHandler predicate) (item : loc)
  : list Effect :=
  if resolutionCallback h then [ResolutionCallback idx item] else [].

(** The body of the loop over [singletonHandlers]. *)
Definition resolveSingleton (retrievedItems savedItems : list loc)
  (initialLoad : bool) (idx : nat) (singletonHandler : SingletonHandler predicate)
  (s : State) : State * SingletonHandler predicate * list Effect :=
  let ps := predicates singletonHandler in
  let retrievedSingletonItems := filterItemsWithPredicates s retrievedItems ps in
  let savedSingletonItemsCount :=
    length (filterItemsWithPredicates s savedItems ps) in
  if (0 <? length retrievedSingletonItems)%nat
     || (0 <? savedSingletonItemsCount)%nat
  then
    let allExtantItemsMatchingPredicate := itemsMatchingPredicates s ps in
    if (2 <=? length allExtantItemsMatchingPredicate)%nat then
      let sorted := Array_sort (createdBefore s) allExtantItemsMatchingPredicate in
      match sorted with
      | winningItem :: toDelete =>
          let s := fold_left (fun s d => setItemToBeDeleted d s) toDelete s in
          (s, with_singleton (Some winningItem) singletonHandler,
           SyncTriggered :: callback idx singletonHandler winningItem)
      | [] => (s, singletonHandler, [])
      end
    else
      match allExtantItemsMatchingPredicate, singleton singletonHandler with
      | [single], None =>
          (s, with_singleton (Some single) singletonHandler,
           callback idx singletonHandler single)
      | _, _ => (s, singletonHandler, [])
      end
  else
    if negb (bool_decide (is_Some (singleton singletonHandler)))
       && negb initialLoad
       && negb (pendingCreateBlockCallback singletonHandler)
       && createBlock singletonHandler
    then (s, with_pending true singletonHandler, [CreateBlock idx])
    else (s, singletonHandler, []).

(** [resolveSingletons(retrievedItems, savedItems, initialLoad)] *)
Fixpoint resolveSingletonsFrom (idx : nat) (retrievedItems savedItems : list loc)
  (initialLoad : bool) (handlers : list (SingletonHandler predicate))
  (s : State) : State * list (SingletonHandler predicate) * list Effect :=
  match handlers with
  | [] => (s, [], [])
  | h :: rest =>
      let '(s, h', effects) :=
        resolveSingleton retrievedItems savedItems initialLoad idx h s in
      let '(s, rest', effects') :=
        resolveSingletonsFrom (S idx) retrievedItems savedItems initialLoad
          rest s in
      (s, h' :: rest', effects ++ effects')
  end.

Definition resolveSingletons (retrievedItems savedItems : list loc)
  (initialLoad : bool) (handlers : list (SingletonHandler predicate))
  (s : State) : State * list (SingletonHandler predicate) * list Effect :=
  resolveSingletonsFrom 0 retrievedItems savedItems initialLoad handlers s.

End WithPredicates.

(* ---------------- SFModelManager: the other bulk operations ---------------- *)

(** [setAllItemsDirty(dontUpdateClientDates)]: [allItems] is read once,
    before the loop. *)
Definition setAllItemsDirty (s : State) : State :=
  fold_left (fun s item => setDirty item true s) (allItems s) s.

(** What the removal of relationships does to an item's references: it
    keeps the UUID and only takes references away. *)
Definition shrinks (i i' : SFItem) : Prop :=
  uuid i' = uuid i /\ forall r, In r (references i') -> In r (references i).

(** Every UUID the registry knows leads to an item that carries it. *)
Definition registryConsistent (s : State) : Prop :=
  forall u l, findItem s u = Some l ->
              exists L, heap s !! l = Some L /\ uuid L = u.

(** What [resolveReferencesForItem(item)], called in state [s0], is to
    achieve for one reference of the item: the referenced item, when the
    registry knows it, has an object with the item's UUID among its
    [referencingObjects]; otherwise the reference is on record as missed,
    under the key [referenceId:itemId]. *)
Definition referenceResolved (item : loc) (r : Reference) (s0 s : State)
  : Prop :=
  match findItem s0 (r_uuid r) with
  | Some l =>
      exists L, heap s !! l = Some L
                /\ notReferencedBy s (uuidAt s0 item) L = false
  | None =>
      is_Some (lookupKey (missedReferenceBuildKey (r_uuid r) (uuidAt s0 item))
                 (missedReferences (modelManager s)))
  end.

(** The model manager without its missed references: [items],
    [itemsHash], [itemsPendingRemoval] and [acceptableContentTypes]. *)
Definition registry (s : State)
  : list loc * list (string * loc) * list string * option (list string) :=
  let m := modelManager s in
  (items m, itemsHash m, itemsPendingRemoval m, acceptableContentTypes m).

(** The test on which the mapper skips a record as corrupt:
    [(!json_obj.content_type || !json_obj.content || !json_obj.uuid) &&
     !json_obj.deleted && !json_obj.errorDecrypting]. *)
Definition corrupt (json_obj : JsonObj) : bool :=
  (String.eqb (j_content_type json_obj) EmptyString
   || negb (hasContent json_obj)
   || String.eqb (j_uuid json_obj) EmptyString)
  && negb (j_deleted json_obj)
  && negb (default false (j_errorDecrypting json_obj)).

(** [item.dirty == true && !item.dummy && (!item.errorDecrypting ||
    item.deleted)] without its first conjunct: what [getDirtyItems] asks of
    a dirty item. *)
Definition syncable (i : SFItem) : bool :=
  negb (dummy i) && (negb (errorDecrypting i) || deleted i).

End Store.

(* ===================================================================== *)
(** ** What the codec assumes of the library functions *)
(* ===================================================================== *)

Module Assumptions.
Import Js Codec.

(** The properties of CryptoJS, [btoa], [JSON.stringify] and the random
    source that the transformer's envelope handling relies on. *)
Record Laws (P : Primitives) : Prop := {
  (** AES-CBC decryption inverts encryption under the same key and IV. *)
  aes_inverse : forall text key iv,
    AES_decrypt P (AES_encrypt P text key iv) key iv = Some text;
  (** Ciphertexts are base64 text, hashes and random keys are hex text:
      none of them contains [":"]. *)
  aes_colonFree : forall text key iv,
    colonFree (AES_encrypt P text key iv) = true;
  hmac_colonFree : forall message key,
    colonFree (HmacSHA256 P message key) = true;
  btoa_colonFree : forall text, colonFree (btoa P text) = true;
  random_colonFree : forall bits g,
    colonFree (fst (random P bits g)) = true;
  (** A hash is never the empty string, and neither is the ciphertext of
      a non-empty text. *)
  hmac_nonempty : forall message key, HmacSHA256 P message key <> EmptyString;
  aes_nonempty : forall text key iv,
    text <> EmptyString -> AES_encrypt P text key iv <> EmptyString;
  (** PBKDF2 prints [length] bits as hex digits. *)
  pbkdf2_length : forall password salt cost length,
    String.length (PBKDF2_SHA512 P password salt cost length)
    = (N.to_nat length / 4)%nat;
  (** [JSON.stringify] of a value other than [undefined] is a non-empty
      text. *)
  stringify_nonempty : forall v,
    v <> VUndefined -> JSON_stringify P v <> EmptyString;
  (** [JSON.parse] never returns [undefined]. *)
  parse_defined : forall text, JSON_parse P text <> Some VUndefined
}.

End Assumptions.

(* ===================================================================== *)
(** ** A small instance of the library functions, to run the code on *)
(* ===================================================================== *)

Module Sample.
Import Js Codec.

(** Three decimal digits per character. *)
Definition digit (n : nat) : ascii := ascii_of_nat (48 + n).

Definition enc3c (c : ascii) : string :=
  let n := nat_of_ascii c in
  String (digit (n / 100))
    (String (digit (n / 10 mod 10)) (String (digit (n mod 10)) EmptyString)).

Fixpoint enc3 (s : string) : string :=
  match s with
  | EmptyString => EmptyString
  | String c rest => enc3c c ++ enc3 rest
  end.

Definition undigit (c : ascii) : option nat :=
  let n := nat_of_ascii c in
  if (48 <=? n)%nat && (n <=? 57)%nat then Some (n - 48)%nat else None.

Definition dec3c (a b c : ascii) : option ascii :=
  match undigit a, undigit b, undigit c with
  | Some x, Some y, Some z =>
      let n := (100 * x + 10 * y + z)%nat in
      if (n <? 256)%nat then Some (ascii_of_nat n) else None
  | _, _, _ => None
  end.

Fixpoint dec3 (s : string) : option string :=
  match s with
  | EmptyString => Some EmptyString
  | String a (String b (String c rest)) =>
      match dec3c a b c, dec3 rest with
      | Some ch, Some r => Some (String ch r)
      | _, _ => None
      end
  | _ => None
  end.

(** The value of the first byte of a hex string (0 when there is none). *)
Definition hexDigit (c : ascii) : nat :=
  let n := nat_of_ascii c in
  if (48 <=? n)%nat && (n <=? 57)%nat then (n - 48)%nat
  else if (97 <=? n)%nat && (n <=? 102)%nat then (n - 87)%nat
  else O.

Definition keyByte (key : string) : nat :=
  match key with
  | String a (String b _) => (16 * hexDigit a + hexDigit b)%nat
  | _ => O
  end.

Definition shift (k : nat) (c : ascii) : ascii :=
  ascii_of_nat ((nat_of_ascii c + k mod 256) mod 256).

Definition unshift (k : nat) (c : ascii) : ascii :=
  ascii_of_nat ((nat_of_ascii c + (256 - k mod 256)) mod 256).

Fixpoint mapChars (f : ascii -> ascii) (s : string) : string :=
  match s with
  | EmptyString => EmptyString
  | String c rest => String (f c) (mapChars f rest)
  end.

(** A byte-wise shift cipher printed in decimal. *)
Definition shiftEncrypt (text key iv : string) : string :=
  enc3 (mapChars (shift (keyByte key + keyByte iv)) text).

Definition shiftDecrypt (ciphertext key iv : string) : option string :=
  match dec3 ciphertext with
  | Some shifted => Some (mapChars (unshift (keyByte key + keyByte iv)) shifted)
  | None => None
  end.

(** A keyed tag that determines its message. *)
Definition tag (message key : string) : string :=
  "h" ++ enc3 (key ++ "/" ++ message).

(** [n] characters, cycling through [src]. *)
Fixpoint cycle (n : nat) (src cur : string) : string :=
  match n with
  | O => EmptyString
  | S n' =>
      match cur with
      | String c rest => String c (cycle n' src rest)
      | EmptyString =>
          match src with
          | String c rest => String c (cycle n' src rest)
          | EmptyString => String "a" (cycle n' src src)
          end
      end
  end.

Definition stretch (password salt : string) (cost length : N) : string :=
  cycle (N.to_nat length / 4) (password ++ salt) (password ++ salt).

Definition counterRandom (bits : N) (g : nat) : string * nat :=
  let digits := numberToString (N.of_nat g) in
  (cycle (N.to_nat bits / 4) digits digits, S g).

Definition quote : ascii := ascii_of_nat 34.

(** A serialiser for the values that occur in the examples. *)
Fixpoint printValue (v : jsval) : string :=
  match v with
  | VUndefined => "null"
  | VNull => "null"
  | VBool true => "true"
  | VBool false => "false"
  | VNum z => NilZero.string_of_int (Z.to_int z)
  | VStr s => String quote (s ++ String quote EmptyString)
  | VArr l =>
      "[" ++ String.concat "," (map printValue l) ++ "]"
  | VObj fields =>
      "{" ++ String.concat ","
               (map (fun kv => String quote
                                 (fst kv ++ String quote (":" ++ printValue (snd kv))))
                  fields) ++ "}"
  end.

(** A parser that only knows the empty object. *)
Definition parseValue (s : string) : option jsval :=
  if String.eqb s "{}" then Some (VObj []) else None.

Definition primitives : Primitives :=
  {| AES_encrypt := shiftEncrypt;
     AES_decrypt := shiftDecrypt;
     HmacSHA256 := tag;
     SHA256 := enc3;
     PBKDF2_SHA512 := stretch;
     btoa := enc3;
     atob := dec3;
     JSON_stringify := printValue;
     JSON_parse := parseValue;
     rng := nat;
     random := counterRandom |}.

(** A note, two sets of keys, and auth params for each protocol version. *)
Definition note : SFItem :=
  {| uuid := "u1";
     content := VObj [("text", VStr "hi")];
     appData := VObj [];
     enc_item_key := None; auth_hash := None; auth_params := None;
     deleted := false;
     errorDecrypting := false; errorDecryptingValueChanged := false |}.

Definition keys : Keys := {| pw := "a0"; mk := "0f"; ak := "1e" |}.


Definition authParams (v : string) : AuthParams :=
  {| version := v; identifier := Some "a@b.c"; pw_cost := 110000;
     pw_nonce := Some "5f"; pw_salt := None |}.

(** An item key, its 003 envelope under [keys] for the item ["u1"], and
    content envelopes sealed under the item key. *)
Definition itemKey : string := fst (generateItemEncryptionKey primitives 0%nat).

Definition keyEnvelope : string :=
  let ctk := encryptText primitives itemKey (mk keys) (Some "7c") in
  envelope "003"
    (hmac256 primitives (join ":" [Some "003"; Some "u1"; Some "7c"; Some ctk])
       (ak keys))
    "u1" "7c" ctk None.

Definition contentEnvelope (v plain : string) (rest : option string) : string :=
  let ct := encryptText primitives plain (firstHalfOfKey itemKey) (Some "9a") in
  envelope v
    (hmac256 primitives (join ":" [Some v; Some "u1"; Some "9a"; Some ct])
       (secondHalfOfKey itemKey))
    "u1" "9a" ct rest.

(** The record of item ["u1"] as it arrives for decryption. *)
Definition received (text : string) (alreadyFlagged : bool) : SFItem :=
  {| uuid := "u1";
     content := VStr text;
     appData := VObj [];
     enc_item_key := Some keyEnvelope; auth_hash := None; auth_params := None;
     deleted := false;
     errorDecrypting := alreadyFlagged;
     errorDecryptingValueChanged := false |}.

(** The record of item ["u1"] with a 003 item key that carries no hash. *)
Definition unauthenticated : SFItem :=
  {| uuid := "u1";
     content := VStr "003:h:u1:9a:049";
     appData := VObj [];
     enc_item_key := Some "003::u1:7c:049050";
     auth_hash := None; auth_params := None;
     deleted := false;
     errorDecrypting := false; errorDecryptingValueChanged := false |}.

(** The content of [note] as it is serialised, and a parser that knows
    its text. *)
Definition noteJSON : jsval :=
  VObj [("text", VStr "hi"); ("appData", VObj [])].

Definition parseNote (s : string) : option jsval :=
  if String.eqb s (printValue noteJSON) then Some noteJSON else parseValue s.

Definition readingPrimitives : Primitives :=
  {| AES_encrypt := shiftEncrypt;
     AES_decrypt := shiftDecrypt;
     HmacSHA256 := tag;
     SHA256 := enc3;
     PBKDF2_SHA512 := stretch;
     btoa := enc3;
     atob := dec3;
     JSON_stringify := printValue;
     JSON_parse := parseNote;
     rng := nat;
     random := counterRandom |}.

End Sample.

(* ===================================================================== *)
(** ** Small stores, to run the model manager on *)
(* ===================================================================== *)

Module Scenario.
Import Store.
Local Open Scope list_scope.

Definition emptyManager : SFModelManager :=
  {| items := []; itemsHash := []; itemsPendingRemoval := [];
     missedReferences := []; acceptableContentTypes := None |}.

Definition emptyStore : State :=
  {| heap := []; modelManager := emptyManager; now := 1000%Z;
     uuidSource := fun n => ("fresh-" ++ Js.numberToString (N.of_nat n))%string;
     uuidNext := 0 |}.

(** A decrypted note record as the server sends it. *)
Definition record (u : string) (refs : list string) (created : Z) : JsonObj :=
  {| j_uuid := u; j_content_type := "Note";
     j_content :=
       CObject (Some (map (fun r => {| r_uuid := r; r_content_type := "Note" |})
                        refs));
     j_created_at := Some created;
     j_deleted := false; j_dirty := None; j_dirtyCount := None;
     j_errorDecrypting := None |}.

(** The store after mapping a note [a] that references a note [b] which
    has not arrived yet. *)
Definition waiting : State :=
  snd (mapResponseItemsToLocalModels [record "a" ["b"] 10] emptyStore).

(** [b] arrives alone, and [b] arrives together with a third note [c]. *)
Definition resolvedAlone : State :=
  snd (mapResponseItemsToLocalModels [record "b" [] 20] waiting).

Definition resolvedInBatch : State :=
  snd (mapResponseItemsToLocalModels [record "b" [] 20; record "c" [] 30]
         waiting).

Definition idle : SFSyncManager :=
  {| syncOpInProgress := false; subItemsInFlight := [] |}.

(** Three notes, the second of which is the oldest and references the
    first. *)
Definition threeNotes : State :=
  snd (mapResponseItemsToLocalModels
         [record "p" [] 30; record "q" ["p"] 10; record "r" [] 20]
         emptyStore).

(** A predicate on the content type, [new SFPredicate("content_type", "=",
    t)], and a handler registered for notes. *)
Definition contentTypeIs (i : SFItem) (t : string) : bool :=
  String.eqb (content_type i) t.

(** A note [x] referenced by two others, and a note that references
    itself. *)
Definition linked : State :=
  snd (mapResponseItemsToLocalModels
         [record "x" [] 10; record "r1" ["x"] 20; record "r2" ["x"; "r1"] 30]
         emptyStore).

Definition selfReferencing : State :=
  snd (mapResponseItemsToLocalModels [record "x" ["x"] 10] emptyStore).

(** The note [x] of [linked], as the mapper built it. *)
Definition referencedNote : SFItem :=
  {| uuid := "x"; content_type := "Note"; references := [];
     referencingObjects := [1; 2]; created_at := 10%Z; deleted := false;
     dirty := false; dirtyCount := None; dummy := false;
     errorDecrypting := false |}.

Definition notesHandler : SingletonHandler string :=
  {| predicates := ["Note"%string]; resolutionCallback := true;
     createBlock := false; singleton := None;
     pendingCreateBlockCallback := false |}.

(** The note [r1] of [linked], as the mapper built it. *)
Definition firstReferrer : SFItem :=
  {| uuid := "r1"; content_type := "Note";
     references := [{| r_uuid := "x"; r_content_type := "Note" |}];
     referencingObjects := [2]; created_at := 20%Z; deleted := false;
     dirty := false; dirtyCount := None; dummy := false;
     errorDecrypting := false |}.

(** More notes than one request submits, all of them dirty. *)
Definition manyNotes : State :=
  setAllItemsDirty
    (snd (mapResponseItemsToLocalModels
            (map (fun n => record ("n" ++ Js.numberToString (N.of_nat n)) []
                             (Z.of_nat n))
               (seq 0 101))
            emptyStore)).

(** A handler that creates its singleton when there is none. *)
Definition creatingHandler : SingletonHandler string :=
  {| predicates := ["Note"%string]; resolutionCallback := true;
     createBlock := true; singleton := None;
     pendingCreateBlockCallback := false |}.

(** The record of a deletion, and a record that arrives without content. *)
Definition deletedRecord (u : string) : JsonObj :=
  {| j_uuid := u; j_content_type := "Note"; j_content := CMissing;
     j_created_at := None;
     j_deleted := true; j_dirty := None; j_dirtyCount := None;
     j_errorDecrypting := None |}.

Definition emptyRecord (u : string) : JsonObj :=
  {| j_uuid := u; j_content_type := "Note"; j_content := CMissing;
     j_created_at := None;
     j_deleted := false; j_dirty := None; j_dirtyCount := None;
     j_errorDecrypting := None |}.

End Scenario.

(** Goals about what a call leaves alone, once the call has been reduced
    to its result. *)
Ltac frame_goal :=
  cbn; repeat split; intros; cbn in *;
  repeat (match goal with
          | |- context [if negb ?b then _ else _] => destruct b eqn:?
          | |- context [if ?b then _ else _] => destruct b eqn:?
          end; cbn in *);
  try assumption; try discriminate; try congruence.

(* ===================================================================== *)
(** * Facts about the string operations *)
(* ===================================================================== *)

Section JsFacts.
Import Js.

Lemma substring_all (s : string) : String.substring 0 (String.length s) s = s.
Proof. induction s as [|c s IH]; simpl; [reflexivity | now rewrite IH]. Qed.

Lemma substring_drop (p s : string) :
  substring (p ++ s) (String.length p) (String.length (p ++ s)) = s.
Proof.
  unfold substring. induction p as [|c p IH]; simpl.
  - rewrite Nat.sub_0_r. apply substring_all.
  - exact IH.
Qed.

Lemma substring_take (p s : string) :
  substring (p ++ s) 0 (String.length p) = p.
Proof.
  unfold substring. rewrite Nat.sub_0_r.
  induction p as [|c p IH]; simpl.
  - now destruct s.
  - now rewrite IH.
Qed.

Lemma substring_length (n m : nat) (s : string) :
  (n + m <= String.length s)%nat -> String.length (String.substring n m s) = m.
Proof.
  revert n m. induction s as [|c s IH]; intros [|n] [|m]; simpl; intros H;
    try reflexivity; try lia.
  - now rewrite IH by (simpl; lia).
  - apply IH. lia.
  - apply IH. lia.
Qed.

Lemma substring_append (n m k : nat) (s : string) :
  String.substring n m s ++ String.substring (n + m) k s
  = String.substring n (m + k) s.
Proof.
  revert n m k. induction s as [|c s IH]; intros [|n] [|m] k; simpl;
    try reflexivity.
  - f_equal. apply (IH 0%nat m k).
  - apply (IH n 0%nat k).
  - apply (IH n (S m) k).
Qed.

Lemma length_append (a b : string) :
  String.length (a ++ b) = (String.length a + String.length b)%nat.
Proof. induction a as [|c a IH]; simpl; [reflexivity | now rewrite IH]. Qed.

Lemma append_assoc (a b c : string) : (a ++ b) ++ c = a ++ (b ++ c).
Proof. induction a as [|x a IH]; simpl; [reflexivity | now rewrite IH]. Qed.

Lemma append_empty_r (a : string) : a ++ EmptyString = a.
Proof. induction a as [|x a IH]; simpl; [reflexivity | now rewrite IH]. Qed.

Lemma colonFree_append (a b : string) :
  colonFree (a ++ b) = colonFree a && colonFree b.
Proof.
  induction a as [|c a IH]; simpl; [reflexivity|].
  rewrite IH. now rewrite andb_assoc.
Qed.

Lemma split_nonempty (s : string) : split colon s <> [].
Proof.
  induction s as [|c s IH]; simpl; [discriminate|].
  destruct (Ascii.eqb c colon); [discriminate|].
  destruct (split colon s); [contradiction | discriminate].
Qed.

(** A colon-free field followed by [":"] is the first element of the split. *)
Lemma split_field (f rest : string) :
  colonFree f = true ->
  split colon (f ++ String colon rest) = f :: split colon rest.
Proof.
  induction f as [|c f IH]; simpl; intros Hf.
  - reflexivity.
  - apply andb_true_iff in Hf as [Hc Hf].
    apply negb_true_iff in Hc. rewrite Hc.
    now rewrite (IH Hf).
Qed.

Lemma split_last (f : string) : colonFree f = true -> split colon f = [f].
Proof.
  induction f as [|c f IH]; simpl; intros Hf; [reflexivity|].
  apply andb_true_iff in Hf as [Hc Hf].
  apply negb_true_iff in Hc. rewrite Hc. now rewrite (IH Hf).
Qed.

(** The first element of a split is the text up to the first [":"]. *)
Lemma split_head_length (s : string) f fs :
  split colon s = f :: fs -> (String.length f <= String.length s)%nat.
Proof.
  revert f fs. induction s as [|c s IH]; simpl; intros f fs H.
  - injection H as <- <-. simpl. lia.
  - destruct (Ascii.eqb c colon).
    + injection H as <- <-. simpl. lia.
    + destruct (split colon s) as [|g gs] eqn:E.
      * injection H as <- <-. simpl. lia.
      * injection H as <- <-. simpl. specialize (IH g gs eq_refl). lia.
Qed.

Lemma split_head_colonFree (s : string) f fs :
  split colon s = f :: fs -> colonFree f = true.
Proof.
  revert f fs. induction s as [|c s IH]; simpl; intros f fs H.
  - now injection H as <- <-.
  - destruct (Ascii.eqb c colon) eqn:Ec.
    + now injection H as <- <-.
    + destruct (split colon s) as [|g gs] eqn:E.
      * injection H as <- <-. simpl. now rewrite Ec.
      * injection H as <- <-. simpl. rewrite Ec. simpl. eapply IH; eauto.
Qed.

(** Splitting leaves a colon-free text whole, and otherwise cuts strictly
    inside it. *)
Lemma split_head_cases (s : string) f fs :
  split colon s = f :: fs ->
  (fs = [] /\ f = s) \/
  (exists rest, s = f ++ String colon rest /\ fs = split colon rest).
Proof.
  revert f fs. induction s as [|c s IH]; simpl; intros f fs H.
  - injection H as <- <-. now left.
  - destruct (Ascii.eqb c colon) eqn:Ec.
    + injection H as <- <-. right. exists s.
      apply Ascii.eqb_eq in Ec. subst c. now split.
    + destruct (split colon s) as [|g gs] eqn:E.
      * now apply split_nonempty in E.
      * injection H as <- <-.
        destruct (IH g gs eq_refl) as [[-> ->] | (rest & -> & ->)].
        -- now left.
        -- right. exists rest. now split.
Qed.

Lemma append_colon_inj (a b x y : string) :
  colonFree a = true -> colonFree b = true ->
  a ++ String colon x = b ++ String colon y -> a = b /\ x = y.
Proof.
  revert b. induction a as [|c a IH]; intros [|d b] Ha Hb H; simpl in *.
  - injection H as ->. now split.
  - injection H as <- _. now rewrite Ascii.eqb_refl in Hb.
  - injection H as -> _. now rewrite Ascii.eqb_refl in Ha.
  - injection H as -> H.
    apply andb_true_iff in Ha as [_ Ha]. apply andb_true_iff in Hb as [_ Hb].
    destruct (IH b Ha Hb H) as [-> ->]. now split.
Qed.

Lemma append_inj_l (k a b : string) : k ++ a = k ++ b -> a = b.
Proof.
  induction k as [|c k IH]; simpl; intros H; [exact H|].
  injection H as H. now apply IH.
Qed.

Lemma truthy_Some (s : string) : s <> EmptyString -> truthy (Some s) = true.
Proof.
  intros H. simpl. apply negb_true_iff. now apply String.eqb_neq.
Qed.

End JsFacts.

(* ===================================================================== *)
(** * The protocol codec *)
(* ===================================================================== *)

Section CodecFacts.
Import Js Codec Assumptions.
Context (P : Primitives).

Lemma prefix_length3 (p v rest : string) :
  String.length p = 3%nat -> String.length v = 3%nat ->
  String.prefix p (v ++ rest) = String.eqb p v.
Proof.
  destruct p as [|p0 [|p1 [|p2 [|]]]]; try discriminate.
  destruct v as [|v0 [|v1 [|v2 [|]]]]; try discriminate.
  intros _ _. simpl.
  destruct (ascii_dec p0 v0) as [->|n0].
  - rewrite Ascii.eqb_refl. destruct (ascii_dec p1 v1) as [->|n1].
    + rewrite Ascii.eqb_refl. destruct (ascii_dec p2 v2) as [->|n2].
      * rewrite Ascii.eqb_refl. now destruct rest.
      * apply Ascii.eqb_neq in n2. now rewrite n2.
    + apply Ascii.eqb_neq in n1. now rewrite n1.
  - apply Ascii.eqb_neq in n0. now rewrite n0.
Qed.


Lemma split_envelope (v h u iv ct : string) (rest : option string) :
  colonFree v = true -> colonFree h = true -> colonFree u = true ->
  colonFree iv = true -> colonFree ct = true ->
  split colon (envelope v h u iv ct rest)
  = ([v; h; u; iv; ct] ++ match rest with
                          | Some r => split colon r
                          | None => []
                          end)%list.
Proof.
  intros Hv Hh Hu Hiv Hct. unfold envelope.
  rewrite !split_field by assumption.
  destruct rest as [r|]; simpl.
  - now rewrite split_field.
  - rewrite append_empty_r. now rewrite split_last.
Qed.

(** What [encryptionComponentsFromString] reads off an envelope whose
    version is not ["001"]: the first five fields, whatever follows. *)
Lemma components_envelope (v h u iv ct : string) (rest : option string)
  (ek ak : string) :
  String.length v = 3%nat -> v <> "001" ->
  colonFree v = true -> colonFree h = true -> colonFree u = true ->
  colonFree iv = true -> colonFree ct = true ->
  let c := encryptionComponentsFromString (envelope v h u iv ct rest) ek ak in
  c_authHash c = Some h /\ c_uuid c = Some u /\ c_iv c = Some iv /\
  contentCiphertext c = Some ct /\
  ciphertextToAuth c = join ":" [Some v; Some u; Some iv; Some ct] /\
  encryptionKey c = ek /\ authKey c = ak.
Proof.
  intros Hlen Hne Hv Hh Hu Hiv Hct c. subst c.
  unfold encryptionComponentsFromString.
  assert (Hsub : substring (envelope v h u iv ct rest) 0 3 = v).
  { unfold envelope. rewrite <- Hlen. apply substring_take. }
  rewrite Hsub.
  destruct (String.eqb v "001") eqn:E; [apply String.eqb_eq in E; contradiction|].
  rewrite split_envelope by assumption. simpl. repeat split; reflexivity.
Qed.

Context (L : Laws P).

Lemma join4 (v u iv ct : string) :
  join ":" [Some v; Some u; Some iv; Some ct]
  = v ++ String colon (u ++ String colon (iv ++ String colon ct)).
Proof. reflexivity. Qed.

(** [decryptText] on an envelope whose hash is the HMAC of its own
    [version:uuid:iv:ciphertext] under the auth key. *)
Lemma decryptText_authentic (v u iv text : string) (rest : option string)
  (ek ak : string) (requiresAuth : bool) :
  String.length v = 3%nat -> v <> "001" ->
  colonFree v = true -> colonFree u = true -> colonFree iv = true ->
  let ct := encryptText P text ek (Some iv) in
  let h := hmac256 P (join ":" [Some v; Some u; Some iv; Some ct]) ak in
  decryptText P
    (encryptionComponentsFromString (envelope v h u iv ct rest) ek ak)
    requiresAuth
  = DText text.
Proof.
  intros Hlen Hne Hv Hu Hiv ct h.
  assert (Hct : colonFree ct = true) by apply (aes_colonFree P L).
  assert (Hh : colonFree h = true) by apply (hmac_colonFree P L).
  destruct (components_envelope v h u iv ct rest ek ak Hlen Hne Hv Hh Hu Hiv Hct)
    as (E1 & E2 & E3 & E4 & E5 & E6 & E7).
  unfold decryptText. rewrite E1, E3, E4, E5, E6, E7.
  assert (Ht : truthy (Some h) = true).
  { apply truthy_Some. apply (hmac_nonempty P L). }
  rewrite Ht. rewrite andb_false_r. simpl orEmpty.
  fold h. rewrite String.eqb_refl. simpl.
  unfold ct, encryptText. simpl orEmpty. now rewrite (aes_inverse P L).
Qed.


(** [readAuthParams] only ever writes [auth_params]. *)
Lemma readAuthParams_fields (c : Components) (item : SFItem) :
  let item1 := readAuthParams P c item in
  uuid item1 = uuid item /\ content item1 = content item /\
  auth_hash item1 = auth_hash item /\
  enc_item_key item1 = enc_item_key item /\
  errorDecrypting item1 = errorDecrypting item /\
  errorDecryptingValueChanged item1 = errorDecryptingValueChanged item.
Proof.
  unfold readAuthParams.
  destruct (base64Decode P _) as [d|]; [destruct (JSON_parse P d)|];
    simpl; repeat split; reflexivity.
Qed.

Lemma uuidMismatch_same (c : Components) (item : SFItem) :
  c_uuid c = Some (uuid item) -> uuidMismatch c item = false.
Proof.
  intros E. unfold uuidMismatch. rewrite E. simpl.
  rewrite String.eqb_refl. now rewrite andb_false_r.
Qed.




(** The key stage of [decryptItem] on a ["002"]/["003"] key envelope made
    under the user's keys. *)
Lemma decryptItem_key_authentic (item : SFItem) (keys : Keys)
  (text item_key vk ivk : string) (rest : option string) :
  content item = VStr text -> startsWith text "000" = false ->
  vk = "002" \/ vk = "003" ->
  colonFree (uuid item) = true -> colonFree ivk = true ->
  item_key <> EmptyString ->
  let ctk := encryptText P item_key (mk keys) (Some ivk) in
  let hk := hmac256 P (join ":" [Some vk; Some (uuid item); Some ivk; Some ctk])
              (ak keys) in
  enc_item_key item = Some (envelope vk hk (uuid item) ivk ctk rest) ->
  decryptItem P item keys = decryptContent P item text item_key.
Proof.
  intros Hc H000 Hvk Hu Hivk Hkey ctk hk Hek.
  assert (Hv : String.length vk = 3%nat /\ vk <> "001" /\ colonFree vk = true).
  { destruct Hvk as [-> | ->]; repeat split; discriminate. }
  destruct Hv as (Hlen & Hne & Hcf).
  unfold decryptItem. rewrite Hc, H000, Hek.
  set (env := envelope vk hk (uuid item) ivk ctk rest).
  assert (Htr : truthy (Some env) = true).
  { apply truthy_Some. unfold env, envelope.
    destruct Hvk as [-> | ->]; discriminate. }
  rewrite Htr. simpl negb. cbv iota. simpl orEmpty.
  assert (Hleg : isLegacyKey env = false).
  { unfold isLegacyKey, env, envelope. destruct Hvk as [-> | ->]; reflexivity. }
  rewrite Hleg. cbv iota. simpl negb.
  assert (Hct : colonFree ctk = true) by apply (aes_colonFree P L).
  assert (Hh : colonFree hk = true) by apply (hmac_colonFree P L).
  destruct (components_envelope vk hk (uuid item) ivk ctk rest (mk keys) (ak keys)
              Hlen Hne Hcf Hh Hu Hivk Hct) as (_ & E2 & _).
  fold env in E2. rewrite uuidMismatch_same by exact E2.
  unfold env, hk, ctk. rewrite decryptText_authentic by assumption.
  apply String.eqb_neq in Hkey. now rewrite Hkey.
Qed.








(** C10.  An item whose content string begins with the 000 sentinel is
    never authenticated: whatever the keys, the encrypted item key and the
    auth hash are, [decryptItem] replaces the content by the parsed value
    when the remainder base64-decodes and parses as JSON, returns the item
    unchanged otherwise, and leaves [errorDecrypting] and
    [errorDecryptingValueChanged] as they were in both cases. *)
Theorem C10_plaintext_sentinel (item : SFItem) (keys : Keys) (rest : string) :
  let sealed := set_content (VStr ("000" ++ rest)) item in
  decryptItem P sealed keys
  = (match base64Decode P rest with
     | Some decoded =>
         match JSON_parse P decoded with
         | Some parsed => set_content parsed sealed
         | None => sealed
         end
     | None => sealed
     end, Returned)
  /\ errorDecrypting (fst (decryptItem P sealed keys)) = errorDecrypting item
  /\ errorDecryptingValueChanged (fst (decryptItem P sealed keys))
     = errorDecryptingValueChanged item.
Proof.
  intros sealed.
  assert (E : decryptItem P sealed keys
              = (match base64Decode P rest with
                 | Some decoded =>
                     match JSON_parse P decoded with
                     | Some parsed => set_content parsed sealed
                     | None => sealed
                     end
                 | None => sealed
                 end, Returned)).
  { unfold decryptItem.
    change (content sealed) with (VStr ("000" ++ rest)). cbv beta iota.
    assert (H0 : startsWith ("000" ++ rest) "000" = true).
    { unfold startsWith. simpl. now destruct rest. }
    rewrite H0.
    replace (substring ("000" ++ rest) 3 (String.length ("000" ++ rest)))
      with rest by (symmetry; exact (substring_drop "000" rest)).
    destruct (base64Decode P rest) as [d|]; [|reflexivity].
    now destruct (JSON_parse P d). }
  rewrite E. split; [reflexivity|].
  destruct (base64Decode P rest) as [d|]; [destruct (JSON_parse P d)|];
    split; reflexivity.
Qed.

(** C7.  For version 003 and a present identifier,
    [computeEncryptionKeysForUser] returns exactly the keys the
    specification describes: SHA-256 of identifier:SF:version:cost:nonce as
    the salt, PBKDF2-HMAC-SHA512 with [pw_cost] iterations and 768 bits of
    output, cut into [pw], [mk], [ak]; the three keys have 64 hex digits
    (256 bits) each and together make up the whole output. *)
Theorem C7_key_derivation (password id : string) (authParams : AuthParams) :
  version authParams = "003" ->
  identifier authParams = Some id -> id <> EmptyString ->
  let keys :=
    specifiedKeys003 P id password (version authParams) (pw_cost authParams)
      (orEmpty (pw_nonce authParams)) in
  computeEncryptionKeysForUser P password authParams = Some keys
  /\ String.length (pw keys) = 64%nat /\ String.length (mk keys) = 64%nat
  /\ String.length (ak keys) = 64%nat
  /\ pw keys ++ mk keys ++ ak keys
     = pbkdf2 P password
         (generateSalt P id (version authParams) (pw_cost authParams)
            (pw_nonce authParams))
         (pw_cost authParams) 768.
Proof.
  intros Hv Hid Hne keys.
  assert (Hsalt : generateSalt P id (version authParams) (pw_cost authParams)
                    (pw_nonce authParams)
                  = SHA256 P (id ++ ":" ++ "SF" ++ ":" ++ version authParams
                              ++ ":" ++ numberToString (pw_cost authParams)
                              ++ ":" ++ orEmpty (pw_nonce authParams))).
  { unfold generateSalt, sha256, join. simpl.
    destruct (pw_nonce authParams); reflexivity. }
  set (salt := generateSalt P id (version authParams) (pw_cost authParams)
                 (pw_nonce authParams)) in *.
  set (output := pbkdf2 P password salt (pw_cost authParams) 768).
  assert (Hlen : String.length output = 192%nat).
  { unfold output, pbkdf2. now rewrite (pbkdf2_length P L). }
  assert (Hkeys : keys = {| pw := String.substring 0 64 output;
                            mk := String.substring 64 64 output;
                            ak := String.substring 128 64 output |}).
  { unfold keys, specifiedKeys003. now rewrite <- Hsalt. }
  split.
  - unfold computeEncryptionKeysForUser. rewrite Hv at 1. simpl String.eqb.
    cbv iota. rewrite Hid. rewrite truthy_Some by exact Hne.
    simpl negb. cbv iota. simpl orEmpty. fold salt.
    unfold generateSymmetricKeyPair, DefaultPBKDF2Length. simpl orEmpty.
    fold output. rewrite Hlen. rewrite Hkeys. reflexivity.
  - rewrite Hkeys. simpl pw. simpl mk. simpl ak.
    rewrite !substring_length by (rewrite Hlen; lia).
    repeat split; try reflexivity.
    pose proof (substring_append 64 64 64 output) as E1.
    pose proof (substring_append 0 64 128 output) as E2.
    simpl Nat.add in E1, E2. rewrite E1, E2.
    rewrite <- Hlen. apply substring_all.
Qed.


Lemma uuidMismatch_readAuthParams (c c' : Components) (item : SFItem) :
  uuidMismatch c (readAuthParams P c' item) = uuidMismatch c item.
Proof.
  unfold uuidMismatch.
  now destruct (readAuthParams_fields c' item) as (-> & _).
Qed.

(** The content stage rejects an envelope whose UUID field differs from
    the item's or whose hash is not the HMAC of what it claims to cover. *)
Lemma decryptContent_rejected (item : SFItem) (item_key text h : string) :
  let c := encryptionComponentsFromString text (firstHalfOfKey item_key)
             (secondHalfOfKey item_key) in
  c_authHash c = Some h -> h <> EmptyString ->
  uuidMismatch c item = true
    \/ hmac256 P (ciphertextToAuth c) (authKey c) <> h ->
  decryptContent P item text item_key
  = (markErrorDecrypting (readAuthParams P c item), Returned).
Proof.
  intros c Hh Hne Hbad. unfold decryptContent. fold c.
  rewrite uuidMismatch_readAuthParams.
  destruct (uuidMismatch c item) eqn:Em; [reflexivity|].
  destruct Hbad as [Hbad | Hbad]; [discriminate Hbad|].
  rewrite Hh, truthy_Some by exact Hne. simpl negb. cbv iota.
  unfold decryptText. rewrite Hh, truthy_Some by exact Hne.
  simpl andb. cbv iota. simpl orEmpty.
  destruct (String.eqb h (hmac256 P (ciphertextToAuth c) (authKey c))) eqn:E.
  - apply String.eqb_eq in E. now symmetry in E.
  - reflexivity.
Qed.




(* ---------------- tampering ---------------- *)

Lemma flipAscii_neq (bit : nat) (c : ascii) : flipAscii bit c <> c.
Proof.
  destruct c as [b0 b1 b2 b3 b4 b5 b6 b7].
  do 7 (destruct bit as [|bit];
        [simpl; intros H; injection H; intros;
         repeat match goal with
                | E : negb ?b = ?b |- _ => now destruct b
                end|]).
  simpl. intros H. injection H. intros. now destruct b7.
Qed.

Lemma flipBit_length (index bit : nat) (s : string) :
  String.length (flipBit index bit s) = String.length s.
Proof.
  revert index. induction s as [|c s IH]; intros [|index]; simpl; auto.
Qed.

Lemma flipBit_neq (index bit : nat) (s : string) :
  (index < String.length s)%nat -> flipBit index bit s <> s.
Proof.
  revert index. induction s as [|c s IH]; intros [|index] H; simpl in *;
    try lia.
  - intros E. injection E as E. now apply flipAscii_neq in E.
  - intros E. injection E as E. apply (IH index); [lia | exact E].
Qed.

Lemma append_same_length (a b x y : string) :
  String.length a = String.length b -> a ++ x = b ++ y -> a = b.
Proof.
  revert b. induction a as [|c a IH]; intros [|d b] Hl H; simpl in *;
    try discriminate; [reflexivity|].
  injection H as -> H. f_equal. apply IH; [lia | exact H].
Qed.

(** The text up to the first separator is a field of its own. *)
Lemma split_first (a rest : string) :
  exists p r, split colon (a ++ String colon rest) = p :: split colon r
              /\ a ++ String colon rest = p ++ String colon r
              /\ colonFree p = true.
Proof.
  destruct (split colon (a ++ String colon rest)) as [|p q] eqn:E.
  { now apply split_nonempty in E. }
  pose proof (split_head_colonFree _ _ _ E) as Hp.
  destruct (split_head_cases _ _ _ E) as [[-> Hpa] | (r & Hr & ->)].
  - subst p. rewrite colonFree_append in Hp. simpl in Hp.
    now rewrite andb_false_r in Hp.
  - exists p, r. now repeat split.
Qed.

Lemma split_head_exists (s : string) : exists p q, split colon s = p :: q.
Proof.
  destruct (split colon s) as [|p q] eqn:E;
    [now apply split_nonempty in E | eauto].
Qed.

(** What [encryptionComponentsFromString] reads when version and hash are
    in place. *)
Lemma components_prefix (v h body ek ak : string) :
  String.length v = 3%nat -> v <> "001" ->
  colonFree v = true -> colonFree h = true ->
  let c := encryptionComponentsFromString
             (v ++ String colon (h ++ String colon body)) ek ak in
  let l := split colon body in
  c_authHash c = Some h /\ c_uuid c = l !! 0%nat /\
  ciphertextToAuth c = join ":" [Some v; l !! 0%nat; l !! 1%nat; l !! 2%nat] /\
  authKey c = ak.
Proof.
  intros Hlen Hne Hv Hh c l. subst c l.
  unfold encryptionComponentsFromString.
  assert (Hsub : substring (v ++ String colon (h ++ String colon body)) 0 3 = v).
  { rewrite <- Hlen. apply substring_take. }
  rewrite Hsub.
  destruct (String.eqb v "001") eqn:E; [apply String.eqb_eq in E; contradiction|].
  rewrite !split_field by assumption. simpl. repeat split; reflexivity.
Qed.

(** Changing the UUID, the IV or the ciphertext of an envelope, without
    changing its length, changes the UUID the envelope shows or the text
    its hash is checked against. *)
Lemma tampered_components (f : AuthenticatedField) (field' : string)
  (v h u iv ct aps ek ak : string) :
  String.length v = 3%nat -> v <> "001" ->
  colonFree v = true -> colonFree h = true -> colonFree u = true ->
  colonFree iv = true -> colonFree ct = true ->
  let field := match f with
               | UuidField => u | IvField => iv | CiphertextField => ct
               end in
  String.length field' = String.length field -> field' <> field ->
  let body :=
    match f with
    | UuidField =>
        field' ++ String colon (iv ++ String colon (ct ++ String colon aps))
    | IvField =>
        u ++ String colon (field' ++ String colon (ct ++ String colon aps))
    | CiphertextField =>
        u ++ String colon (iv ++ String colon (field' ++ String colon aps))
    end in
  let c := encryptionComponentsFromString
             (v ++ String colon (h ++ String colon body)) ek ak in
  c_authHash c = Some h /\ authKey c = ak /\
  ((exists p, c_uuid c = Some p /\ p <> EmptyString /\ p <> u)
   \/ ciphertextToAuth c <> join ":" [Some v; Some u; Some iv; Some ct]).
Proof.
  intros Hlen Hne Hv Hh Hu Hiv Hct field Hl Hd body c.
  destruct (components_prefix v h body ek ak Hlen Hne Hv Hh)
    as (E1 & E2 & E3 & E4).
  fold c in E1, E2, E3, E4. split; [exact E1|]. split; [exact E4|].
  rewrite E2, E3. rewrite join4. clear E1 E2 E3 E4 c.
  destruct f; subst field body.
  - (* the UUID field *)
    destruct (split_first field' (iv ++ String colon (ct ++ String colon aps)))
      as (p & r & Es & Ea & Hp).
    rewrite Es. simpl.
    assert (Hpu : p <> u).
    { intros ->. apply Hd. eapply append_same_length; eauto. }
    destruct (string_dec p EmptyString) as [-> | Hpe].
    + right. unfold join. simpl. intros E. apply append_inj_l in E.
      injection E as E.
      destruct u as [|c0 u']; [now apply Hd; destruct field'|].
      simpl in E. injection E as E _. subst c0. simpl in Hu.
      discriminate Hu.
    + left. exists p. now repeat split.
  - (* the IV field *)
    right. rewrite split_field by exact Hu.
    destruct (split_first field' (ct ++ String colon aps))
      as (p & r & Es & Ea & Hp).
    rewrite Es. destruct (split_head_exists r) as (p4 & q & Er). rewrite Er.
    unfold join. simpl. intros E.
    apply append_inj_l in E. injection E as E.
    apply append_inj_l in E. injection E as E.
    assert (Hpiv : p = iv).
    { destruct (append_colon_inj p iv p4 ct Hp Hiv) as [-> _]; auto. }
    subst p. apply Hd. eapply append_same_length; eauto.
  - (* the ciphertext field *)
    right. rewrite split_field by exact Hu. rewrite split_field by exact Hiv.
    destruct (split_first field' aps) as (p & r & Es & Ea & Hp).
    rewrite Es. unfold join. simpl. intros E.
    apply append_inj_l in E. injection E as E.
    apply append_inj_l in E. injection E as E.
    apply append_inj_l in E. injection E as E.
    subst p. apply Hd. eapply append_same_length; eauto.
Qed.


Lemma tamper_envelope (f : AuthenticatedField) (index bit : nat)
  (v h u iv ct aps : string) :
  colonFree v = true -> colonFree h = true -> colonFree u = true ->
  colonFree iv = true -> colonFree ct = true -> colonFree aps = true ->
  tamper f index bit (envelope v h u iv ct (Some aps))
  = v ++ String colon (h ++ String colon
      match f with
      | UuidField =>
          flipBit index bit u
          ++ String colon (iv ++ String colon (ct ++ String colon aps))
      | IvField =>
          u ++ String colon (flipBit index bit iv
          ++ String colon (ct ++ String colon aps))
      | CiphertextField =>
          u ++ String colon (iv ++ String colon (flipBit index bit ct
          ++ String colon aps))
      end).
Proof.
  intros Hv Hh Hu Hiv Hct Haps. unfold tamper.
  rewrite split_envelope by assumption. rewrite split_last by exact Haps.
  destruct f; reflexivity.
Qed.

(** C2 (as amended).  Take an item whose encrypted item key opens and whose
    content is a 002 or 003 envelope with a valid hash, and flip any one
    bit of the envelope's UUID, IV or ciphertext field.  Unless the text
    that the tampered envelope is authenticated by has the same HMAC, under
    the item's authentication key, as the text of the original envelope
    (the one collision that would go unnoticed), [decryptItem] returns
    without a plaintext: the item is marked [errorDecrypting], its content
    is the envelope it had, and [errorDecryptingValueChanged] is raised if
    the item was not already marked [errorDecrypting] (it keeps its value
    otherwise).  Nothing is assumed of the HMAC on other messages. *)
Theorem C2_tampering_detected (item : SFItem) (keys : Keys)
  (item_key vk ivk : string) (restk : option string)
  (v iv plain aps : string) (f : AuthenticatedField) (index bit : nat) :
  vk = "002" \/ vk = "003" ->
  colonFree (uuid item) = true -> colonFree ivk = true ->
  item_key <> EmptyString ->
  let ctk := encryptText P item_key (mk keys) (Some ivk) in
  let hk := hmac256 P (join ":" [Some vk; Some (uuid item); Some ivk; Some ctk])
              (ak keys) in
  enc_item_key item = Some (envelope vk hk (uuid item) ivk ctk restk) ->
  v = "002" \/ v = "003" ->
  colonFree iv = true -> colonFree aps = true ->
  let ek := firstHalfOfKey item_key in
  let ak := secondHalfOfKey item_key in
  let ct := encryptText P plain ek (Some iv) in
  let h := hmac256 P (join ":" [Some v; Some (uuid item); Some iv; Some ct]) ak in
  let original := envelope v h (uuid item) iv ct (Some aps) in
  let field := match f with
               | UuidField => uuid item
               | IvField => iv
               | CiphertextField => ct
               end in
  (index < String.length field)%nat ->
  content item = VStr (tamper f index bit original) ->
  (let toAuth :=
     ciphertextToAuth
       (encryptionComponentsFromString (tamper f index bit original) ek ak) in
   toAuth <> join ":" [Some v; Some (uuid item); Some iv; Some ct] ->
   hmac256 P toAuth ak <> h) ->
  let result := decryptItem P item keys in
  snd result = Returned /\
  errorDecrypting (fst result) = true /\
  content (fst result) = content item /\
  errorDecryptingValueChanged (fst result)
  = negb (errorDecrypting item) || errorDecryptingValueChanged item.
Proof.
  intros Hvk Hu Hivk Hkey ctk hk Hek Hv Hiv Haps ek ak ct h original field
         Hidx Hc Hnc result.
  assert (Hv3 : String.length v = 3%nat /\ v <> "001" /\ colonFree v = true).
  { destruct Hv as [-> | ->]; repeat split; discriminate. }
  destruct Hv3 as (Hlen & Hne & Hcf).
  assert (Hct : colonFree ct = true) by apply (aes_colonFree P L).
  assert (Hh : colonFree h = true) by apply (hmac_colonFree P L).
  unfold original in Hc, Hnc.
  rewrite tamper_envelope in Hc, Hnc by assumption.
  set (field' := flipBit index bit field).
  set (body := match f with
               | UuidField => _ | IvField => _ | CiphertextField => _
               end) in Hc, Hnc.
  set (text := v ++ String colon (h ++ String colon body)) in Hc, Hnc.
  cbv zeta in Hnc.
  assert (E : result
              = (markErrorDecrypting
                   (readAuthParams P (encryptionComponentsFromString text ek ak)
                      item), Returned)).
  { subst result.
    rewrite (decryptItem_key_authentic item keys text item_key vk ivk restk);
      try assumption.
    - destruct (tampered_components f field' v h (uuid item) iv ct aps ek ak
                  Hlen Hne Hcf Hh Hu Hiv Hct) as (E1 & E2 & Hbad).
      + unfold field'. destruct f; apply flipBit_length.
      + unfold field'. destruct f; now apply flipBit_neq.
      + assert (Hbody : body
                  = match f with
                    | UuidField =>
                        field' ++ String colon
                          (iv ++ String colon (ct ++ String colon aps))
                    | IvField =>
                        uuid item ++ String colon
                          (field' ++ String colon (ct ++ String colon aps))
                    | CiphertextField =>
                        uuid item ++ String colon
                          (iv ++ String colon (field' ++ String colon aps))
                    end).
        { unfold body, field', field. now destruct f. }
        rewrite <- Hbody in E1, E2, Hbad. fold text in E1, E2, Hbad.
        apply (decryptContent_rejected item item_key text h).
        * exact E1.
        * apply (hmac_nonempty P L).
        * destruct Hbad as [(p & Ep & Hpe & Hpu) | Hbad].
          -- left. unfold uuidMismatch. fold ek ak. rewrite Ep.
             rewrite truthy_Some by exact Hpe. simpl.
             apply negb_true_iff. now apply String.eqb_neq.
          -- right. fold ek ak. rewrite E2. exact (Hnc Hbad).
    - unfold startsWith, text. destruct Hv as [-> | ->]; reflexivity. }
  rewrite E. simpl fst. simpl snd.
  set (c := encryptionComponentsFromString text ek ak).
  destruct (readAuthParams_fields c item) as (_ & Ec & _ & _ & Ee & Ev).
  unfold markErrorDecrypting. rewrite Ee.
  destruct (errorDecrypting item); simpl; repeat split; auto.
Qed.

End CodecFacts.

(* ===================================================================== *)
(** * The sample instance satisfies the assumptions *)
(* ===================================================================== *)

Section SampleFacts.
Import Js Codec Assumptions Sample.

Lemma dec3c_enc3c (c : ascii) :
  match enc3c c with
  | String x (String y (String z EmptyString)) => dec3c x y z = Some c
  | _ => False
  end.
Proof. destruct c as [[] [] [] [] [] [] [] []]; vm_compute; reflexivity. Qed.

Lemma enc3c_colonFree (c : ascii) : colonFree (enc3c c) = true.
Proof. destruct c as [[] [] [] [] [] [] [] []]; vm_compute; reflexivity. Qed.

Lemma dec3_enc3 (s : string) : dec3 (enc3 s) = Some s.
Proof.
  induction s as [|c s IH]; [reflexivity|].
  pose proof (dec3c_enc3c c) as H.
  change (enc3 (String c s)) with (enc3c c ++ enc3 s).
  destruct (enc3c c) as [|x [|y [|z [|? ?]]]]; try contradiction.
  change (dec3 (String x (String y (String z EmptyString)) ++ enc3 s))
    with (match dec3c x y z, dec3 (enc3 s) with
          | Some ch, Some r => Some (String ch r)
          | _, _ => None
          end).
  now rewrite H, IH.
Qed.

Lemma enc3_colonFree (s : string) : colonFree (enc3 s) = true.
Proof.
  induction s as [|c s IH]; [reflexivity|].
  change (enc3 (String c s)) with (enc3c c ++ enc3 s).
  now rewrite colonFree_append, enc3c_colonFree, IH.
Qed.

Lemma enc3_inj (a b : string) : enc3 a = enc3 b -> a = b.
Proof.
  intros H. apply (f_equal dec3) in H. rewrite !dec3_enc3 in H.
  now injection H.
Qed.

Lemma unshift_shift (k : nat) (c : ascii) : unshift k (shift k c) = c.
Proof.
  unfold unshift, shift.
  pose proof (nat_ascii_bounded c) as Hc.
  assert (Hj : (k mod 256 < 256)%nat) by (apply Nat.mod_upper_bound; lia).
  set (n := nat_of_ascii c) in *. set (j := (k mod 256)%nat) in *.
  rewrite nat_ascii_embedding by (apply Nat.mod_upper_bound; lia).
  assert (E : (((n + j) mod 256 + (256 - j)) mod 256 = n)%nat).
  { destruct (Nat.lt_ge_cases (n + j) 256) as [Hlt | Hge].
    - rewrite (Nat.mod_small (n + j)) by lia.
      replace (n + j + (256 - j))%nat with (n + 1 * 256)%nat by lia.
      rewrite Nat.Div0.mod_add. apply Nat.mod_small. lia.
    - replace (n + j)%nat with ((n + j - 256) + 1 * 256)%nat by lia.
      rewrite Nat.Div0.mod_add. rewrite (Nat.mod_small (n + j - 256)) by lia.
      replace (n + j - 256 + (256 - j))%nat with n by lia.
      apply Nat.mod_small. lia. }
  rewrite E. apply ascii_nat_embedding.
Qed.

Lemma mapChars_unshift_shift (k : nat) (s : string) :
  mapChars (unshift k) (mapChars (shift k) s) = s.
Proof.
  induction s as [|c s IH]; simpl; [reflexivity|].
  now rewrite unshift_shift, IH.
Qed.

Lemma cycle_length (n : nat) (src cur : string) :
  String.length (cycle n src cur) = n.
Proof.
  revert cur. induction n as [|n IH]; intros cur; [reflexivity|].
  simpl. destruct cur as [|c rest]; [destruct src as [|c rest]|];
    simpl; now rewrite IH.
Qed.

Lemma cycle_colonFree (n : nat) (src cur : string) :
  colonFree src = true -> colonFree cur = true ->
  colonFree (cycle n src cur) = true.
Proof.
  intros Hsrc. revert cur. induction n as [|n IH]; intros cur Hcur;
    [reflexivity|].
  simpl. destruct cur as [|c rest].
  - destruct src as [|c rest]; simpl.
    + now apply IH.
    + simpl in Hsrc. apply andb_true_iff in Hsrc as [Hc Hrest].
      rewrite Hc. simpl. now apply IH.
  - simpl in Hcur. apply andb_true_iff in Hcur as [Hc Hrest].
    simpl. rewrite Hc. simpl. now apply IH.
Qed.

Lemma string_of_uint_colonFree (d : Decimal.uint) :
  colonFree (NilEmpty.string_of_uint d) = true.
Proof. induction d; simpl; auto. Qed.

Lemma printValue_nonempty (v : jsval) : printValue v <> EmptyString.
Proof.
  destruct v as [| |[|]|z|s|l|fields]; simpl; try discriminate.
  destruct (Z.to_int z) as [d|d]; simpl; [|discriminate].
  destruct d; simpl; discriminate.
Qed.

(** The sample functions have every property the codec assumes. *)
Lemma sample_laws : Laws primitives.
Proof.
  constructor; simpl.
  - intros text key iv. unfold shiftDecrypt, shiftEncrypt.
    rewrite dec3_enc3. now rewrite mapChars_unshift_shift.
  - intros. apply enc3_colonFree.
  - intros. unfold tag. simpl. apply enc3_colonFree.
  - intros. apply enc3_colonFree.
  - intros bits g. unfold counterRandom. simpl.
    apply cycle_colonFree; apply string_of_uint_colonFree.
  - intros. unfold tag. discriminate.
  - intros text key iv H. unfold shiftEncrypt.
    destruct text as [|c rest]; [contradiction|].
    change (mapChars ?f (String c rest)) with (String (f c) (mapChars f rest)).
    intros E. apply (f_equal dec3) in E. rewrite dec3_enc3 in E.
    discriminate E.
  - intros. unfold stretch. apply cycle_length.
  - intros v _. apply printValue_nonempty.
  - intros text. unfold parseValue.
    destruct (String.eqb text "{}"); discriminate.
Qed.


End SampleFacts.

(* ===================================================================== *)
(** * The codec on the sample instance *)
(* ===================================================================== *)

Section CodecExamples.
Import Js Codec Assumptions Sample.




(** Flipping the lowest bit of the first IV character of a 003 envelope,
    on an item that was not flagged before. *)
Lemma C2_tampering_detected_witness :
  let original := contentEnvelope "003" "{}" (Some "cGFyYW1z") in
  let item := received (tamper IvField 0 0 original) false in
  let result := decryptItem primitives item keys in
  content item <> VStr original /\
  snd result = Returned /\
  errorDecrypting (fst result) = true /\
  content (fst result) = content item /\
  errorDecryptingValueChanged (fst result)
  = negb (errorDecrypting item) || errorDecryptingValueChanged item.
Proof.
  split; [vm_compute; discriminate|].
  apply (C2_tampering_detected primitives sample_laws
           (received (tamper IvField 0 0
                        (contentEnvelope "003" "{}" (Some "cGFyYW1z"))) false)
           keys itemKey "003" "7c" None "003" "9a" "{}" "cGFyYW1z"
           IvField 0%nat 0%nat).
  - right. reflexivity.
  - reflexivity.
  - reflexivity.
  - vm_compute. discriminate.
  - reflexivity.
  - right. reflexivity.
  - reflexivity.
  - reflexivity.
  - simpl. lia.
  - reflexivity.
  - cbv zeta. intros _. vm_compute. discriminate.
Defined.

(** C2 as stated fails on an item that is already marked
    [errorDecrypting]: the tampered envelope is rejected, but
    [errorDecryptingValueChanged] is not raised. *)
Lemma C2_counterexample :
  let original := contentEnvelope "003" "{}" (Some "cGFyYW1z") in
  let item := received (tamper IvField 0 0 original) true in
  let result := decryptItem primitives item keys in
  content item <> VStr original /\
  errorDecrypting (fst result) = true /\
  errorDecryptingValueChanged (fst result) = false.
Proof.
  vm_compute. repeat split; try reflexivity. discriminate.
Qed.

Lemma C7_key_derivation_witness :
  let keys :=
    specifiedKeys003 primitives "a@b.c" "secret" "003" 110000 "5f" in
  computeEncryptionKeysForUser primitives "secret" (authParams "003")
  = Some keys
  /\ String.length (pw keys) = 64%nat /\ String.length (mk keys) = 64%nat
  /\ String.length (ak keys) = 64%nat
  /\ pw keys ++ mk keys ++ ak keys
     = pbkdf2 primitives "secret"
         (generateSalt primitives "a@b.c" "003" 110000 (Some "5f"))
         110000 768.
Proof.
  apply (C7_key_derivation primitives sample_laws "secret" "a@b.c"
           (authParams "003")).
  - reflexivity.
  - reflexivity.
  - discriminate.
Defined.



End CodecExamples.

(* ===================================================================== *)
(** * Dirty tracking *)
(* ===================================================================== *)

Section DirtyFacts.
Import Store.
Local Open Scope list_scope.

Lemma heap_update (l : loc) (f : SFItem -> SFItem) (s : State) :
  heap (update l f s) = alter f l (heap s).
Proof. reflexivity. Qed.

Lemma modelManager_update (l : loc) (f : SFItem -> SFItem) (s : State) :
  modelManager (update l f s) = modelManager s.
Proof. reflexivity. Qed.

Lemma lookup_update_eq (l : loc) (f : SFItem -> SFItem) (s : State) :
  heap (update l f s) !! l = f <$> heap s !! l.
Proof. apply list_lookup_alter_eq. Qed.

Lemma lookup_update_ne (l l' : loc) (f : SFItem -> SFItem) (s : State) :
  l <> l' -> heap (update l f s) !! l' = heap s !! l'.
Proof. intros H. now apply list_lookup_alter_ne. Qed.

Lemma length_update (l : loc) (f : SFItem -> SFItem) (s : State) :
  length (heap (update l f s)) = length (heap s).
Proof. apply length_alter. Qed.

Lemma setDirty_item_false_twice (i : SFItem) :
  setDirty_item false (setDirty_item false i) = setDirty_item false i.
Proof. reflexivity. Qed.

(** After [setDirty], the flag and the counter agree. *)
Lemma setDirty_item_agree (flag : bool) (i : SFItem) :
  dirty (setDirty_item flag i) = flag /\
  (flag = true <-> exists n, dirtyCount (setDirty_item flag i) = Some (S n)).
Proof.
  split; [reflexivity|]. unfold setDirty_item. simpl.
  destruct flag; split; intros H; eauto; try discriminate.
  destruct H as [n H]. discriminate H.
Qed.

Lemma clearDirtyItems_modelManager (ls : list loc) (s : State) :
  modelManager (clearDirtyItems ls s) = modelManager s.
Proof.
  revert s. induction ls as [|x ls IH]; intros s; [reflexivity|].
  unfold clearDirtyItems in *. simpl. now rewrite IH.
Qed.

Lemma clearDirtyItems_length (ls : list loc) (s : State) :
  length (heap (clearDirtyItems ls s)) = length (heap s).
Proof.
  revert s. induction ls as [|x ls IH]; intros s; [reflexivity|].
  unfold clearDirtyItems in *. simpl. rewrite IH. apply length_update.
Qed.

Lemma clearDirtyItems_lookup (ls : list loc) (s : State) (l : loc) :
  heap (clearDirtyItems ls s) !! l
  = if existsb (Nat.eqb l) ls
    then setDirty_item false <$> heap s !! l
    else heap s !! l.
Proof.
  revert s. induction ls as [|x ls IH]; intros s; [reflexivity|].
  unfold clearDirtyItems in *. cbn [fold_left existsb]. rewrite IH.
  unfold setDirty.
  destruct (Nat.eqb_spec l x) as [-> | Hne]; cbn [orb].
  - rewrite lookup_update_eq.
    destruct (existsb (Nat.eqb x) ls); [|reflexivity].
    now destruct (heap s !! x).
  - now rewrite lookup_update_ne by congruence.
Qed.

Lemma existsb_eqb_In (l : loc) (ls : list loc) :
  existsb (Nat.eqb l) ls = true <-> In l ls.
Proof.
  rewrite existsb_exists. split.
  - intros (x & Hin & E). apply Nat.eqb_eq in E. now subst.
  - intros H. exists l. split; [exact H | apply Nat.eqb_refl].
Qed.

(** C5.  On a successful response the flag is cleared (by [setDirty(false)])
    on exactly the submitted items whose [dirtyCount] is 0 at that time;
    every other item, in particular a submitted one that was dirtied again
    while the request was in flight, is left as it is, so that it is still
    among the dirty items the next cycle collects. *)
Theorem C5_clear_on_success (s : State) (subItems : list loc) :
  let s' := clearSubmitted subItems s in
  modelManager s' = modelManager s /\
  forall l i, heap s !! l = Some i ->
    (In l subItems -> dirtyCount i = Some O ->
     heap s' !! l = Some (setDirty_item false i)
     /\ dirty (setDirty_item false i) = false) /\
    (~ (In l subItems /\ dirtyCount i = Some O) -> heap s' !! l = Some i) /\
    (forall n, In l subItems -> dirtyCount i = Some (S n) -> dirty i = true ->
     exists i', heap s' !! l = Some i' /\ dirty i' = true) /\
    (In l (getDirtyItems s) -> dirtyCount i <> Some O ->
     In l (getDirtyItems s')).
Proof.
  intros s'.
  assert (Hmm : modelManager s' = modelManager s)
    by apply clearDirtyItems_modelManager.
  assert (Hcleared : forall l i, heap s !! l = Some i ->
            In l subItems -> dirtyCount i = Some O ->
            heap s' !! l = Some (setDirty_item false i)).
  { intros l i Hl Hin Hc. unfold s', clearSubmitted.
    rewrite clearDirtyItems_lookup.
    assert (E : existsb (Nat.eqb l) (itemsToClearAsDirty subItems s) = true).
    { apply existsb_eqb_In. unfold itemsToClearAsDirty.
      apply filter_In. split; [exact Hin|].
      unfold dirtyCountIsZero. now rewrite Hl, Hc. }
    now rewrite E, Hl. }
  assert (Hkept : forall l i, heap s !! l = Some i ->
            ~ (In l subItems /\ dirtyCount i = Some O) ->
            heap s' !! l = Some i).
  { intros l i Hl Hnot. unfold s', clearSubmitted.
    rewrite clearDirtyItems_lookup.
    destruct (existsb (Nat.eqb l) (itemsToClearAsDirty subItems s)) eqn:E;
      [|exact Hl].
    exfalso. apply Hnot. apply existsb_eqb_In in E.
    unfold itemsToClearAsDirty in E. apply filter_In in E as [Hin Hz].
    split; [exact Hin|]. unfold dirtyCountIsZero in Hz. rewrite Hl in Hz.
    now destruct (dirtyCount i) as [[|n]|]. }
  split; [exact Hmm|]. intros l i Hl. repeat split.
  - now apply Hcleared.
  - exact (Hkept l i Hl).
  - intros n Hin Hc Hd. exists i. split; [|exact Hd].
    apply Hkept; [exact Hl|]. intros [_ Hz]. congruence.
  - intros Hin Hc. unfold getDirtyItems in *. rewrite Hmm.
    apply filter_In in Hin as [Hin Hd]. apply filter_In. split; [exact Hin|].
    rewrite (Hkept l i Hl); [now rewrite Hl in Hd|]. intros [_ Hz]. congruence.
Qed.


(** One idempotent change of the same kind applied to a list of items. *)
Lemma updateAll_lookup (f : SFItem -> SFItem) (ls : list loc) (s : State)
  (l : loc) :
  (forall i, f (f i) = f i) ->
  heap (fold_left (fun s x => update x f s) ls s) !! l
  = if existsb (Nat.eqb l) ls then f <$> heap s !! l else heap s !! l.
Proof.
  intros Hf. revert s. induction ls as [|x ls IH]; intros s; [reflexivity|].
  cbn [fold_left existsb]. rewrite IH.
  destruct (Nat.eqb_spec l x) as [-> | Hne]; cbn [orb].
  - rewrite lookup_update_eq.
    destruct (existsb (Nat.eqb x) ls); [|reflexivity].
    destruct (heap s !! x); simpl; [now rewrite Hf | reflexivity].
  - now rewrite lookup_update_ne by congruence.
Qed.

Lemma countImpliesDirty_update (l : loc) (f : SFItem -> SFItem) (s : State) :
  (forall i, countOk i -> countOk (f i)) ->
  countImpliesDirty s -> countImpliesDirty (update l f s).
Proof.
  intros Hf Hs l' i n Hl Hc.
  destruct (Nat.eq_dec l l') as [<- | Hne].
  - rewrite lookup_update_eq in Hl.
    destruct (heap s !! l) as [i0|] eqn:E; [|discriminate Hl].
    injection Hl as <-. apply (Hf i0) with (n := n); [|exact Hc].
    intros m Hm. exact (Hs l i0 m E Hm).
  - rewrite lookup_update_ne in Hl by exact Hne. exact (Hs l' i n Hl Hc).
Qed.

Lemma countImpliesDirty_updateAll (f : SFItem -> SFItem) (ls : list loc)
  (s : State) :
  (forall i, countOk i -> countOk (f i)) ->
  countImpliesDirty s ->
  countImpliesDirty (fold_left (fun s x => update x f s) ls s).
Proof.
  intros Hf. revert s. induction ls as [|x ls IH]; intros s Hs; [exact Hs|].
  simpl. apply IH. now apply countImpliesDirty_update.
Qed.

Lemma countOk_setDirty (flag : bool) (i : SFItem) :
  countOk (setDirty_item flag i).
Proof.
  intros n H. unfold setDirty_item in *. simpl in *.
  destruct flag; [reflexivity | discriminate H].
Qed.

Lemma countOk_reset (i : SFItem) : countOk (with_dirty (dirty i) (Some O) i).
Proof. intros n H. discriminate H. Qed.

(** What the preparation of a submission leaves behind: every submitted
    item is dirty, with its counter at 0. *)
Lemma prepareSubmission_resets (s : State) (l : loc) :
  In l (fst (prepareSubmission s)) ->
  exists i, heap (snd (prepareSubmission s)) !! l = Some i
            /\ dirty i = true /\ dirtyCount i = Some O.
Proof.
  unfold prepareSubmission. simpl. intros Hin.
  assert (Hd : In l (getDirtyItems s)).
  { apply list_elem_of_In. apply list_elem_of_In in Hin.
    revert Hin. apply subseteq_take. }
  unfold getDirtyItems in Hd. apply filter_In in Hd as [_ Hd].
  destruct (heap s !! l) as [i|] eqn:E; [|discriminate Hd].
  rewrite (updateAll_lookup (fun i => with_dirty (dirty i) (Some O) i))
    by reflexivity.
  apply existsb_eqb_In in Hin. rewrite Hin, E. simpl.
  eexists. split; [reflexivity|]. simpl. split; [|reflexivity].
  unfold isDirtyItem in Hd.
  apply andb_true_iff in Hd as [Hd _]. now apply andb_true_iff in Hd as [Hd _].
Qed.

End DirtyFacts.

(* ===================================================================== *)
(** * Dirty tracking and the mapper on the small stores *)
(* ===================================================================== *)

Section StoreExamples.
Import Store Scenario.
Local Open Scope list_scope.

Lemma waiting_countImpliesDirty : countImpliesDirty waiting.
Proof.
  intros [|[|l]] i n Hl Hc; vm_compute in Hl; try discriminate Hl.
  injection Hl as <-. discriminate Hc.
Qed.

(** C3 as stated fails while a request is in flight: after an edit and the
    start of a sync, the submitted item is dirty with [dirtyCount] 0. *)
Lemma C3_counterexample :
  let st := run [CallSetDirty 0 true; CallSync false] (waiting, idle) in
  syncOpInProgress (snd st) = true /\
  subItemsInFlight (snd st) = [0] /\
  exists i, heap (fst st) !! 0 = Some i
            /\ dirty i = true /\ dirtyCount i = Some O.
Proof.
  vm_compute. repeat split. eexists. repeat split.
Qed.

(** The clearing step after: edit, sync, edit again. *)
Lemma C5_clear_on_success_witness :
  let s :=
    fst (run [CallSetDirty 0 true; CallSync false; CallSetDirty 0 true]
           (waiting, idle)) in
  exists i, heap s !! 0 = Some i /\ dirtyCount i = Some 1 /\
            In 0 (getDirtyItems (clearSubmitted [0] s)).
Proof.
  eexists. split; [vm_compute; reflexivity|]. split; [reflexivity|].
  refine (proj2 (proj2 (proj2
            (proj2 (C5_clear_on_success _ [0]) 0 _ _))) _ _).
  - vm_compute. reflexivity.
  - vm_compute. left. reflexivity.
  - discriminate.
Defined.

(** C4 fails on the code.  With [a] waiting for [b], mapping the batch
    [b, c] pops the missed reference, but attaches [a] to [c], the last
    model of the batch: [b] gets no back-reference, [c] gets one, and [a]
    gets a reference to [c] it never had.  (Mapping [b] alone works.) *)
Theorem C4_missed_reference_goes_to_last_model :
  missedReferences (modelManager waiting)
  = [("b:a"%string, {| reference_uuid := "b"; for_item := 0 |})]
  /\ findItem resolvedInBatch "a" = Some 0
  /\ findItem resolvedInBatch "b" = Some 1
  /\ findItem resolvedInBatch "c" = Some 2
  /\ missedReferences (modelManager resolvedInBatch) = []
  /\ referencingObjectsAt 1 resolvedInBatch = []
  /\ referencingObjectsAt 2 resolvedInBatch = [0]
  /\ (references <$> heap resolvedInBatch !! 0)
     = Some [{| r_uuid := "b"; r_content_type := "Note" |};
             {| r_uuid := "c"; r_content_type := "Note" |}]
  /\ referencingObjectsAt 1 resolvedAlone = [0].
Proof. vm_compute. repeat split. Qed.

End StoreExamples.

(* ===================================================================== *)
(** * The reference graph *)
(* ===================================================================== *)

Section GraphFacts.
Import Store.
Local Open Scope list_scope.

Lemma heapRel_refl (R : SFItem -> SFItem -> Prop) (s : State) :
  (forall i, R i i) -> heapRel R s s.
Proof. intros HR l i Hl. eauto. Qed.

Lemma heapRel_trans (R : SFItem -> SFItem -> Prop) (s1 s2 s3 : State) :
  (forall a b c, R a b -> R b c -> R a c) ->
  heapRel R s1 s2 -> heapRel R s2 s3 -> heapRel R s1 s3.
Proof.
  intros HR H12 H23 l i Hl.
  destruct (H12 l i Hl) as (i2 & Hl2 & R12).
  destruct (H23 l i2 Hl2) as (i3 & Hl3 & R23). eauto.
Qed.

Lemma heapRel_update (R : SFItem -> SFItem -> Prop) (l : loc)
  (f : SFItem -> SFItem) (s : State) :
  (forall i, R i i) -> (forall i, R i (f i)) -> heapRel R s (update l f s).
Proof.
  intros Hrefl Hf l' i Hl.
  destruct (Nat.eq_dec l l') as [<- | Hne].
  - exists (f i). split; [|apply Hf].
    rewrite lookup_update_eq, Hl. reflexivity.
  - exists i. split; [|apply Hrefl].
    rewrite lookup_update_ne by exact Hne. exact Hl.
Qed.

Lemma heapRel_with_modelManager (R : SFItem -> SFItem -> Prop)
  (m : SFModelManager) (s : State) :
  (forall i, R i i) -> heapRel R s (with_modelManager m s).
Proof. intros HR l i Hl. simpl. eauto. Qed.

Lemma quiet_refl (i : SFItem) : quiet i i.
Proof. unfold quiet. tauto. Qed.

Lemma quiet_trans (a b c : SFItem) : quiet a b -> quiet b c -> quiet a c.
Proof.
  unfold quiet. intros (A1 & A2 & A3 & A4 & A5 & A6 & A7)
                       (B1 & B2 & B3 & B4 & B5 & B6 & B7).
  repeat split; try congruence. auto.
Qed.

Lemma quiet_marks (a b : SFItem) : quiet a b -> marks a b.
Proof.
  unfold quiet, marks. intros (A1 & A2 & A3 & A4 & A5 & A6 & A7).
  repeat split; try congruence; auto.
Qed.

Lemma marks_refl (i : SFItem) : marks i i.
Proof. unfold marks. tauto. Qed.

Lemma marks_trans (a b c : SFItem) : marks a b -> marks b c -> marks a c.
Proof.
  unfold marks. intros (A1 & A2 & A3 & A4 & A5) (B1 & B2 & B3 & B4 & B5).
  repeat split; try congruence; auto.
Qed.

Lemma heapRel_weaken (R R' : SFItem -> SFItem -> Prop) (s s' : State) :
  (forall a b, R a b -> R' a b) -> heapRel R s s' -> heapRel R' s s'.
Proof.
  intros HR H l i Hl. destruct (H l i Hl) as (i' & Hl' & Hi). eauto.
Qed.

(** Changes of [references], of [referencingObjects], and dirtying. *)
Lemma quiet_with_references (v : list Reference) (i : SFItem) :
  quiet i (with_references v i).
Proof. unfold quiet. simpl. tauto. Qed.

Lemma quiet_with_referencingObjects (v : list loc) (i : SFItem) :
  quiet i (with_referencingObjects v i).
Proof. unfold quiet. simpl. tauto. Qed.

Lemma quiet_setDirty_true (i : SFItem) : quiet i (setDirty_item true i).
Proof. unfold quiet. simpl. tauto. Qed.

Lemma quiet_setDirty (this : loc) (s : State) :
  heapRel quiet s (setDirty this true s).
Proof.
  apply heapRel_update; [apply quiet_refl | apply quiet_setDirty_true].
Qed.

Lemma quiet_removeReferenceWithUuid (this : loc) (u : string) (s : State) :
  heapRel quiet s (removeReferenceWithUuid this u s).
Proof.
  apply heapRel_update; [apply quiet_refl|].
  intros i. apply quiet_with_references.
Qed.

Lemma quiet_setIsBeingReferencedBy (this item : loc) (s : State) :
  heapRel quiet s (setIsBeingReferencedBy this item s).
Proof.
  unfold setIsBeingReferencedBy.
  destruct (heap s !! this) as [i|]; [|apply heapRel_refl, quiet_refl].
  destruct (notReferencedBy s (uuidAt s item) i);
    [|apply heapRel_refl, quiet_refl].
  apply heapRel_update; [apply quiet_refl|].
  intros i0. apply quiet_with_referencingObjects.
Qed.

Lemma quiet_setIsNoLongerBeingReferencedBy (this item : loc) (s : State) :
  heapRel quiet s (setIsNoLongerBeingReferencedBy this item s).
Proof.
  unfold setIsNoLongerBeingReferencedBy.
  set (s1 := update this _ s).
  assert (H1 : heapRel quiet s s1).
  { apply heapRel_update; [apply quiet_refl|].
    intros i. apply quiet_with_referencingObjects. }
  destruct (hasRelationshipWithItem this item s1); [|exact H1].
  eapply heapRel_trans; [apply quiet_trans | exact H1 |].
  eapply heapRel_trans; [apply quiet_trans | | apply quiet_setDirty].
  apply quiet_removeReferenceWithUuid.
Qed.

Lemma quiet_addItemAsRelationship (this item : loc) (s : State) :
  heapRel quiet s (addItemAsRelationship this item s).
Proof.
  unfold addItemAsRelationship.
  set (s1 := setIsBeingReferencedBy item this s).
  assert (H1 : heapRel quiet s s1) by apply quiet_setIsBeingReferencedBy.
  destruct (hasRelationshipWithItem this item s1); [exact H1|].
  destruct (heap s1 !! item) as [it|]; [|exact H1].
  eapply heapRel_trans; [apply quiet_trans | exact H1 |].
  apply heapRel_update; [apply quiet_refl|].
  intros i. apply quiet_with_references.
Qed.

Lemma quiet_removeItemAsRelationship (this item : loc) (s : State) :
  heapRel quiet s (removeItemAsRelationship this item s).
Proof.
  unfold removeItemAsRelationship.
  eapply heapRel_trans; [apply quiet_trans | |
                         apply quiet_removeReferenceWithUuid].
  apply quiet_setIsNoLongerBeingReferencedBy.
Qed.

Lemma heapRel_fold_left {A : Type} (R : SFItem -> SFItem -> Prop)
  (f : State -> A -> State) (xs : list A) (s : State) :
  (forall i, R i i) -> (forall a b c, R a b -> R b c -> R a c) ->
  (forall s x, heapRel R s (f s x)) ->
  heapRel R s (fold_left f xs s).
Proof.
  intros Hrefl Htrans Hf. revert s.
  induction xs as [|x xs IH]; intros s; [now apply heapRel_refl|].
  simpl. eapply heapRel_trans; [exact Htrans | apply Hf | apply IH].
Qed.

Lemma heapRel_forOfLive {A : Type} (R : SFItem -> SFItem -> Prop)
  (fuel : nat) (array : State -> list A) (body : A -> State -> State)
  (index : nat) (s : State) :
  (forall i, R i i) -> (forall a b c, R a b -> R b c -> R a c) ->
  (forall x s, heapRel R s (body x s)) ->
  heapRel R s (forOfLive fuel array body index s).
Proof.
  intros Hrefl Htrans Hbody. revert index s.
  induction fuel as [|fuel IH]; intros index s; [now apply heapRel_refl|].
  simpl. destruct (array s !! index) as [x|]; [|now apply heapRel_refl].
  eapply heapRel_trans; [exact Htrans | apply Hbody | apply IH].
Qed.

Lemma quiet_removeDirectRelationship (item : loc) (s : State) (r : Reference) :
  heapRel quiet s (removeDirectRelationship item s r).
Proof.
  unfold removeDirectRelationship.
  destruct (findItem s (r_uuid r)) as [relationship|];
    [|apply heapRel_refl, quiet_refl].
  set (s1 := removeItemAsRelationship item relationship s).
  assert (H1 : heapRel quiet s s1) by apply quiet_removeItemAsRelationship.
  destruct (hasRelationshipWithItem relationship item s1); [|exact H1].
  eapply heapRel_trans; [apply quiet_trans | exact H1 |].
  eapply heapRel_trans; [apply quiet_trans | | apply quiet_setDirty].
  apply quiet_removeItemAsRelationship.
Qed.

Lemma quiet_removeIndirectRelationship (item object : loc) (s : State) :
  heapRel quiet s (removeIndirectRelationship item object s).
Proof.
  unfold removeIndirectRelationship.
  eapply heapRel_trans; [apply quiet_trans | | apply quiet_setDirty].
  apply quiet_removeItemAsRelationship.
Qed.

Lemma quiet_removeAndDirtyAllRelationshipsForItem (item : loc) (s : State) :
  heapRel quiet s (removeAndDirtyAllRelationshipsForItem item s).
Proof.
  unfold removeAndDirtyAllRelationshipsForItem.
  destruct (heap s !! item) as [i|]; [|apply heapRel_refl, quiet_refl].
  cbv zeta.
  set (s1 := fold_left (removeDirectRelationship item) (references i) s).
  assert (H1 : heapRel quiet s s1).
  { apply heapRel_fold_left;
      [apply quiet_refl | apply quiet_trans |
       intros; apply quiet_removeDirectRelationship]. }
  set (s2 := forOfLive _ _ _ 0 s1).
  assert (H2 : heapRel quiet s1 s2).
  { apply heapRel_forOfLive;
      [apply quiet_refl | apply quiet_trans |
       intros; apply quiet_removeIndirectRelationship]. }
  eapply heapRel_trans; [apply quiet_trans | exact H1 |].
  eapply heapRel_trans; [apply quiet_trans | exact H2 |].
  apply heapRel_update; [apply quiet_refl|].
  intros i0. apply quiet_with_referencingObjects.
Qed.

End GraphFacts.

(* ===================================================================== *)
(** * The singleton resolver *)
(* ===================================================================== *)

Section SingletonFacts.
Import Store.
Local Open Scope list_scope.

(** ** The sort *)

Lemma sortInsert_Permutation {A : Type} (below : A -> A -> bool) (x : A)
  (l : list A) : Permutation (sortInsert below x l) (x :: l).
Proof.
  induction l as [|y rest IH]; simpl; [apply Permutation_refl|].
  destruct (below x y); [apply Permutation_refl|].
  eapply perm_trans; [apply perm_skip, IH | apply perm_swap].
Qed.

Lemma Array_sort_Permutation {A : Type} (below : A -> A -> bool) (l : list A) :
  Permutation (Array_sort below l) l.
Proof.
  induction l as [|x l IH]; simpl; [apply perm_nil|].
  eapply perm_trans; [apply sortInsert_Permutation | apply perm_skip, IH].
Qed.

Lemma sortInsert_sorted {A : Type} (key : A -> Z) (x : A) (l : list A) :
  StronglySorted (fun a b => (key a <= key b)%Z) l ->
  StronglySorted (fun a b => (key a <= key b)%Z)
    (sortInsert (fun a b => (key a <? key b)%Z) x l).
Proof.
  induction 1 as [|y rest Hs IH Hy]; simpl.
  - constructor; constructor.
  - destruct (Z.ltb_spec (key x) (key y)) as [Hlt | Hge].
    + constructor; [constructor; assumption|].
      constructor; [lia|].
      rewrite List.Forall_forall in Hy |- *.
      intros z Hz. specialize (Hy z Hz). simpl in Hy. lia.
    + constructor; [exact IH|].
      rewrite List.Forall_forall in Hy |- *.
      intros z Hz.
      apply (Permutation_in _ (sortInsert_Permutation _ x rest)) in Hz.
      destruct Hz as [<- | Hz]; [exact Hge | exact (Hy z Hz)].
Qed.

Lemma Array_sort_sorted {A : Type} (key : A -> Z) (l : list A) :
  StronglySorted (fun a b => (key a <= key b)%Z)
    (Array_sort (fun a b => (key a <? key b)%Z) l).
Proof.
  induction l as [|x l IH]; simpl; [constructor|].
  apply sortInsert_sorted, IH.
Qed.

(** The first element of the sorted array is one of the earliest, and the
    rest are all the others. *)
Lemma Array_sort_first {A : Type} (key : A -> Z) (l : list A) (w : A)
  (rest : list A) :
  Array_sort (fun a b => (key a <? key b)%Z) l = w :: rest ->
  In w l /\ (forall x, In x l -> (key w <= key x)%Z) /\
  (forall x, In x l -> x = w \/ In x rest) /\
  (forall x, In x rest -> In x l) /\
  (List.NoDup l -> ~ In w rest).
Proof.
  intros E.
  pose proof (Array_sort_Permutation (fun a b => (key a <? key b)%Z) l) as HP.
  pose proof (Array_sort_sorted key l) as HS.
  rewrite E in HP, HS.
  assert (Hin : forall x, In x l -> x = w \/ In x rest).
  { intros x Hx. apply (Permutation_in _ (Permutation_sym HP)) in Hx.
    destruct Hx as [-> | Hx]; auto. }
  repeat split.
  - apply (Permutation_in _ HP). now left.
  - intros x Hx. inversion HS as [|? ? _ Hall]; subst.
    destruct (Hin x Hx) as [-> | Hr]; [lia|].
    rewrite List.Forall_forall in Hall. exact (Hall x Hr).
  - exact Hin.
  - intros x Hx. apply (Permutation_in _ HP). now right.
  - intros Hnd Hw.
    apply (Permutation_NoDup (Permutation_sym HP)) in Hnd.
    inversion Hnd; subst. contradiction.
Qed.

(** ** Marking an item deleted *)

Lemma setItemToBeDeleted_other (d l : loc) (s : State) (i : SFItem) :
  l <> d -> heap s !! l = Some i ->
  exists i', heap (setItemToBeDeleted d s) !! l = Some i' /\ quiet i i'.
Proof.
  intros Hne Hl. unfold setItemToBeDeleted.
  set (s1 := update d (with_deleted true) s).
  assert (Hl1 : heap s1 !! l = Some i).
  { unfold s1. rewrite lookup_update_ne by congruence. exact Hl. }
  set (s2 := match heap s1 !! d with
             | Some i0 => if negb (dummy i0) then setDirty d true s1 else s1
             | None => s1
             end).
  assert (H12 : heapRel quiet s1 s2).
  { unfold s2. destruct (heap s1 !! d) as [i0|];
      [|apply heapRel_refl, quiet_refl].
    destruct (negb (dummy i0));
      [apply quiet_setDirty | apply heapRel_refl, quiet_refl]. }
  destruct (H12 l i Hl1) as (i2 & Hl2 & Q2).
  destruct (quiet_removeAndDirtyAllRelationshipsForItem d s2 l i2 Hl2)
    as (i3 & Hl3 & Q3).
  exists i3. split; [exact Hl3 | exact (quiet_trans _ _ _ Q2 Q3)].
Qed.

Lemma setItemToBeDeleted_target (d : loc) (s : State) (i : SFItem) :
  heap s !! d = Some i ->
  exists i', heap (setItemToBeDeleted d s) !! d = Some i' /\
             deleted i' = true /\ dummy i' = dummy i /\
             uuid i' = uuid i /\ created_at i' = created_at i /\
             (dirty i = true \/ dummy i = false -> dirty i' = true).
Proof.
  intros Hd. unfold setItemToBeDeleted.
  set (s1 := update d (with_deleted true) s).
  assert (Hd1 : heap s1 !! d = Some (with_deleted true i)).
  { unfold s1. rewrite lookup_update_eq, Hd. reflexivity. }
  rewrite Hd1. cbn [dummy with_deleted].
  set (s2 := if negb (dummy i) then setDirty d true s1 else s1).
  assert (Hd2 : exists i2, heap s2 !! d = Some i2 /\ quiet (with_deleted true i) i2
                           /\ (dummy i = false -> dirty i2 = true)).
  { unfold s2. destruct (dummy i) eqn:Edummy; cbn [negb].
    - exists (with_deleted true i). split; [exact Hd1|].
      split; [apply quiet_refl | discriminate].
    - exists (setDirty_item true (with_deleted true i)).
      split; [unfold setDirty; rewrite lookup_update_eq, Hd1; reflexivity|].
      split; [apply quiet_setDirty_true | reflexivity]. }
  destruct Hd2 as (i2 & Hl2 & Q2 & D2).
  destruct (quiet_removeAndDirtyAllRelationshipsForItem d s2 d i2 Hl2)
    as (i3 & Hl3 & Q3).
  exists i3. split; [exact Hl3|].
  destruct Q2 as (A1 & A2 & A3 & A4 & A5 & A6 & A7).
  destruct Q3 as (B1 & B2 & B3 & B4 & B5 & B6 & B7).
  simpl in *.
  repeat split; try congruence.
  intros [Hdirty | Hdummy]; auto.
Qed.

Lemma setItemToBeDeleted_marks (d : loc) (s : State) :
  heapRel marks s (setItemToBeDeleted d s).
Proof.
  intros l i Hl. destruct (Nat.eq_dec l d) as [-> | Hne].
  - destruct (setItemToBeDeleted_target d s i Hl)
      as (i' & Hl' & A1 & A2 & A3 & A4 & A5).
    exists i'. split; [exact Hl'|]. unfold marks. repeat split; auto.
  - destruct (setItemToBeDeleted_other d l s i Hne Hl) as (i' & Hl' & Q).
    exists i'. split; [exact Hl' | apply quiet_marks, Q].
Qed.

Lemma setItemsToBeDeleted_marks (ds : list loc) (s : State) :
  heapRel marks s (fold_left (fun s d => setItemToBeDeleted d s) ds s).
Proof.
  apply heapRel_fold_left;
    [apply marks_refl | apply marks_trans |
     intros; apply setItemToBeDeleted_marks].
Qed.

Lemma setItemsToBeDeleted_others (ds : list loc) (s : State) (l : loc)
  (i : SFItem) :
  ~ In l ds -> heap s !! l = Some i ->
  exists i', heap (fold_left (fun s d => setItemToBeDeleted d s) ds s) !! l
             = Some i' /\ quiet i i'.
Proof.
  revert s i. induction ds as [|d ds IH]; intros s i Hnot Hl; simpl.
  - exists i. split; [exact Hl | apply quiet_refl].
  - assert (Hne : l <> d) by (intros ->; apply Hnot; now left).
    destruct (setItemToBeDeleted_other d l s i Hne Hl) as (i1 & Hl1 & Q1).
    destruct (IH (setItemToBeDeleted d s) i1) as (i2 & Hl2 & Q2);
      [intros Hin; apply Hnot; now right | exact Hl1 |].
    exists i2. split; [exact Hl2 | exact (quiet_trans _ _ _ Q1 Q2)].
Qed.

Lemma setItemsToBeDeleted_targets (ds : list loc) (s : State) (l : loc)
  (i : SFItem) :
  In l ds -> heap s !! l = Some i -> dummy i = false ->
  exists i', heap (fold_left (fun s d => setItemToBeDeleted d s) ds s) !! l
             = Some i' /\ deleted i' = true /\ dirty i' = true.
Proof.
  revert s i. induction ds as [|d ds IH]; intros s i Hin Hl Hdummy; simpl.
  - destruct Hin.
  - destruct (Nat.eq_dec l d) as [-> | Hne].
    + destruct (setItemToBeDeleted_target d s i Hl)
        as (i1 & Hl1 & A1 & A2 & A3 & A4 & A5).
      destruct (setItemsToBeDeleted_marks ds (setItemToBeDeleted d s) d i1 Hl1)
        as (i2 & Hl2 & B1 & B2 & B3 & B4 & B5).
      exists i2. split; [exact Hl2|]. split; auto.
    + destruct Hin as [-> | Hin]; [congruence|].
      destruct (setItemToBeDeleted_other d l s i Hne Hl)
        as (i1 & Hl1 & Q1).
      apply (IH (setItemToBeDeleted d s) i1 Hin Hl1).
      destruct Q1 as (A1 & A2 & A3 & A4 & A5 & A6 & A7). congruence.
Qed.

(** ** The candidates *)

Lemma itemsMatchingPredicates_In {predicate : Type}
  (satisfies : SFItem -> predicate -> bool) (s : State)
  (ps : list predicate) (l : loc) :
  In l (itemsMatchingPredicates satisfies s ps) ->
  exists i, heap s !! l = Some i /\ dummy i = false /\
            forallb (satisfies i) ps = true.
Proof.
  unfold itemsMatchingPredicates, filterItemsWithPredicates, allItems.
  intros H. apply List.filter_In in H. destruct H as [H Hsat].
  apply List.filter_In in H. destruct H as [_ Hdummy].
  destruct (heap s !! l) as [i|]; [|discriminate].
  exists i. split; [reflexivity|]. split; [|exact Hsat].
  now apply negb_true_iff in Hdummy.
Qed.

Lemma itemsMatchingPredicates_NoDup {predicate : Type}
  (satisfies : SFItem -> predicate -> bool) (s : State)
  (ps : list predicate) :
  List.NoDup (items (modelManager s)) ->
  List.NoDup (itemsMatchingPredicates satisfies s ps).
Proof.
  intros H. unfold itemsMatchingPredicates, filterItemsWithPredicates, allItems.
  apply List.NoDup_filter, List.NoDup_filter, H.
Qed.

(** C8.  The body of the loop of [resolveSingletons], for one registered
    handler: when some retrieved or saved item satisfies the handler's
    predicates and two or more items of the store do, the handler's
    singleton becomes an item [winner] that matches the predicates and
    whose [created_at] is at most that of every matching item; every other
    matching item ends with [deleted = true] and dirty; the winner's
    [deleted] flag is what it was; [syncManager.sync()] is called, and then
    the handler's [resolutionCallback], if it has one, with the winner.
    The [items] array is taken to hold each item once. *)
Theorem C8_singleton_resolution {predicate : Type}
  (satisfies : SFItem -> predicate -> bool)
  (retrievedItems savedItems : list loc) (initialLoad : bool) (idx : nat)
  (h : SingletonHandler predicate) (s : State) :
  filterItemsWithPredicates satisfies s retrievedItems (predicates h) <> []
  \/ filterItemsWithPredicates satisfies s savedItems (predicates h) <> [] ->
  2 <= length (itemsMatchingPredicates satisfies s (predicates h)) ->
  List.NoDup (items (modelManager s)) ->
  exists (winner : loc) (s' : State),
    resolveSingleton satisfies retrievedItems savedItems initialLoad idx h s
    = (s', with_singleton (Some winner) h,
       SyncTriggered ::
         (if resolutionCallback h then [ResolutionCallback idx winner]
          else []))
    /\ In winner (itemsMatchingPredicates satisfies s (predicates h))
    /\ (forall l, In l (itemsMatchingPredicates satisfies s (predicates h)) ->
                  (createdAt s winner <= createdAt s l)%Z)
    /\ (exists w w', heap s !! winner = Some w /\ heap s' !! winner = Some w'
                     /\ deleted w' = deleted w)
    /\ (forall d, In d (itemsMatchingPredicates satisfies s (predicates h)) ->
                  d <> winner ->
                  exists i', heap s' !! d = Some i' /\ deleted i' = true
                             /\ dirty i' = true).
Proof.
  intros Hsome Htwo Hnd.
  unfold resolveSingleton. cbv zeta.
  set (matching := itemsMatchingPredicates satisfies s (predicates h)) in *.
  assert (Hcond : (0 <? length (filterItemsWithPredicates satisfies s
                                  retrievedItems (predicates h)))%nat
                  || (0 <? length (filterItemsWithPredicates satisfies s
                                     savedItems (predicates h)))%nat = true).
  { apply orb_true_iff.
    destruct Hsome as [H | H]; [left | right]; apply Nat.ltb_lt;
      destruct (filterItemsWithPredicates _ _ _ _); simpl; try lia;
      congruence. }
  rewrite Hcond.
  assert (Hlen : (2 <=? length matching)%nat = true) by now apply Nat.leb_le.
  rewrite Hlen.
  destruct (Array_sort (createdBefore s) matching) as [|winner toDelete] eqn:E.
  { pose proof (Array_sort_Permutation (createdBefore s) matching) as HP.
    rewrite E in HP. apply Permutation_length in HP. simpl in HP. lia. }
  apply (Array_sort_first (createdAt s)) in E.
  destruct E as (Hw & Hmin & Hsplit & Hback & Hfresh).
  specialize (Hfresh (itemsMatchingPredicates_NoDup satisfies s _ Hnd)).
  exists winner, (fold_left (fun s d => setItemToBeDeleted d s) toDelete s).
  split; [reflexivity|].
  split; [exact Hw|].
  split; [exact Hmin|].
  split.
  - destruct (itemsMatchingPredicates_In satisfies s _ _ Hw)
      as (w & Hlw & _ & _).
    destruct (setItemsToBeDeleted_others toDelete s winner w Hfresh Hlw)
      as (w' & Hlw' & Q).
    exists w, w'. split; [exact Hlw|]. split; [exact Hlw'|].
    destruct Q as (A1 & A2 & A3 & A4 & A5 & A6 & A7). exact A4.
  - intros d Hd Hne.
    destruct (itemsMatchingPredicates_In satisfies s _ _ Hd)
      as (i & Hli & Hdummy & _).
    destruct (Hsplit d Hd) as [-> | Hin]; [congruence|].
    exact (setItemsToBeDeleted_targets toDelete s d i Hin Hli Hdummy).
Qed.

End SingletonFacts.

Section SingletonExamples.
Import Store Scenario.
Local Open Scope list_scope.

(** The third note comes back from a sync; the second note, the oldest,
    wins. *)
Lemma C8_singleton_resolution_witness :
  exists (winner : loc) (s' : State),
    resolveSingleton contentTypeIs [2] [] false 0 notesHandler threeNotes
    = (s', with_singleton (Some winner) notesHandler,
       [SyncTriggered; ResolutionCallback 0 winner])
    /\ In winner (itemsMatchingPredicates contentTypeIs threeNotes ["Note"%string])
    /\ (forall l,
          In l (itemsMatchingPredicates contentTypeIs threeNotes ["Note"%string]) ->
          (createdAt threeNotes winner <= createdAt threeNotes l)%Z)
    /\ (exists w w', heap threeNotes !! winner = Some w
                     /\ heap s' !! winner = Some w'
                     /\ deleted w' = deleted w)
    /\ (forall d,
          In d (itemsMatchingPredicates contentTypeIs threeNotes ["Note"%string]) ->
          d <> winner ->
          exists i', heap s' !! d = Some i' /\ deleted i' = true
                     /\ dirty i' = true).
Proof.
  refine (C8_singleton_resolution contentTypeIs [2] [] false 0 notesHandler
            threeNotes _ _ _).
  - left. vm_compute. discriminate.
  - vm_compute. lia.
  - vm_compute. repeat constructor; simpl; lia.
Defined.

End SingletonExamples.

(* ===================================================================== *)
(** * UUID alternation *)
(* ===================================================================== *)

Section AlternationFacts.
Import Store.
Local Open Scope list_scope.

(** ** What the relationship methods leave untouched *)

Lemma frame_setIsNoLongerBeingReferencedBy (this item l : loc) (s : State) :
  l <> this ->
  heap (setIsNoLongerBeingReferencedBy this item s) !! l = heap s !! l.
Proof.
  intros Hne. unfold setIsNoLongerBeingReferencedBy. cbv zeta.
  match goal with |- context [if ?c then _ else _] => destruct c end.
  - unfold setDirty, removeReferenceWithUuid.
    rewrite !lookup_update_ne by congruence. reflexivity.
  - rewrite lookup_update_ne by congruence. reflexivity.
Qed.

Lemma frame_setIsBeingReferencedBy (this item l : loc) (s : State) :
  l <> this ->
  heap (setIsBeingReferencedBy this item s) !! l = heap s !! l.
Proof.
  intros Hne. unfold setIsBeingReferencedBy.
  destruct (heap s !! this) as [i|]; [|reflexivity].
  destruct (notReferencedBy s (uuidAt s item) i); [|reflexivity].
  rewrite lookup_update_ne by congruence. reflexivity.
Qed.

Lemma frame_addItemAsRelationship (this item l : loc) (s : State) :
  l <> this -> l <> item ->
  heap (addItemAsRelationship this item s) !! l = heap s !! l.
Proof.
  intros Hthis Hitem. unfold addItemAsRelationship. cbv zeta.
  pose proof (frame_setIsBeingReferencedBy item this l s Hitem) as H1.
  destruct (hasRelationshipWithItem this item _); [exact H1|].
  destruct (heap (setIsBeingReferencedBy item this s) !! item); [|exact H1].
  rewrite lookup_update_ne by congruence. exact H1.
Qed.

Lemma frame_inheritRelationship (x n r l : loc) (s : State) :
  l <> r -> l <> n ->
  heap (inheritRelationship x n r s) !! l = heap s !! l.
Proof.
  intros Hr Hn. unfold inheritRelationship, setDirty.
  rewrite lookup_update_ne by congruence.
  rewrite frame_addItemAsRelationship by assumption.
  apply frame_setIsNoLongerBeingReferencedBy, Hr.
Qed.

Lemma quiet_inheritRelationship (x n r : loc) (s : State) :
  heapRel quiet s (inheritRelationship x n r s).
Proof.
  unfold inheritRelationship.
  eapply heapRel_trans; [apply quiet_trans | | apply quiet_setDirty].
  eapply heapRel_trans;
    [apply quiet_trans | | apply quiet_addItemAsRelationship].
  apply quiet_setIsNoLongerBeingReferencedBy.
Qed.

(** They leave the model manager alone. *)
Lemma modelManager_setIsNoLongerBeingReferencedBy (this item : loc)
  (s : State) :
  modelManager (setIsNoLongerBeingReferencedBy this item s) = modelManager s.
Proof.
  unfold setIsNoLongerBeingReferencedBy. cbv zeta.
  match goal with |- context [if ?c then _ else _] => destruct c end;
    reflexivity.
Qed.

Lemma modelManager_setIsBeingReferencedBy (this item : loc) (s : State) :
  modelManager (setIsBeingReferencedBy this item s) = modelManager s.
Proof.
  unfold setIsBeingReferencedBy.
  destruct (heap s !! this) as [i|]; [|reflexivity].
  destruct (notReferencedBy s (uuidAt s item) i); reflexivity.
Qed.

Lemma modelManager_addItemAsRelationship (this item : loc) (s : State) :
  modelManager (addItemAsRelationship this item s) = modelManager s.
Proof.
  unfold addItemAsRelationship. cbv zeta.
  pose proof (modelManager_setIsBeingReferencedBy item this s) as H1.
  destruct (hasRelationshipWithItem this item _); [exact H1|].
  destruct (heap (setIsBeingReferencedBy item this s) !! item); exact H1.
Qed.

Lemma modelManager_inheritRelationship (x n r : loc) (s : State) :
  modelManager (inheritRelationship x n r s) = modelManager s.
Proof.
  unfold inheritRelationship, setDirty. rewrite modelManager_update.
  rewrite modelManager_addItemAsRelationship.
  apply modelManager_setIsNoLongerBeingReferencedBy.
Qed.

Lemma uuidAt_heapRel (s s' : State) (l : loc) (i : SFItem) :
  heapRel quiet s s' -> heap s !! l = Some i -> uuidAt s' l = uuid i.
Proof.
  intros H Hl. destruct (H l i Hl) as (i' & Hl' & Q).
  unfold uuidAt. rewrite Hl'. apply Q.
Qed.

(** ** One referencing object *)

Lemma hasReferenceTo_removed (u : string) (i : SFItem) :
  hasReferenceTo u (removeReferenceWithUuid_item u i) = false.
Proof.
  unfold hasReferenceTo, removeReferenceWithUuid_item. simpl.
  induction (references i) as [|r rest IH]; [reflexivity|].
  simpl. destruct (String.eqb (r_uuid r) u) eqn:E; simpl; [exact IH|].
  rewrite E. exact IH.
Qed.

Lemma setIsNoLongerBeingReferencedBy_target (r x : loc) (s : State)
  (R : SFItem) :
  heap s !! r = Some R ->
  exists R1, heap (setIsNoLongerBeingReferencedBy r x s) !! r = Some R1 /\
             hasReferenceTo (uuidAt s x) R1 = false.
Proof.
  intros Hr. unfold setIsNoLongerBeingReferencedBy. cbv zeta.
  set (u := uuidAt s x).
  set (g := fun i : SFItem => with_referencingObjects _ i).
  set (s1 := update r g s).
  assert (Hr1 : heap s1 !! r = Some (g R)).
  { unfold s1. rewrite lookup_update_eq, Hr. reflexivity. }
  assert (Hu : uuidAt s1 x = u).
  { unfold u, uuidAt, s1. destruct (Nat.eq_dec r x) as [<- | Hne].
    - rewrite lookup_update_eq, Hr. reflexivity.
    - rewrite lookup_update_ne by exact Hne. reflexivity. }
  unfold hasRelationshipWithItem. rewrite Hr1, Hu.
  destruct (hasReferenceTo u (g R)) eqn:E.
  - exists (setDirty_item true (removeReferenceWithUuid_item u (g R))).
    split.
    + unfold setDirty, removeReferenceWithUuid.
      rewrite !lookup_update_eq, Hr1. reflexivity.
    + exact (hasReferenceTo_removed u (g R)).
  - exists (g R). split; [exact Hr1 | exact E].
Qed.

Lemma hasReferenceTo_pushed (u v t : string) (i : SFItem) :
  hasReferenceTo u
    (with_references
       (references i ++ [{| r_uuid := v; r_content_type := t |}]) i)
  = hasReferenceTo u i || String.eqb v u.
Proof.
  unfold hasReferenceTo. simpl. rewrite existsb_app. simpl.
  now rewrite orb_false_r.
Qed.

Lemma addItemAsRelationship_target (r n : loc) (s : State) (R N : SFItem) :
  r <> n -> heap s !! r = Some R -> heap s !! n = Some N ->
  exists R2, heap (addItemAsRelationship r n s) !! r = Some R2 /\
             hasReferenceTo (uuid N) R2 = true /\
             (forall u, u <> uuid N ->
                        hasReferenceTo u R2 = hasReferenceTo u R).
Proof.
  intros Hne Hr Hn. unfold addItemAsRelationship. cbv zeta.
  set (s1 := setIsBeingReferencedBy n r s).
  assert (Hr1 : heap s1 !! r = Some R).
  { unfold s1. rewrite frame_setIsBeingReferencedBy by exact Hne. exact Hr. }
  destruct (quiet_setIsBeingReferencedBy n r s n N Hn) as (N1 & Hn1 & Q).
  fold s1 in Hn1.
  assert (HuN : uuid N1 = uuid N) by apply Q.
  unfold hasRelationshipWithItem, uuidAt. rewrite Hr1, Hn1, HuN.
  destruct (hasReferenceTo (uuid N) R) eqn:E.
  - exists R. split; [exact Hr1|]. split; [exact E | reflexivity].
  - eexists. split; [rewrite lookup_update_eq, Hr1; reflexivity|].
    split.
    + rewrite hasReferenceTo_pushed, String.eqb_refl.
      apply orb_true_r.
    + intros u Hu. rewrite hasReferenceTo_pushed.
      replace (String.eqb (uuid N) u) with false;
        [apply orb_false_r|].
      symmetry. apply String.eqb_neq. congruence.
Qed.

Lemma inheritRelationship_rebinds (x n r : loc) (s : State) (R N : SFItem) :
  r <> n -> heap s !! r = Some R -> heap s !! n = Some N ->
  uuid N <> uuidAt s x ->
  rebound (uuidAt s x) (uuid N) r (inheritRelationship x n r s).
Proof.
  intros Hne Hr Hn Hfresh. unfold inheritRelationship.
  destruct (setIsNoLongerBeingReferencedBy_target r x s R Hr)
    as (R1 & Hr1 & Hold).
  set (s1 := setIsNoLongerBeingReferencedBy r x s) in *.
  assert (Hn1 : heap s1 !! n = Some N).
  { unfold s1. rewrite frame_setIsNoLongerBeingReferencedBy by congruence.
    exact Hn. }
  destruct (addItemAsRelationship_target r n s1 R1 N Hne Hr1 Hn1)
    as (R2 & Hr2 & Hnew & Hsame).
  exists (setDirty_item true R2). split.
  - unfold setDirty. rewrite lookup_update_eq, Hr2. reflexivity.
  - split; [exact Hnew|]. split; [|reflexivity].
    change (hasReferenceTo (uuidAt s x) R2 = false).
    rewrite Hsame by congruence. exact Hold.
Qed.

(** ** The loop over [item.referencingObjects] *)

Lemma inheritRelationships (x n : loc) (uX newUUID : string)
  (refs : list loc) (fuel : nat) :
  newUUID <> uX -> ~ In x refs -> ~ In n refs ->
  forall (idx : nat) (s : State),
    length refs <= fuel + idx ->
    (exists X, heap s !! x = Some X /\ uuid X = uX
               /\ referencingObjects X = refs) ->
    (exists N, heap s !! n = Some N /\ uuid N = newUUID) ->
    (forall r, In r refs -> is_Some (heap s !! r)) ->
    let s' :=
      forOfLive fuel (referencingObjectsAt x) (inheritRelationship x n) idx s in
    heap s' !! x = heap s !! x
    /\ modelManager s' = modelManager s
    /\ (forall r, In r refs -> rebound uX newUUID r s ->
                  rebound uX newUUID r s')
    /\ (forall j r, idx <= j -> refs !! j = Some r ->
                    rebound uX newUUID r s').
Proof.
  intros Hfresh Hx Hn.
  assert (Hstep : forall (s : State) (r0 : loc),
             In r0 refs ->
             (exists X, heap s !! x = Some X /\ uuid X = uX
                        /\ referencingObjects X = refs) ->
             (exists N, heap s !! n = Some N /\ uuid N = newUUID) ->
             (forall r, In r refs -> is_Some (heap s !! r)) ->
             rebound uX newUUID r0 (inheritRelationship x n r0 s)
             /\ (forall r, In r refs -> rebound uX newUUID r s ->
                           rebound uX newUUID r (inheritRelationship x n r0 s))).
  { intros s r0 Hin0 (X & HX & HuX & _) (N & HN & HuN) Hvalid.
    assert (Hr0n : r0 <> n) by (intros ->; contradiction).
    destruct (Hvalid r0 Hin0) as [R0 HR0].
    assert (Hhere : rebound uX newUUID r0 (inheritRelationship x n r0 s)).
    { pose proof (inheritRelationship_rebinds x n r0 s R0 N Hr0n HR0 HN) as H.
      unfold uuidAt in H. rewrite HX, HuX, HuN in H. apply H, Hfresh. }
    split; [exact Hhere|].
    intros r Hin Hr. destruct (Nat.eq_dec r r0) as [-> | Hne];
      [exact Hhere|].
    destruct Hr as (R & HR & Hrest). exists R. split; [|exact Hrest].
    rewrite frame_inheritRelationship; [exact HR | exact Hne |].
    intros ->; contradiction. }
  induction fuel as [|fuel IH]; intros idx s Hlen HX HN Hvalid s'.
  - subst s'. simpl. repeat split; auto.
    intros j r Hj Hr. apply lookup_lt_Some in Hr. simpl in Hlen. lia.
  - subst s'. simpl.
    assert (Hrefs : referencingObjectsAt x s = refs).
    { destruct HX as (X & HX & _ & Hr). unfold referencingObjectsAt.
      rewrite HX. exact Hr. }
    rewrite Hrefs.
    destruct (refs !! idx) as [r0|] eqn:E.
    + assert (Hin0 : In r0 refs).
      { apply list_elem_of_In. eapply list_elem_of_lookup_2, E. }
      assert (Hr0x : x <> r0) by (intros ->; contradiction).
      assert (Hr0n : n <> r0) by (intros ->; contradiction).
      destruct (Hstep s r0 Hin0 HX HN Hvalid) as (Hhere & Hkeep).
      set (s1 := inheritRelationship x n r0 s) in *.
      assert (Hframe : heap s1 !! x = heap s !! x).
      { unfold s1. apply frame_inheritRelationship; [exact Hr0x|].
        intros ->. destruct HN as (N & HN & HuN).
        destruct HX as (X & HX & HuX & _). congruence. }
      assert (HX1 : exists X, heap s1 !! x = Some X /\ uuid X = uX
                              /\ referencingObjects X = refs).
      { rewrite Hframe. exact HX. }
      assert (HN1 : exists N, heap s1 !! n = Some N /\ uuid N = newUUID).
      { destruct HN as (N & HN & HuN).
        destruct (quiet_inheritRelationship x n r0 s n N HN)
          as (N1 & HN1 & Q).
        exists N1. split; [exact HN1|]. rewrite <- HuN. apply Q. }
      assert (Hvalid1 : forall r, In r refs -> is_Some (heap s1 !! r)).
      { intros r Hr. destruct (Hvalid r Hr) as [R HR].
        destruct (quiet_inheritRelationship x n r0 s r R HR)
          as (R1 & HR1 & _).
        exists R1. exact HR1. }
      destruct (IH (S idx) s1 ltac:(lia) HX1 HN1 Hvalid1)
        as (A1 & A2 & A3 & A4).
      split; [rewrite A1; exact Hframe|].
      split; [rewrite A2; apply modelManager_inheritRelationship|].
      split.
      * intros r Hr Hreb. apply A3; [exact Hr|]. apply Hkeep; assumption.
      * intros j r Hj Hjr. destruct (Nat.eq_dec j idx) as [-> | Hne].
        -- rewrite E in Hjr. injection Hjr as <-.
           apply A3; [exact Hin0 | exact Hhere].
        -- apply (A4 j r); [lia | exact Hjr].
    + repeat split; auto.
      intros j r Hj Hr. apply lookup_lt_Some in Hr.
      apply lookup_ge_None_1 in E. lia.
Qed.

(** ** Before the loop *)

Lemma potentialItemOfInterestHasChangedItsUUID_item_links
  (oldUUID newUUID : string) (i : SFItem) :
  uuid (potentialItemOfInterestHasChangedItsUUID_item oldUUID newUUID i)
  = uuid i
  /\ referencingObjects
       (potentialItemOfInterestHasChangedItsUUID_item oldUUID newUUID i)
     = referencingObjects i.
Proof.
  unfold potentialItemOfInterestHasChangedItsUUID_item.
  destruct (renameReferences oldUUID newUUID (references i)) as [refs k].
  induction k as [|k IH]; [split; reflexivity|].
  simpl. exact IH.
Qed.

Lemma modelManager_fold_left {A : Type} (f : State -> A -> State)
  (xs : list A) (s : State) :
  (forall s a, modelManager (f s a) = modelManager s) ->
  modelManager (fold_left f xs s) = modelManager s.
Proof.
  intros Hf. revert s. induction xs as [|a xs IH]; intros s; [reflexivity|].
  simpl. rewrite IH. apply Hf.
Qed.

Lemma informModelsOfUUIDChangeForItem_links (newItem : loc)
  (oldUUID newUUID : string) (s : State) :
  heapRel (fun i i' => uuid i' = uuid i
                       /\ referencingObjects i' = referencingObjects i)
    s (informModelsOfUUIDChangeForItem newItem oldUUID newUUID s)
  /\ modelManager (informModelsOfUUIDChangeForItem newItem oldUUID newUUID s)
     = modelManager s.
Proof.
  unfold informModelsOfUUIDChangeForItem. split.
  - apply heapRel_fold_left.
    + intros i. split; reflexivity.
    + intros a b c [A1 A2] [B1 B2]. split; congruence.
    + intros s0 model. apply heapRel_update.
      * intros i. split; reflexivity.
      * intros i.
        apply potentialItemOfInterestHasChangedItsUUID_item_links.
  - apply modelManager_fold_left. intros s0 a. reflexivity.
Qed.

(** ** The mapper, on the retired original *)

Lemma mapRecord_retired (x : loc) (X : SFItem) (s : State) :
  heap s !! x = Some X -> deleted X = true -> dirty X = false ->
  findItem s (uuid X) = Some x ->
  exists s', mapRecord None (s, [], []) (jsonOfItem X) = (s', [], [])
             /\ heap s'
                = heap (update x (with_dummy false)
                          (updateFromJSON x (jsonOfItem X) s)).
Proof.
  intros HX Hdeleted Hdirty Hfind. unfold mapRecord.
  cbn [jsonOfItem j_deleted j_dirty j_uuid j_errorDecrypting j_content_type
       default].
  rewrite Hdeleted, Hdirty, Hfind. cbn [negb].
  rewrite andb_false_r. cbn [andb].
  set (s1 := update x (with_dummy false) _).
  destruct (existsb _ (itemsPendingRemoval (modelManager s1)));
    [eexists; split; reflexivity|].
  match goal with |- context [if ?c then _ else _] => destruct c end;
    [eexists; split; reflexivity|].
  cbn [andb]. eexists; split; reflexivity.
Qed.

Lemma mapResponseItemsToLocalModels_retired (x : loc) (X : SFItem)
  (s : State) :
  heap s !! x = Some X -> deleted X = true -> dirty X = false ->
  findItem s (uuid X) = Some x ->
  heap (snd (mapResponseItemsToLocalModels [jsonOfItem X] s))
  = heap (update x (with_dummy false) (updateFromJSON x (jsonOfItem X) s)).
Proof.
  intros HX Hdeleted Hdirty Hfind.
  destruct (mapRecord_retired x X s HX Hdeleted Hdirty Hfind)
    as (s' & E & Hheap).
  unfold mapResponseItemsToLocalModels,
    mapResponseItemsToLocalModelsOmittingFields.
  cbn [fold_left]. rewrite E. simpl. exact Hheap.
Qed.


(** ** The copy *)

Lemma createItem_copy (X : SFItem) (s : State) :
  uuid X <> EmptyString ->
  exists C, createItem (jsonOfItem X) s
            = (length (heap s), with_heap (heap s ++ [C]) s)
            /\ uuid C = uuid X.
Proof.
  intros Hne. unfold createItem, newSFItem. cbv zeta.
  cbn [uuid updateFromJSON_item jsonOfItem j_uuid].
  rewrite (proj2 (String.eqb_neq _ _) Hne).
  eexists. split; reflexivity.
Qed.


Lemma heap_addItem (item : loc) (s : State) :
  heap (addItem item s) = heap s.
Proof.
  unfold addItem. destruct (lookupKey _ _); reflexivity.
Qed.

(** C6.  [alternateUUIDForItem] on a registered item [X] whose new UUID
    differs from its own: the copy gets the new UUID and the original
    keeps its own; every item of [X.referencingObjects] ends with a
    reference to the new UUID, none to the UUID of [X], and dirty; and [X]
    ends with no references, [deleted] and not dirty.  The items of
    [X.referencingObjects] are taken to be other items than [X]. *)
Theorem C6_alternation_rebinds_references (x : loc) (X : SFItem) (s : State) :
  heap s !! x = Some X ->
  uuid X <> EmptyString ->
  findItem s (uuid X) = Some x ->
  uuidSource s (uuidNext s) <> uuid X ->
  (forall r, In r (referencingObjects X) -> r <> x /\ is_Some (heap s !! r)) ->
  exists s',
    alternateUUIDForItem x s = (Some (length (heap s)), s')
    /\ uuidAt s' (length (heap s)) = uuidSource s (uuidNext s)
    /\ uuidAt s' x = uuid X
    /\ (forall r, In r (referencingObjects X) ->
                  rebound (uuid X) (uuidSource s (uuidNext s)) r s')
    /\ retired x s'.
Proof.
  intros HX Hnonempty Hfind Hfresh Hrefs.
  unfold alternateUUIDForItem. rewrite HX.
  destruct (createItem_copy X s Hnonempty) as (C & -> & HC).
  unfold generateUUID. cbv beta iota zeta.
  cbn [uuidSource uuidNext with_heap heap modelManager now].
  set (n := length (heap s)).
  set (newUUID := uuidSource s (uuidNext s)) in *.
  match goal with
  | |- context [update n (with_uuid newUUID) ?s0] =>
      set (s3 := update n (with_uuid newUUID) s0)
  end.
  set (s4 := informModelsOfUUIDChangeForItem n (uuid X) newUUID s3).
  assert (Hxn : x <> n).
  { apply lookup_lt_Some in HX. unfold n. lia. }
  assert (Hx_notin : ~ In x (referencingObjects X)).
  { intros H. destruct (Hrefs x H). congruence. }
  assert (Hn_notin : ~ In n (referencingObjects X)).
  { intros H. destruct (Hrefs n H) as [_ [R HR]].
    apply lookup_lt_Some in HR. unfold n in HR. lia. }
  (* the copy is in the heap, under the new UUID *)
  assert (H3 : forall l R, heap s !! l = Some R -> heap s3 !! l = Some R).
  { intros l R HR. pose proof (lookup_lt_Some _ _ _ HR) as Hlt.
    unfold s3. rewrite lookup_update_ne by (unfold n; lia).
    cbn [heap]. rewrite lookup_app_l by exact Hlt. exact HR. }
  assert (H3n : heap s3 !! n = Some (with_uuid newUUID C)).
  { unfold s3. rewrite lookup_update_eq. cbn [heap].
    rewrite list_lookup_middle by reflexivity. reflexivity. }
  (* the other models have been told *)
  destruct (informModelsOfUUIDChangeForItem_links n (uuid X) newUUID s3)
    as [L4 M4].
  fold s4 in L4, M4.
  destruct (L4 x X (H3 x X HX)) as (X4 & H4x & HuX4 & HrX4).
  destruct (L4 n _ H3n) as (N4 & H4n & HuN4 & _).
  cbn [uuid with_uuid] in HuN4.
  assert (Hvalid4 : forall r, In r (referencingObjects X) ->
                              is_Some (heap s4 !! r)).
  { intros r Hr. destruct (Hrefs r Hr) as [_ [R HR]].
    destruct (L4 r R (H3 r R HR)) as (R4 & HR4 & _). exists R4. exact HR4. }
  assert (Hfuel : referencingObjectsAt x s4 = referencingObjects X).
  { unfold referencingObjectsAt. rewrite H4x. exact HrX4. }
  rewrite Hfuel.
  (* the loop *)
  pose proof (inheritRelationships x n (uuid X) newUUID (referencingObjects X)
                (length (referencingObjects X)) Hfresh Hx_notin Hn_notin
                0 s4 ltac:(lia)
                (ex_intro _ X4 (conj H4x (conj HuX4 HrX4)))
                (ex_intro _ N4 (conj H4n HuN4)) Hvalid4) as Hloop.
  cbv zeta in Hloop.
  assert (Q5 : heapRel quiet s4
                 (forOfLive (length (referencingObjects X))
                    (referencingObjectsAt x) (inheritRelationship x n) 0 s4)).
  { apply heapRel_forOfLive;
      [apply quiet_refl | apply quiet_trans |
       intros; apply quiet_inheritRelationship]. }
  set (s5 := forOfLive _ _ _ 0 s4) in *.
  destruct Hloop as (L5x & M5 & _ & L5).
  rewrite H4x in L5x.
  destruct (Q5 n N4 H4n) as (N5 & H5n & QN5).
  assert (HuN5 : uuid N5 = newUUID).
  { rewrite <- HuN4. apply QN5. }
  (* the original is retired and mapped *)
  set (s6 := setDirty x false _).
  set (X6 := setDirty_item false (with_references [] (with_deleted true X4))).
  assert (H6x : heap s6 !! x = Some X6).
  { unfold s6, setDirty. rewrite !lookup_update_eq, L5x. reflexivity. }
  assert (H6 : forall l, l <> x -> heap s6 !! l = heap s5 !! l).
  { intros l Hl. unfold s6, setDirty.
    rewrite !lookup_update_ne by congruence. reflexivity. }
  assert (Hfind6 : findItem s6 (uuid X6) = Some x).
  { change (uuid X6) with (uuid X4). rewrite HuX4.
    unfold findItem. change (modelManager s6) with (modelManager s5).
    rewrite M5, M4. exact Hfind. }
  rewrite H6x.
  pose proof (mapResponseItemsToLocalModels_retired x X6 s6 H6x
                eq_refl eq_refl Hfind6) as Hmap.
  set (s7 := snd (mapResponseItemsToLocalModels [jsonOfItem X6] s6)) in *.
  assert (H7x : heap s7 !! x
                = Some (with_dummy false
                          (updateFromJSON_item (now s6) (jsonOfItem X6) X6))).
  { rewrite Hmap. unfold updateFromJSON.
    rewrite !lookup_update_eq, H6x. reflexivity. }
  assert (H7 : forall l, l <> x -> heap s7 !! l = heap s5 !! l).
  { intros l Hl. rewrite Hmap. unfold updateFromJSON.
    rewrite !lookup_update_ne by congruence. apply H6, Hl. }
  eexists. split; [reflexivity|].
  split; [|split; [|split]].
  - unfold uuidAt, setDirty.
    rewrite lookup_update_eq, heap_addItem, H7, H5n by congruence.
    exact HuN5.
  - unfold uuidAt, setDirty.
    rewrite lookup_update_ne, heap_addItem, H7x by congruence.
    exact HuX4.
  - intros r Hr.
    assert (Hrx : r <> x) by (intros ->; contradiction).
    assert (Hrn : r <> n) by (intros ->; contradiction).
    apply list_elem_of_In, list_elem_of_lookup_1 in Hr.
    destruct Hr as [j Hj].
    destruct (L5 j r ltac:(lia) Hj) as (R & HR & Hrest).
    exists R. split; [|exact Hrest].
    unfold setDirty.
    rewrite lookup_update_ne, heap_addItem, H7 by congruence.
    exact HR.
  - eexists. split.
    + unfold setDirty.
      rewrite lookup_update_ne, heap_addItem by congruence. exact H7x.
    + repeat split.
Qed.

End AlternationFacts.

Section AlternationExamples.
Import Store Scenario.
Local Open Scope list_scope.

(** The note [x], referenced by the notes at 1 and 2, gets a new UUID. *)
Lemma C6_alternation_rebinds_references_witness :
  exists s',
    alternateUUIDForItem 0 linked = (Some 3, s')
    /\ uuidAt s' 3 = "fresh-0"%string
    /\ uuidAt s' 0 = "x"%string
    /\ (forall r, In r [1; 2] -> rebound "x" "fresh-0" r s')
    /\ retired 0 s'.
Proof.
  refine (C6_alternation_rebinds_references 0 referencedNote linked
            _ _ _ _ _).
  - vm_compute. reflexivity.
  - discriminate.
  - vm_compute. reflexivity.
  - vm_compute. discriminate.
  - intros r Hr. vm_compute in Hr.
    destruct Hr as [<- | [<- | []]]; (split; [lia | vm_compute; eauto]).
Defined.

(** C6 as stated fails for an item that references itself: it is in its
    own [referencingObjects], and ends with no reference at all and clean,
    as the original has to. *)
Lemma C6_counterexample :
  (exists X, heap selfReferencing !! 0 = Some X
             /\ In 0 (referencingObjects X))
  /\ exists X1,
       heap (snd (alternateUUIDForItem 0 selfReferencing)) !! 0 = Some X1
       /\ hasReferenceTo "fresh-0" X1 = false
       /\ dirty X1 = false
       /\ uuidAt (snd (alternateUUIDForItem 0 selfReferencing)) 1
          = "fresh-0"%string.
Proof.
  split.
  - eexists. split; [vm_compute; reflexivity|]. simpl. now left.
  - eexists. split; [vm_compute; reflexivity|].
    repeat split.
Qed.

End AlternationExamples.

(* ===================================================================== *)
(** * The item registry *)
(* ===================================================================== *)

Section RegistryFacts.
Import Store.
Local Open Scope list_scope.

Lemma lookupKey_setKey_eq {A : Type} (k : string) (v : A)
  (m : list (string * A)) :
  lookupKey k (setKey k v m) = Some v.
Proof.
  induction m as [|[k' v'] m IH]; simpl.
  - now rewrite String.eqb_refl.
  - destruct (String.eqb k k') eqn:E; simpl; rewrite E;
      [reflexivity | exact IH].
Qed.

Lemma lookupKey_setKey_ne {A : Type} (k k' : string) (v : A)
  (m : list (string * A)) :
  k <> k' -> lookupKey k' (setKey k v m) = lookupKey k' m.
Proof.
  intros Hne.
  assert (Hk : String.eqb k' k = false) by (apply String.eqb_neq; congruence).
  induction m as [|[k0 v0] m IH]; simpl.
  - now rewrite Hk.
  - destruct (String.eqb k k0) eqn:E; simpl.
    + apply String.eqb_eq in E. subst k0. now rewrite Hk.
    + destruct (String.eqb k' k0); [reflexivity | exact IH].
Qed.

Lemma lookupKey_deleteKey_eq {A : Type} (k : string) (m : list (string * A)) :
  lookupKey k (deleteKey k m) = None.
Proof.
  unfold deleteKey. induction m as [|[k0 v0] m IH]; simpl; [reflexivity|].
  destruct (String.eqb k k0) eqn:E; simpl; [exact IH|].
  rewrite E. exact IH.
Qed.

Lemma lookupKey_deleteKey_ne {A : Type} (k k' : string)
  (m : list (string * A)) :
  k <> k' -> lookupKey k' (deleteKey k m) = lookupKey k' m.
Proof.
  intros Hne. unfold deleteKey.
  induction m as [|[k0 v0] m IH]; simpl; [reflexivity|].
  destruct (String.eqb k k0) eqn:E; simpl.
  - apply String.eqb_eq in E. subst k0.
    replace (String.eqb k' k) with false; [exact IH|].
    symmetry. apply String.eqb_neq. congruence.
  - destruct (String.eqb k' k0); [reflexivity | exact IH].
Qed.

Lemma addItem_spec (item : loc) (I : SFItem) (s : State) :
  heap s !! item = Some I ->
  (findItem s (uuid I) = None ->
   findItem (addItem item s) (uuid I) = Some item
   /\ items (modelManager (addItem item s))
      = items (modelManager s) ++ [item])
  /\ (forall l, findItem s (uuid I) = Some l -> addItem item s = s)
  /\ (forall u, u <> uuid I -> findItem (addItem item s) u = findItem s u)
  /\ heap (addItem item s) = heap s.
Proof.
  intros HI. unfold addItem, findItem, uuidAt. rewrite HI.
  destruct (lookupKey (uuid I) (itemsHash (modelManager s))) as [l|] eqn:E.
  - repeat split; try discriminate; reflexivity.
  - split; [|split; [|split]].
    + intros _. cbn. split; [apply lookupKey_setKey_eq | reflexivity].
    + discriminate.
    + intros u Hu. cbn. apply lookupKey_setKey_ne. congruence.
    + reflexivity.
Qed.

(** [addItem]: an item whose UUID is not registered is appended to [items]
    and becomes what [findItem] returns for its UUID; when the UUID is
    registered already, nothing changes, so the first item registered
    under a UUID stays.  Other UUIDs and the items themselves are
    unaffected. *)
Theorem addItem_registers (item : loc) (I : SFItem) (s : State) :
  heap s !! item = Some I ->
  (findItem s (uuid I) = None ->
   findItem (addItem item s) (uuid I) = Some item
   /\ items (modelManager (addItem item s))
      = items (modelManager s) ++ [item])
  /\ (forall l, findItem s (uuid I) = Some l -> addItem item s = s)
  /\ (forall u, u <> uuid I -> findItem (addItem item s) u = findItem s u)
  /\ heap (addItem item s) = heap s.
Proof. exact (addItem_spec item I s). Qed.

Lemma removeItemLocally_spec (item : loc) (I : SFItem) (s : State) :
  heap s !! item = Some I ->
  findItem (removeItemLocally item s) (uuid I) = None
  /\ (forall u, u <> uuid I ->
                findItem (removeItemLocally item s) u = findItem s u)
  /\ (forall l, In l (items (modelManager (removeItemLocally item s))) <->
                In l (items (modelManager s)) /\ uuidAt s l <> uuid I)
  /\ In (uuid I) (itemsPendingRemoval (modelManager (removeItemLocally item s)))
  /\ heap (removeItemLocally item s) = heap s.
Proof.
  intros HI. unfold removeItemLocally, findItem.
  assert (Hu : uuidAt s item = uuid I) by (unfold uuidAt; now rewrite HI).
  rewrite Hu. cbn.
  split; [apply lookupKey_deleteKey_eq|].
  split; [intros u Hne; apply lookupKey_deleteKey_ne; congruence|].
  split; [|split; [apply in_or_app; right; now left | reflexivity]].
  intros l. rewrite List.filter_In, negb_true_iff, String.eqb_neq. tauto.
Qed.

(** [removeItemLocally]: afterwards [findItem] no longer knows the item's
    UUID, [items] holds no item of that UUID, and the UUID is pending
    removal; other UUIDs and the items themselves are unaffected. *)
Theorem removeItemLocally_forgets (item : loc) (I : SFItem) (s : State) :
  heap s !! item = Some I ->
  findItem (removeItemLocally item s) (uuid I) = None
  /\ (forall u, u <> uuid I ->
                findItem (removeItemLocally item s) u = findItem s u)
  /\ (forall l, In l (items (modelManager (removeItemLocally item s))) <->
                In l (items (modelManager s)) /\ uuidAt s l <> uuid I)
  /\ In (uuid I) (itemsPendingRemoval (modelManager (removeItemLocally item s)))
  /\ heap (removeItemLocally item s) = heap s.
Proof. exact (removeItemLocally_spec item I s). Qed.

End RegistryFacts.

(* ===================================================================== *)
(** * Dirty items across a sync *)
(* ===================================================================== *)

Section SyncFacts.
Import Store.
Local Open Scope list_scope.

Lemma filter_none {A : Type} (f : A -> bool) (l : list A) :
  (forall a, In a l -> f a = false) -> List.filter f l = [].
Proof.
  induction l as [|a l IH]; intros H; [reflexivity|].
  simpl. rewrite (H a) by now left.
  apply IH. intros b Hb. apply H. now right.
Qed.

Lemma filter_all {A : Type} (f : A -> bool) (l : list A) :
  (forall a, In a l -> f a = true) -> List.filter f l = l.
Proof.
  induction l as [|a l IH]; intros H; [reflexivity|].
  simpl. rewrite (H a) by now left.
  f_equal. apply IH. intros b Hb. apply H. now right.
Qed.

Lemma filter_andb {A : Type} (f g : A -> bool) (l : list A) :
  List.filter (fun a => f a && g a) l = List.filter g (List.filter f l).
Proof.
  induction l as [|a l IH]; [reflexivity|].
  simpl. destruct (f a); simpl; [|exact IH].
  destruct (g a); [f_equal|]; exact IH.
Qed.

Lemma filter_not_taken (n : nat) (D : list loc) :
  List.NoDup D ->
  List.filter (fun l => negb (existsb (Nat.eqb l) (take n D))) D = drop n D.
Proof.
  revert n. induction D as [|x D IH]; intros n Hnd; [now destruct n|].
  destruct n as [|n]; [apply filter_all; reflexivity|].
  inversion Hnd as [|? ? Hx Hnd']; subst.
  cbn [take drop List.filter existsb]. rewrite Nat.eqb_refl. cbn.
  rewrite <- (IH n Hnd'). apply List.filter_ext_in.
  intros l Hl. destruct (Nat.eqb_spec l x) as [-> | _];
    [contradiction | reflexivity].
Qed.

(** The first step of an offline sync, [clearDirtyItems(allDirtyItems)],
    leaves no dirty item. *)
Theorem clearDirtyItems_leaves_none (s : State) :
  getDirtyItems (clearDirtyItems (getDirtyItems s) s) = [].
Proof.
  unfold getDirtyItems at 1. rewrite clearDirtyItems_modelManager.
  apply filter_none. intros l Hl. rewrite clearDirtyItems_lookup.
  destruct (existsb (Nat.eqb l) (getDirtyItems s)) eqn:E.
  - destruct (heap s !! l); reflexivity.
  - destruct (heap s !! l) as [i|] eqn:Hi; [|reflexivity].
    destruct (isDirtyItem i) eqn:Hd; [|reflexivity].
    assert (Hin : In l (getDirtyItems s)).
    { unfold getDirtyItems. apply List.filter_In. split; [exact Hl|].
      now rewrite Hi. }
    apply existsb_eqb_In in Hin. congruence.
Qed.

Lemma lookup_update_None (x l : loc) (f : SFItem -> SFItem) (s : State) :
  heap s !! l = None -> heap (update x f s) !! l = None.
Proof.
  intros H. destruct (Nat.eq_dec x l) as [-> | Hne].
  - now rewrite lookup_update_eq, H.
  - now rewrite lookup_update_ne.
Qed.

Lemma setDirtyAll_lookup (ls : list loc) (s : State) (l : loc) :
  match heap s !! l with
  | Some i =>
      exists i',
        heap (fold_left (fun s x => setDirty x true s) ls s) !! l = Some i'
        /\ quiet i i'
        /\ (In l ls -> dirty i' = true)
        /\ (~ In l ls -> i' = i)
  | None =>
      heap (fold_left (fun s x => setDirty x true s) ls s) !! l = None
  end.
Proof.
  revert s. induction ls as [|x ls IH]; intros s.
  - simpl. destruct (heap s !! l) as [i|]; [|reflexivity].
    exists i. split; [reflexivity|]. split; [apply quiet_refl | tauto].
  - cbn [fold_left]. specialize (IH (setDirty x true s)).
    destruct (heap s !! l) as [i|] eqn:Hi.
    + unfold setDirty in IH at 1.
      destruct (Nat.eq_dec x l) as [-> | Hne].
      * rewrite lookup_update_eq, Hi in IH. cbn in IH.
        destruct IH as (i' & Hl & Q & Hin & Hout).
        exists i'. split; [exact Hl|].
        split; [exact (quiet_trans _ _ _ (quiet_setDirty_true i) Q)|].
        split; [|intros H; exfalso; apply H; now left].
        intros _. apply Q. reflexivity.
      * rewrite lookup_update_ne, Hi in IH by exact Hne.
        destruct IH as (i' & Hl & Q & Hin & Hout).
        exists i'. split; [exact Hl|]. split; [exact Q|].
        split.
        -- intros [-> | H]; [contradiction | exact (Hin H)].
        -- intros H. apply Hout. intros H'. apply H. now right.
    + unfold setDirty in IH at 1.
      rewrite (lookup_update_None x l _ s Hi) in IH. exact IH.
Qed.

(** After [setAllItemsDirty], the dirty items [getDirtyItems] returns are
    the registered items that are not dummies and that either decrypted or
    are deleted: an item with a decryption error is never collected for a
    sync unless it is deleted. *)
Theorem setAllItemsDirty_collects (s : State) :
  getDirtyItems (setAllItemsDirty s)
  = List.filter
      (fun l => match heap s !! l with
                | Some i => syncable i
                | None => false
                end)
      (items (modelManager s)).
Proof.
  unfold getDirtyItems, setAllItemsDirty.
  rewrite modelManager_fold_left by reflexivity.
  apply List.filter_ext_in. intros l Hl.
  pose proof (setDirtyAll_lookup (allItems s) s l) as H.
  destruct (heap s !! l) as [i|] eqn:Hi; [|now rewrite H].
  destruct H as (i' & -> & Q & Hin & Hout).
  unfold isDirtyItem, syncable.
  destruct Q as (_ & _ & _ & Hdel & Hdum & Herr & _).
  destruct (dummy i) eqn:Edummy.
  - rewrite Hout; [rewrite Edummy; now destruct (dirty i)|].
    unfold allItems. rewrite List.filter_In, Hi, Edummy. intros [_ H].
    discriminate H.
  - rewrite Hin, Hdum, Herr, Hdel; [reflexivity|].
    unfold allItems. apply List.filter_In. split; [exact Hl|].
    now rewrite Hi, Edummy.
Qed.


End SyncFacts.

(* ===================================================================== *)
(** * Relationships between two items *)
(* ===================================================================== *)

Section RelationshipFacts.
Import Store.
Local Open Scope list_scope.

Lemma uuidAt_update (x l : loc) (f : SFItem -> SFItem) (s : State) :
  (forall i, uuid (f i) = uuid i) -> uuidAt (update x f s) l = uuidAt s l.
Proof.
  intros Hf. unfold uuidAt. destruct (Nat.eq_dec x l) as [-> | Hne].
  - rewrite lookup_update_eq. destruct (heap s !! l); simpl; [apply Hf|].
    reflexivity.
  - now rewrite lookup_update_ne.
Qed.

Lemma uuidAt_setIsBeingReferencedBy (this item l : loc) (s : State) :
  uuidAt (setIsBeingReferencedBy this item s) l = uuidAt s l.
Proof.
  unfold setIsBeingReferencedBy.
  destruct (heap s !! this) as [i|]; [|reflexivity].
  destruct (notReferencedBy s (uuidAt s item) i); [|reflexivity].
  now apply uuidAt_update.
Qed.

Lemma uuidAt_setIsNoLongerBeingReferencedBy (this item l : loc) (s : State) :
  uuidAt (setIsNoLongerBeingReferencedBy this item s) l = uuidAt s l.
Proof.
  unfold setIsNoLongerBeingReferencedBy. cbv zeta.
  match goal with |- context [if ?c then _ else _] => destruct c end.
  - unfold setDirty, removeReferenceWithUuid.
    now rewrite !uuidAt_update.
  - now rewrite uuidAt_update.
Qed.

Lemma uuidAt_addItemAsRelationship (this item l : loc) (s : State) :
  uuidAt (addItemAsRelationship this item s) l = uuidAt s l.
Proof.
  unfold addItemAsRelationship. cbv zeta.
  pose proof (uuidAt_setIsBeingReferencedBy item this l s) as H1.
  destruct (hasRelationshipWithItem this item _); [exact H1|].
  destruct (heap (setIsBeingReferencedBy item this s) !! item); [|exact H1].
  now rewrite uuidAt_update.
Qed.

Lemma uuidAt_removeItemAsRelationship (this item l : loc) (s : State) :
  uuidAt (removeItemAsRelationship this item s) l = uuidAt s l.
Proof.
  unfold removeItemAsRelationship, removeReferenceWithUuid. cbv zeta.
  rewrite uuidAt_update by reflexivity.
  apply uuidAt_setIsNoLongerBeingReferencedBy.
Qed.

Lemma existsb_pointwise {A : Type} (f g : A -> bool) (l : list A) :
  (forall a, f a = g a) -> existsb f l = existsb g l.
Proof.
  intros H. induction l as [|a l IH]; [reflexivity|].
  simpl. now rewrite H, IH.
Qed.

Lemma notReferencedBy_pointwise (s s' : State) (u : string) (i i' : SFItem) :
  (forall l, uuidAt s' l = uuidAt s l) ->
  referencingObjects i' = referencingObjects i ->
  notReferencedBy s' u i' = notReferencedBy s u i.
Proof.
  intros Hu Hr. unfold notReferencedBy. rewrite Hr. f_equal.
  apply existsb_pointwise. intros l. now rewrite Hu.
Qed.

(** What [setIsBeingReferencedBy] does to its receiver. *)
Lemma setIsBeingReferencedBy_receiver (this item : loc) (s : State)
  (T : SFItem) :
  heap s !! this = Some T ->
  exists ros,
    heap (setIsBeingReferencedBy this item s) !! this
    = Some (with_referencingObjects ros T)
    /\ notReferencedBy s (uuidAt s item) (with_referencingObjects ros T)
       = false.
Proof.
  intros HT. unfold setIsBeingReferencedBy. rewrite HT.
  destruct (notReferencedBy s (uuidAt s item) T) eqn:E.
  - exists (referencingObjects T ++ [item]). split.
    + rewrite lookup_update_eq, HT. reflexivity.
    + unfold notReferencedBy. cbn [referencingObjects with_referencingObjects].
      rewrite existsb_app. cbn. rewrite String.eqb_refl.
      now rewrite orb_true_r.
  - exists (referencingObjects T). split; [|exact E].
    rewrite HT. now destruct T.
Qed.

(** [this.addItemAsRelationship(item)]: afterwards [this] has a reference
    to the UUID of [item], and [item.referencingObjects] holds an object
    with the UUID of [this]; a second call changes nothing, so neither
    array gets a duplicate; no third item is touched. *)
Theorem addItemAsRelationship_links (this item : loc) (T I : SFItem)
  (s : State) :
  heap s !! this = Some T -> heap s !! item = Some I ->
  hasRelationshipWithItem this item (addItemAsRelationship this item s) = true
  /\ (exists I', heap (addItemAsRelationship this item s) !! item = Some I'
                 /\ notReferencedBy (addItemAsRelationship this item s)
                      (uuid T) I' = false)
  /\ addItemAsRelationship this item (addItemAsRelationship this item s)
     = addItemAsRelationship this item s
  /\ (forall l, l <> this -> l <> item ->
                heap (addItemAsRelationship this item s) !! l = heap s !! l).
Proof.
  intros HT HI.
  assert (HuT : uuidAt s this = uuid T) by (unfold uuidAt; now rewrite HT).
  assert (HuI : uuidAt s item = uuid I) by (unfold uuidAt; now rewrite HI).
  assert (Hpost :
            hasRelationshipWithItem this item (addItemAsRelationship this item s)
            = true
            /\ exists I', heap (addItemAsRelationship this item s) !! item
                          = Some I'
                          /\ notReferencedBy (addItemAsRelationship this item s)
                               (uuid T) I' = false).
  { unfold addItemAsRelationship. cbv zeta.
    destruct (setIsBeingReferencedBy_receiver item this s I HI)
      as (ros & HI1 & Hback).
    rewrite HuT in Hback.
    set (s1 := setIsBeingReferencedBy item this s) in *.
    set (I1 := with_referencingObjects ros I) in *.
    assert (Hu1 : forall l, uuidAt s1 l = uuidAt s l)
      by (intros l; apply uuidAt_setIsBeingReferencedBy).
    assert (HT1 : exists T1, heap s1 !! this = Some T1).
    { destruct (Nat.eq_dec this item) as [-> | Hne]; [eauto|].
      exists T. unfold s1.
      rewrite frame_setIsBeingReferencedBy by exact Hne. exact HT. }
    destruct HT1 as [T1 HT1].
    destruct (hasRelationshipWithItem this item s1) eqn:E.
    - split; [exact E|]. exists I1. split; [exact HI1|].
      rewrite (notReferencedBy_pointwise s s1 (uuid T) I1 I1 Hu1 eq_refl).
      exact Hback.
    - rewrite HI1 in *. cbn [uuid content_type with_referencingObjects I1] in *.
      set (push := fun i : SFItem => with_references _ i) in *.
      split.
      + unfold hasRelationshipWithItem.
        rewrite lookup_update_eq, HT1. cbn [fmap option_fmap option_map].
        unfold uuidAt at 1. fold (uuidAt (update this push s1) item).
        rewrite uuidAt_update, Hu1, HuI by reflexivity. unfold push.
        rewrite hasReferenceTo_pushed, String.eqb_refl. apply orb_true_r.
      + destruct (Nat.eq_dec this item) as [Heq | Hne].
        * subst item. exists (push I1).
          split; [rewrite lookup_update_eq, HI1; reflexivity|].
          rewrite (notReferencedBy_pointwise s _ (uuid T) I1 (push I1));
            [exact Hback | | reflexivity].
          intros l. rewrite uuidAt_update by reflexivity. apply Hu1.
        * exists I1.
          split; [rewrite lookup_update_ne by exact Hne; exact HI1|].
          rewrite (notReferencedBy_pointwise s _ (uuid T) I1 I1);
            [exact Hback | | reflexivity].
          intros l. rewrite uuidAt_update by reflexivity. apply Hu1. }
  destruct Hpost as (Hrel & I' & HI' & Hback).
  split; [exact Hrel|]. split; [eauto|]. split.
  - set (s' := addItemAsRelationship this item s) in *.
    unfold addItemAsRelationship at 1. cbv zeta.
    assert (Hsame : setIsBeingReferencedBy item this s' = s').
    { unfold setIsBeingReferencedBy. rewrite HI'.
      unfold s' at 2. rewrite uuidAt_addItemAsRelationship, HuT.
      fold s'. now rewrite Hback. }
    now rewrite Hsame, Hrel.
  - intros l Hthis Hitem. now apply frame_addItemAsRelationship.
Qed.

Lemma hasReferenceTo_removeReferenceWithUuid (u v : string) (i : SFItem) :
  hasReferenceTo u (removeReferenceWithUuid_item v i) = true ->
  hasReferenceTo u i = true.
Proof.
  unfold hasReferenceTo, removeReferenceWithUuid_item. simpl.
  rewrite !existsb_exists. intros (r & Hr & E).
  apply List.filter_In in Hr. exists r. tauto.
Qed.

(** What [setIsNoLongerBeingReferencedBy] does to its receiver. *)
Lemma setIsNoLongerBeingReferencedBy_receiver (this item : loc) (s : State)
  (T : SFItem) :
  heap s !! this = Some T ->
  exists T1,
    heap (setIsNoLongerBeingReferencedBy this item s) !! this = Some T1
    /\ uuid T1 = uuid T
    /\ referencingObjects T1
       = List.filter (fun l => negb (String.eqb (uuidAt s l) (uuidAt s item)))
           (referencingObjects T)
    /\ hasReferenceTo (uuidAt s item) T1 = false.
Proof.
  intros HT. unfold setIsNoLongerBeingReferencedBy. cbv zeta.
  set (u := uuidAt s item).
  set (g := fun i : SFItem => with_referencingObjects _ i).
  set (s1 := update this g s).
  assert (HT1 : heap s1 !! this = Some (g T)).
  { unfold s1. rewrite lookup_update_eq, HT. reflexivity. }
  assert (Hu : uuidAt s1 item = u) by (apply uuidAt_update; reflexivity).
  unfold hasRelationshipWithItem. rewrite HT1, Hu.
  destruct (hasReferenceTo u (g T)) eqn:E.
  - exists (setDirty_item true (removeReferenceWithUuid_item u (g T))).
    split.
    + unfold setDirty, removeReferenceWithUuid.
      rewrite !lookup_update_eq, HT1. reflexivity.
    + repeat split. exact (hasReferenceTo_removed u (g T)).
  - exists (g T). split; [exact HT1|]. repeat split. exact E.
Qed.

Lemma removeItemAsRelationship_spec (this item : loc) (T I : SFItem)
  (s : State) :
  heap s !! this = Some T -> heap s !! item = Some I ->
  hasRelationshipWithItem this item (removeItemAsRelationship this item s)
  = false
  /\ hasRelationshipWithItem item this (removeItemAsRelationship this item s)
     = false
  /\ (exists I', heap (removeItemAsRelationship this item s) !! item = Some I'
                 /\ notReferencedBy (removeItemAsRelationship this item s)
                      (uuid T) I' = true)
  /\ (forall l, l <> this -> l <> item ->
                heap (removeItemAsRelationship this item s) !! l
                = heap s !! l).
Proof.
  intros HT HI.
  assert (HuT : uuidAt s this = uuid T) by (unfold uuidAt; now rewrite HT).
  assert (HuI : uuidAt s item = uuid I) by (unfold uuidAt; now rewrite HI).
  unfold removeItemAsRelationship. cbv zeta.
  destruct (setIsNoLongerBeingReferencedBy_receiver item this s I HI)
    as (I1 & HI1 & HuI1 & Hros & Hlegacy).
  rewrite HuT in Hros, Hlegacy.
  set (s1 := setIsNoLongerBeingReferencedBy item this s) in *.
  assert (Hu1 : uuidAt s1 item = uuid I).
  { unfold s1. now rewrite uuidAt_setIsNoLongerBeingReferencedBy. }
  rewrite Hu1 in *.
  assert (HT1 : exists T1, heap s1 !! this = Some T1
                           /\ (this <> item -> T1 = T)
                           /\ (this = item -> T1 = I1)).
  { destruct (Nat.eq_dec this item) as [Heq | Hne].
    - subst item. exists I1. split; [exact HI1|]. split; congruence.
    - exists T. split; [|split; congruence].
      unfold s1. rewrite frame_setIsNoLongerBeingReferencedBy by exact Hne.
      exact HT. }
  destruct HT1 as (T1 & HT1 & Hdiff & Hsame).
  set (s' := removeReferenceWithUuid this (uuid I) s1) in *.
  assert (HT' : heap s' !! this
                = Some (removeReferenceWithUuid_item (uuid I) T1)).
  { unfold s', removeReferenceWithUuid. rewrite lookup_update_eq, HT1.
    reflexivity. }
  assert (HI' : exists I', heap s' !! item = Some I'
                           /\ referencingObjects I' = referencingObjects I1
                           /\ hasReferenceTo (uuid T) I' = false).
  { destruct (Nat.eq_dec this item) as [Heq | Hne].
    - exists (removeReferenceWithUuid_item (uuid I) T1).
      subst item. split; [exact HT'|]. rewrite (Hsame eq_refl).
      split; [reflexivity|].
      destruct (hasReferenceTo (uuid T)
                  (removeReferenceWithUuid_item (uuid I) I1)) eqn:E;
        [|reflexivity].
      apply hasReferenceTo_removeReferenceWithUuid in E. congruence.
    - exists I1. split; [|split; [reflexivity | exact Hlegacy]].
      unfold s', removeReferenceWithUuid.
      rewrite lookup_update_ne by exact Hne. exact HI1. }
  destruct HI' as (I' & HI' & Hros' & Hlegacy').
  assert (Hu : forall l, uuidAt s' l = uuidAt s l).
  { intros l. unfold s', removeReferenceWithUuid.
    rewrite uuidAt_update by reflexivity.
    apply uuidAt_setIsNoLongerBeingReferencedBy. }
  split; [|split; [|split]].
  - unfold hasRelationshipWithItem. rewrite HT', (Hu item), HuI.
    apply hasReferenceTo_removed.
  - unfold hasRelationshipWithItem. rewrite HI', (Hu this), HuT.
    exact Hlegacy'.
  - exists I'. split; [exact HI'|].
    unfold notReferencedBy. rewrite Hros', Hros.
    apply negb_true_iff.
    destruct (existsb _ _) eqn:E; [|reflexivity].
    apply existsb_exists in E. destruct E as (l & Hl & E).
    apply List.filter_In in Hl. destruct Hl as [_ Hl].
    rewrite (Hu l) in E. rewrite E in Hl. discriminate Hl.
  - intros l Hthis Hitem. unfold s', removeReferenceWithUuid.
    rewrite lookup_update_ne by congruence.
    apply frame_setIsNoLongerBeingReferencedBy, Hitem.
Qed.

(** [this.removeItemAsRelationship(item)]: afterwards [this] has no
    reference to the UUID of [item], [item.referencingObjects] holds no
    object with the UUID of [this], and (the legacy two-way case) [item]
    has no reference to the UUID of [this] either; no third item is
    touched. *)
Theorem removeItemAsRelationship_unlinks (this item : loc) (T I : SFItem)
  (s : State) :
  heap s !! this = Some T -> heap s !! item = Some I ->
  hasRelationshipWithItem this item (removeItemAsRelationship this item s)
  = false
  /\ hasRelationshipWithItem item this (removeItemAsRelationship this item s)
     = false
  /\ (exists I', heap (removeItemAsRelationship this item s) !! item = Some I'
                 /\ notReferencedBy (removeItemAsRelationship this item s)
                      (uuid T) I' = true)
  /\ (forall l, l <> this -> l <> item ->
                heap (removeItemAsRelationship this item s) !! l
                = heap s !! l).
Proof. exact (removeItemAsRelationship_spec this item T I s). Qed.

End RelationshipFacts.

(* ===================================================================== *)
(** * The singleton resolver, outside a resolution *)
(* ===================================================================== *)

Section SingletonEdgeFacts.
Import Store.
Local Open Scope list_scope.

(** Unless some retrieved or saved item matches the handler's predicates
    and two or more items of the store do, the resolver leaves the store
    as it is and triggers no sync. *)
Theorem resolveSingleton_quiet {predicate : Type}
  (satisfies : SFItem -> predicate -> bool)
  (retrievedItems savedItems : list loc) (initialLoad : bool) (idx : nat)
  (h : SingletonHandler predicate) (s : State) :
  (filterItemsWithPredicates satisfies s retrievedItems (predicates h) = []
   /\ filterItemsWithPredicates satisfies s savedItems (predicates h) = [])
  \/ length (itemsMatchingPredicates satisfies s (predicates h)) < 2 ->
  fst (fst (resolveSingleton satisfies retrievedItems savedItems initialLoad
              idx h s)) = s
  /\ ~ In SyncTriggered
         (snd (resolveSingleton satisfies retrievedItems savedItems
                 initialLoad idx h s)).
Proof.
  intros H. unfold resolveSingleton. cbv zeta.
  destruct ((0 <? length (filterItemsWithPredicates satisfies s retrievedItems
                            (predicates h)))%nat
            || (0 <? length (filterItemsWithPredicates satisfies s savedItems
                               (predicates h)))%nat) eqn:Hsome.
  - destruct H as [[H1 H2] | H].
    { rewrite H1, H2 in Hsome. discriminate Hsome. }
    apply Nat.leb_gt in H. rewrite H.
    destruct (itemsMatchingPredicates satisfies s (predicates h))
      as [|single [|]]; try (split; [reflexivity | intros []]).
    destruct (singleton h); cbn [fst snd]; (split; [reflexivity|]);
      [intros [] |].
    unfold callback. destruct (resolutionCallback h); cbn.
    + intros [E | []]. discriminate E.
    + intros [].
  - match goal with |- context [if ?c then _ else _] => destruct c end;
      cbn [fst snd]; (split; [reflexivity|]).
    + intros [E | []]. discriminate E.
    + intros [].
Qed.

(** With no match among the retrieved and saved items, [createBlock] is
    called exactly when the handler has no singleton, the call is not the
    initial load, no creation is pending and the handler has a
    [createBlock]; the handler is then pending, and as long as it is, no
    further run calls [createBlock] again. *)
Theorem resolveSingleton_creates_once {predicate : Type}
  (satisfies : SFItem -> predicate -> bool)
  (retrievedItems savedItems : list loc) (initialLoad : bool) (idx : nat)
  (h : SingletonHandler predicate) (s : State) :
  filterItemsWithPredicates satisfies s retrievedItems (predicates h) = [] ->
  filterItemsWithPredicates satisfies s savedItems (predicates h) = [] ->
  let '(s1, h1, effects) :=
    resolveSingleton satisfies retrievedItems savedItems initialLoad idx h s in
  (In (CreateBlock idx) effects <->
     singleton h = None /\ initialLoad = false
     /\ pendingCreateBlockCallback h = false /\ createBlock h = true)
  /\ (In (CreateBlock idx) effects ->
      pendingCreateBlockCallback h1 = true
      /\ forall retrievedItems' savedItems' initialLoad' s',
           ~ In (CreateBlock idx)
               (snd (resolveSingleton satisfies retrievedItems' savedItems'
                       initialLoad' idx h1 s')))
  /\ predicates h1 = predicates h.
Proof.
  intros H1 H2. unfold resolveSingleton at 1. cbv zeta.
  rewrite H1, H2. cbn [length Nat.ltb Nat.leb orb].
  destruct (singleton h) as [l|] eqn:Hs; cbn [is_Some].
  - rewrite bool_decide_eq_true_2 by eauto. cbn.
    split; [split; [intros [] | intros [E _]; discriminate E]|].
    split; [intros [] | reflexivity].
  - rewrite bool_decide_eq_false_2 by (intros [x Hx]; discriminate Hx).
    cbn [negb andb].
    destruct initialLoad, (pendingCreateBlockCallback h) eqn:Hp,
      (createBlock h) eqn:Hc; cbn;
      try (split; [split; [intros [] | intros (_ & A & B & C); congruence]|];
           split; [intros [] | reflexivity]).
    split; [split; [tauto | intros _; now left]|].
    split; [|reflexivity].
    intros _. split; [reflexivity|].
    intros retrievedItems' savedItems' initialLoad' s'.
    unfold resolveSingleton. cbv zeta. cbn [pendingCreateBlockCallback
      with_pending predicates singleton createBlock resolutionCallback].
    destruct (_ || _)%bool.
    + destruct (_ <=? _)%nat.
      * destruct (Array_sort _ _); cbn [snd]; [intros []|].
        unfold callback. cbn.
        destruct (resolutionCallback h); cbn; intros [E | H];
          try discriminate E; try destruct H as [E | []]; try discriminate E;
          try destruct H.
      * destruct (itemsMatchingPredicates _ _ _) as [|single [|]];
          cbn [snd]; try (intros []).
        rewrite Hs. cbn [snd]. unfold callback. cbn.
        destruct (resolutionCallback h); cbn; [|intros []].
        intros [E | []]. discriminate E.
    + rewrite andb_false_r. cbn. intros [].
Qed.

End SingletonEdgeFacts.

(* ===================================================================== *)
(** * The mapper, record by record *)
(* ===================================================================== *)

Section MapperFacts.
Import Store.
Local Open Scope list_scope.

Lemma mapRecord_corrupt (omitFields : option (list string))
  (acc : State * list loc * list JsonObj) (json_obj : JsonObj) :
  corrupt json_obj = true -> mapRecord omitFields acc json_obj = acc.
Proof.
  intros H. unfold mapRecord. destruct acc as [[s models] processed].
  unfold corrupt in H. now rewrite H.
Qed.

(** Records that lack a content type, a content or a UUID, and are
    neither deleted nor marked [errorDecrypting], are skipped: a batch of
    such records yields no model and leaves the store, the registry, the
    pending removals and the missed references as they were. *)
Theorem mapper_skips_corrupt_records (records : list JsonObj)
  (omitFields : option (list string)) (s : State) :
  forallb corrupt records = true ->
  mapResponseItemsToLocalModelsOmittingFields records omitFields s = ([], s).
Proof.
  intros H. unfold mapResponseItemsToLocalModelsOmittingFields.
  assert (E : fold_left (mapRecord omitFields) records (s, [], [])
              = (s, [], [])).
  { generalize (s, @nil loc, @nil JsonObj).
    induction records as [|j records IH]; intros acc; [reflexivity|].
    cbn [forallb] in H. apply andb_true_iff in H as [Hj H].
    cbn [fold_left]. rewrite (mapRecord_corrupt _ _ _ Hj). now apply IH. }
  rewrite E. reflexivity.
Qed.

Lemma mapResponseItemsToLocalModels_none (j : JsonObj) (s s' : State) :
  mapRecord None (s, [], []) j = (s', [], []) ->
  mapResponseItemsToLocalModels [j] s = ([], s').
Proof.
  intros E. unfold mapResponseItemsToLocalModels,
    mapResponseItemsToLocalModelsOmittingFields.
  cbn [fold_left]. rewrite E. reflexivity.
Qed.

(** A record whose UUID is pending removal (and that no item is
    registered under) is dropped, and its UUID is taken off the pending
    list: nothing else changes. *)
Theorem mapper_drops_pending_removal (j : JsonObj) (s : State) :
  corrupt j = false ->
  In (j_uuid j) (itemsPendingRemoval (modelManager s)) ->
  findItem s (j_uuid j) = None ->
  mapResponseItemsToLocalModels [j] s
  = ([], with_modelManager
           (with_itemsPendingRemoval
              (List.filter (fun u => negb (String.eqb u (j_uuid j)))
                 (itemsPendingRemoval (modelManager s)))
              (modelManager s)) s)
  /\ ~ In (j_uuid j)
         (List.filter (fun u => negb (String.eqb u (j_uuid j)))
            (itemsPendingRemoval (modelManager s))).
Proof.
  intros Hok Hpending Hfind. split.
  - apply mapResponseItemsToLocalModels_none. unfold mapRecord.
    unfold corrupt in Hok. rewrite Hok. cbv zeta. rewrite Hfind.
    replace (existsb (String.eqb (j_uuid j))
               (itemsPendingRemoval (modelManager s))) with true;
      [reflexivity|].
    symmetry. apply existsb_exists. exists (j_uuid j).
    split; [exact Hpending | apply String.eqb_refl].
  - rewrite List.filter_In, String.eqb_refl. intros [_ H]. discriminate H.
Qed.

(** A deletion record (deleted, not dirty) for a registered item whose
    UUID is not pending removal, in a store that accepts every content
    type: the item is updated from the record and removed locally; its
    UUID is no longer found and is now pending removal.  No model is
    returned and no other item is touched. *)
Theorem mapper_removes_deleted_item (j : JsonObj) (x : loc) (X : SFItem)
  (s : State) :
  j_deleted j = true -> default false (j_dirty j) = false ->
  findItem s (j_uuid j) = Some x -> heap s !! x = Some X ->
  ~ In (j_uuid j) (itemsPendingRemoval (modelManager s)) ->
  acceptableContentTypes (modelManager s) = None ->
  exists s',
    mapResponseItemsToLocalModels [j] s = ([], s')
    /\ findItem s' (j_uuid j) = None
    /\ In (j_uuid j) (itemsPendingRemoval (modelManager s'))
    /\ ~ In x (items (modelManager s'))
    /\ heap s' !! x
       = Some (with_dummy false (updateFromJSON_item (now s) j X))
    /\ (forall u, u <> j_uuid j -> findItem s' u = findItem s u)
    /\ (forall l, l <> x -> heap s' !! l = heap s !! l).
Proof.
  intros Hdeleted Hdirty Hfind HX Hpending Hacc.
  set (s1 := update x (with_dummy false) (updateFromJSON x j s)).
  assert (H1 : heap s1 !! x
               = Some (with_dummy false (updateFromJSON_item (now s) j X))).
  { unfold s1, updateFromJSON. rewrite !lookup_update_eq, HX. reflexivity. }
  assert (Hu1 : uuidAt s1 x = j_uuid j).
  { unfold uuidAt. rewrite H1. reflexivity. }
  exists (removeItemLocally x s1).
  destruct (removeItemLocally_spec x _ s1 H1)
    as (F1 & F2 & F3 & F4 & F5).
  cbn [uuid with_dummy updateFromJSON_item] in F1, F2, F3, F4.
  split; [|split; [exact F1 | split; [exact F4 | split; [|split; [|split]]]]].
  - apply mapResponseItemsToLocalModels_none. unfold mapRecord.
    rewrite Hdeleted, Hdirty. cbn [negb].
    rewrite andb_false_r. cbn [andb]. cbv zeta. rewrite Hfind. fold s1.
    change (modelManager s1) with (modelManager s).
    replace (existsb (String.eqb (j_uuid j))
               (itemsPendingRemoval (modelManager s))) with false.
    2:{ symmetry. apply not_true_is_false. intros E.
        apply existsb_exists in E. destruct E as (u & Hu & E).
        apply String.eqb_eq in E. subst u. contradiction. }
    rewrite Hacc. reflexivity.
  - intros Hin. apply F3 in Hin. destruct Hin as [_ Hne]. contradiction.
  - rewrite F5. exact H1.
  - intros u Hu. rewrite (F2 u Hu). reflexivity.
  - intros l Hl. rewrite F5. unfold s1, updateFromJSON.
    now rewrite !lookup_update_ne by congruence.
Qed.


(** ** A new record *)

Lemma registry_same_manager (s s' : State) :
  modelManager s' = modelManager s -> registry s' = registry s.
Proof. intros H. unfold registry. now rewrite H. Qed.

Lemma registry_fold_left {A : Type} (f : State -> A -> State) (xs : list A)
  (s : State) :
  (forall s a, registry (f s a) = registry s) ->
  registry (fold_left f xs s) = registry s.
Proof.
  intros Hf. revert s. induction xs as [|a xs IH]; intros s; [reflexivity|].
  simpl. rewrite IH. apply Hf.
Qed.

Lemma modelManager_setDirty (l : loc) (flag : bool) (s : State) :
  modelManager (setDirty l flag s) = modelManager s.
Proof. reflexivity. Qed.

Lemma registry_resolveReferencesForItem (item : loc) (mark : bool)
  (s : State) :
  registry (resolveReferencesForItem item mark s) = registry s.
Proof.
  unfold resolveReferencesForItem.
  destruct (heap s !! item) as [i|]; [|reflexivity].
  apply registry_fold_left. intros s0 [missingRefId [r|]].
  - apply registry_same_manager.
    destruct mark; [rewrite modelManager_setDirty|];
      apply modelManager_addItemAsRelationship.
  - destruct (lookupKey _ _); reflexivity.
Qed.

Lemma quiet_resolveReferencesForItem (item : loc) (mark : bool) (s : State) :
  heapRel quiet s (resolveReferencesForItem item mark s).
Proof.
  unfold resolveReferencesForItem.
  destruct (heap s !! item) as [i|]; [|apply heapRel_refl, quiet_refl].
  apply heapRel_fold_left; [apply quiet_refl | apply quiet_trans |].
  intros s0 [missingRefId [r|]].
  - destruct mark; [|apply quiet_addItemAsRelationship].
    eapply heapRel_trans; [apply quiet_trans | | apply quiet_setDirty].
    apply quiet_addItemAsRelationship.
  - destruct (lookupKey _ _); [apply heapRel_refl, quiet_refl|].
    apply heapRel_with_modelManager, quiet_refl.
Qed.

Lemma popMissedReferenceStructsForObjects_state (objects : list JsonObj)
  (s : State) :
  registry (snd (popMissedReferenceStructsForObjects objects s)) = registry s
  /\ heap (snd (popMissedReferenceStructsForObjects objects s)) = heap s.
Proof.
  unfold popMissedReferenceStructsForObjects.
  destruct objects; split; reflexivity.
Qed.

Lemma findItem_registry (s s' : State) (u : string) :
  registry s' = registry s -> findItem s' u = findItem s u.
Proof.
  unfold registry, findItem. intros H. injection H as H1 H2 H3 H4.
  now rewrite H2.
Qed.

Lemma items_registry (s s' : State) :
  registry s' = registry s ->
  items (modelManager s') = items (modelManager s).
Proof. unfold registry. intros H. now injection H as H1 H2 H3 H4. Qed.

(** A record with a UUID that is not corrupt, not a plain deletion, not
    known and not pending removal, in a store that accepts every content
    type: the mapper creates one item for it, at a fresh place, registers
    it under the record's UUID and returns it; the item carries the
    record's UUID, content type and deletion flag and is no dummy.  Other
    UUIDs resolve as before, and the items that were there keep their
    identity, flags and dates. *)
Theorem mapper_registers_new_record (j : JsonObj) (s : State) :
  corrupt j = false -> j_uuid j <> EmptyString ->
  j_deleted j && negb (default false (j_dirty j)) = false ->
  findItem s (j_uuid j) = None ->
  ~ In (j_uuid j) (itemsPendingRemoval (modelManager s)) ->
  acceptableContentTypes (modelManager s) = None ->
  exists s' i,
    mapResponseItemsToLocalModels [j] s = ([length (heap s)], s')
    /\ findItem s' (j_uuid j) = Some (length (heap s))
    /\ items (modelManager s') = items (modelManager s) ++ [length (heap s)]
    /\ heap s' !! length (heap s) = Some i
    /\ uuid i = j_uuid j /\ content_type i = j_content_type j
    /\ deleted i = j_deleted j /\ dummy i = false
    /\ (forall u, u <> j_uuid j -> findItem s' u = findItem s u)
    /\ heapRel quiet s s'.
Proof.
  intros Hok Huuid Hlive Hfind Hpending Hacc.
  set (n := length (heap s)).
  set (blank := {| uuid := EmptyString; content_type := EmptyString;
                   references := []; referencingObjects := [];
                   created_at := 0%Z; deleted := false; dirty := false;
                   dirtyCount := None; dummy := false;
                   errorDecrypting := false |}).
  set (i0 := updateFromJSON_item (now s) j blank).
  set (s1 := with_heap (heap s ++ [i0]) s).
  assert (Hcreate : createItem j s = (n, s1)).
  { unfold createItem, newSFItem. cbv zeta. fold blank. fold i0.
    change (uuid i0) with (j_uuid j).
    rewrite (proj2 (String.eqb_neq _ _) Huuid). reflexivity. }
  assert (H1n : heap s1 !! n = Some i0).
  { unfold s1, n. cbn [heap with_heap].
    now rewrite list_lookup_middle by reflexivity. }
  assert (H1 : heapRel quiet s s1).
  { intros l i Hl. exists i. split; [|apply quiet_refl].
    unfold s1. cbn [heap with_heap].
    rewrite lookup_app_l by (eapply lookup_lt_Some, Hl). exact Hl. }
  set (s2 := addItem n s1).
  destruct (addItem_spec n i0 s1 H1n) as (Hadd & _ & Hother & Hheap2).
  change (uuid i0) with (j_uuid j) in Hadd, Hother.
  destruct (Hadd Hfind) as (Hfind2 & Hitems2).
  fold s2 in Hfind2, Hitems2, Hother, Hheap2.
  assert (Hmap : mapRecord None (s, [], []) j = (s2, [n], [j])).
  { unfold mapRecord. unfold corrupt in Hok. rewrite Hok. cbv zeta.
    rewrite Hfind.
    replace (existsb (String.eqb (j_uuid j))
               (itemsPendingRemoval (modelManager s))) with false.
    2:{ symmetry. apply not_true_is_false. intros E.
        apply existsb_exists in E. destruct E as (u & Hu & E).
        apply String.eqb_eq in E. subst u. contradiction. }
    rewrite Hacc, Hlive, Hcreate. reflexivity. }
  unfold mapResponseItemsToLocalModels,
    mapResponseItemsToLocalModelsOmittingFields.
  cbn [fold_left]. rewrite Hmap. cbn [combine fold_left].
  set (s3 := if hasContent j then resolveReferencesForItem n false s2 else s2).
  assert (R3 : registry s3 = registry s2).
  { unfold s3. destruct (hasContent j); [|reflexivity].
    apply registry_resolveReferencesForItem. }
  assert (Q3 : heapRel quiet s2 s3).
  { unfold s3. destruct (hasContent j);
      [apply quiet_resolveReferencesForItem | apply heapRel_refl, quiet_refl]. }
  destruct (popMissedReferenceStructsForObjects_state [j] s3) as (R4 & H4).
  destruct (popMissedReferenceStructsForObjects [j] s3) as [missed s4].
  cbn [snd] in R4, H4. cbn [last].
  set (s5 := fold_left _ missed s4).
  assert (R5 : registry s5 = registry s4).
  { apply registry_fold_left. intros s0 ref. apply registry_same_manager.
    apply modelManager_addItemAsRelationship. }
  assert (Q5 : heapRel quiet s4 s5).
  { apply heapRel_fold_left; [apply quiet_refl | apply quiet_trans |].
    intros s0 ref. apply quiet_addItemAsRelationship. }
  assert (Q : heapRel quiet s2 s5).
  { eapply heapRel_trans; [apply quiet_trans | exact Q3 |].
    intros l i Hl. apply Q5. now rewrite H4. }
  assert (R : registry s5 = registry s2) by (now rewrite R5, R4, R3).
  destruct (Q n i0) as (i & Hi & Qi); [now rewrite Hheap2|].
  destruct Qi as (Q1 & Q2 & _ & Q4 & Q5' & _).
  exists s5, i. split; [reflexivity|].
  split; [now rewrite (findItem_registry _ _ _ R)|].
  split.
  { now rewrite (items_registry _ _ R). }
  split; [exact Hi|].
  split; [exact Q1|]. split.
  { rewrite Q2. unfold i0. cbn [content_type updateFromJSON_item blank].
    reflexivity. }
  split; [exact Q4|]. split; [exact Q5'|]. split.
  - intros u Hu. rewrite (findItem_registry _ _ _ R). apply Hother.
    congruence.
  - eapply heapRel_trans; [apply quiet_trans | exact H1 |].
    intros l i' Hl. apply Q. now rewrite Hheap2.
Qed.

End MapperFacts.

(* ===================================================================== *)
(** * Missed references and UUID changes *)
(* ===================================================================== *)

Section ReferenceFacts.
Import Js Store.
Local Open Scope list_scope.

(** [popMissedReferenceStructsForObjects] compares the first characters
    of every key, as many as the UUID of the first object has, with the
    UUIDs of the objects.  When the keys were built by
    [missedReferenceBuildKey] from reference UUIDs of that length, this
    pops exactly the entries that wait for one of the objects, in the
    order of the keys, and leaves the others. *)
Theorem popMissedReferenceStructsForObjects_awaited (first : JsonObj)
  (rest : list JsonObj) (s : State) :
  (forall key ref,
      In (key, ref) (missedReferences (modelManager s)) ->
      String.length (reference_uuid ref) = String.length (j_uuid first)
      /\ exists objectId,
           key = missedReferenceBuildKey (reference_uuid ref) objectId) ->
  fst (popMissedReferenceStructsForObjects (first :: rest) s)
  = map snd
      (List.filter
         (fun kv => existsb (String.eqb (reference_uuid (snd kv)))
                      (map j_uuid (first :: rest)))
         (missedReferences (modelManager s)))
  /\ missedReferences
       (modelManager
          (snd (popMissedReferenceStructsForObjects (first :: rest) s)))
     = List.filter
         (fun kv => negb (existsb (String.eqb (reference_uuid (snd kv)))
                            (map j_uuid (first :: rest))))
         (missedReferences (modelManager s))
  /\ registry (snd (popMissedReferenceStructsForObjects (first :: rest) s))
     = registry s
  /\ heap (snd (popMissedReferenceStructsForObjects (first :: rest) s))
     = heap s.
Proof.
  intros Hkeys.
  assert (Hmatch : forall kv,
             In kv (missedReferences (modelManager s)) ->
             substring (fst kv) 0 (String.length (j_uuid first))
             = reference_uuid (snd kv)).
  { intros [key ref] Hin. destruct (Hkeys key ref Hin) as (Hlen & obj & ->).
    cbn [fst snd]. unfold missedReferenceBuildKey. rewrite <- Hlen.
    apply substring_take. }
  unfold popMissedReferenceStructsForObjects. cbv zeta. cbn [fst snd].
  split; [|split; [|split; reflexivity]].
  - f_equal. apply List.filter_ext_in. intros kv Hin.
    now rewrite (Hmatch kv Hin).
  - cbn. apply List.filter_ext_in. intros kv Hin.
    now rewrite (Hmatch kv Hin).
Qed.

(** ** [informModelsOfUUIDChangeForItem] *)

Lemma renameReferences_spec (oldUUID newUUID : string)
  (refs : list Reference) :
  oldUUID <> newUUID ->
  let '(refs', n) := renameReferences oldUUID newUUID refs in
  existsb (fun r => String.eqb (r_uuid r) oldUUID) refs' = false
  /\ existsb (fun r => String.eqb (r_uuid r) newUUID) refs'
     = existsb (fun r => String.eqb (r_uuid r) newUUID) refs
       || existsb (fun r => String.eqb (r_uuid r) oldUUID) refs
  /\ length refs' = length refs
  /\ (existsb (fun r => String.eqb (r_uuid r) oldUUID) refs = true ->
      exists m, n = S m)
  /\ (existsb (fun r => String.eqb (r_uuid r) oldUUID) refs = false ->
      refs' = refs /\ n = O).
Proof.
  intros Hne.
  assert (Hno : String.eqb newUUID oldUUID = false)
    by (apply String.eqb_neq; congruence).
  induction refs as [|r refs IH]; [simpl; repeat split; auto; discriminate|].
  cbn [renameReferences].
  destruct (renameReferences oldUUID newUUID refs) as [refs' n].
  destruct IH as (I1 & I2 & I3 & I4 & I5).
  destruct (String.eqb (r_uuid r) oldUUID) eqn:E.
  - cbn [existsb r_uuid length]. rewrite Hno, String.eqb_refl, I1, I2, I3, E.
    cbn [orb]. apply String.eqb_eq in E. rewrite E.
    replace (String.eqb oldUUID newUUID) with false
      by (symmetry; apply String.eqb_neq; exact Hne).
    repeat split; eauto; try discriminate.
    cbn [orb]. now rewrite orb_true_r.
  - cbn [existsb length]. rewrite E, I1, I2, I3. cbn [orb].
    split; [reflexivity|]. split.
    { now destruct (String.eqb (r_uuid r) newUUID). }
    split; [reflexivity|]. split; [exact I4|].
    intros H. destruct (I5 H) as [-> ->]. split; reflexivity.
Qed.

Lemma iter_setDirty_item (n : nat) (i : SFItem) :
  references (Nat.iter n (setDirty_item true) i) = references i
  /\ (forall m, n = S m -> dirty (Nat.iter n (setDirty_item true) i) = true).
Proof.
  induction n as [|n [IH1 IH2]]; [split; [reflexivity | discriminate]|].
  simpl. split; [exact IH1 | reflexivity].
Qed.

Lemma potentialItemOfInterestHasChangedItsUUID_item_spec
  (oldUUID newUUID : string) (i : SFItem) :
  oldUUID <> newUUID ->
  let i' := potentialItemOfInterestHasChangedItsUUID_item oldUUID newUUID i in
  hasReferenceTo oldUUID i' = false
  /\ hasReferenceTo newUUID i'
     = hasReferenceTo newUUID i || hasReferenceTo oldUUID i
  /\ length (references i') = length (references i)
  /\ (hasReferenceTo oldUUID i = true -> dirty i' = true)
  /\ (hasReferenceTo oldUUID i = false -> i' = i).
Proof.
  intros Hne. unfold potentialItemOfInterestHasChangedItsUUID_item,
    hasReferenceTo.
  pose proof (renameReferences_spec oldUUID newUUID (references i) Hne) as H.
  destruct (renameReferences oldUUID newUUID (references i)) as [refs n].
  destruct H as (H1 & H2 & H3 & H4 & H5). cbv zeta.
  destruct (iter_setDirty_item n (with_references refs i)) as [R D].
  rewrite R. cbn [references with_references].
  split; [exact H1|]. split; [exact H2|]. split; [exact H3|]. split.
  - intros H. destruct (H4 H) as [m ->]. now apply (D m).
  - intros H. destruct (H5 H) as [-> ->]. simpl. now destruct i.
Qed.

(** After [informModelsOfUUIDChangeForItem(newItem, oldUUID, newUUID)]
    with two different UUIDs, no registered item has a reference to
    [oldUUID]; a registered item has a reference to [newUUID] exactly when
    it had one to either UUID, keeps the number of its references, and is
    dirty if it had one to [oldUUID]; an item that had none, and every
    item that is not registered, is left as it was. *)
Theorem informModelsOfUUIDChangeForItem_renames (newItem : loc)
  (oldUUID newUUID : string) (s : State) (l : loc) (i : SFItem) :
  oldUUID <> newUUID -> heap s !! l = Some i ->
  exists i',
    heap (informModelsOfUUIDChangeForItem newItem oldUUID newUUID s) !! l
    = Some i'
    /\ (In l (items (modelManager s)) ->
        hasReferenceTo oldUUID i' = false
        /\ hasReferenceTo newUUID i'
           = hasReferenceTo newUUID i || hasReferenceTo oldUUID i
        /\ length (references i') = length (references i)
        /\ (hasReferenceTo oldUUID i = true -> dirty i' = true))
    /\ (hasReferenceTo oldUUID i = false \/ ~ In l (items (modelManager s)) ->
        i' = i).
Proof.
  intros Hne Hl. unfold informModelsOfUUIDChangeForItem.
  set (f := potentialItemOfInterestHasChangedItsUUID_item oldUUID newUUID).
  assert (Hf : forall i0, f (f i0) = f i0).
  { intros i0.
    destruct (potentialItemOfInterestHasChangedItsUUID_item_spec
                oldUUID newUUID i0 Hne) as (H1 & _).
    fold f in H1.
    destruct (potentialItemOfInterestHasChangedItsUUID_item_spec
                oldUUID newUUID (f i0) Hne) as (_ & _ & _ & _ & H5).
    exact (H5 H1). }
  change (fold_left _ (items (modelManager s)) s)
    with (fold_left (fun s x => update x f s) (items (modelManager s)) s).
  rewrite (updateAll_lookup f _ s l Hf), Hl.
  destruct (potentialItemOfInterestHasChangedItsUUID_item_spec
              oldUUID newUUID i Hne) as (H1 & H2 & H3 & H4 & H5).
  fold f in H1, H2, H3, H4, H5.
  destruct (existsb (Nat.eqb l) (items (modelManager s))) eqn:E.
  - exists (f i). split; [reflexivity|]. split; [tauto|].
    intros [H | H]; [exact (H5 H)|].
    apply existsb_eqb_In in E. contradiction.
  - exists i. split; [reflexivity|]. split; [|reflexivity].
    intros H. apply existsb_eqb_In in H. congruence.
Qed.

End ReferenceFacts.

(* ===================================================================== *)
(** * Deleting an item *)
(* ===================================================================== *)

Section DeletionFacts.
Import Store.
Local Open Scope list_scope.

Lemma shrinks_refl (i : SFItem) : shrinks i i.
Proof. split; [reflexivity | auto]. Qed.

Lemma shrinks_trans (a b c : SFItem) : shrinks a b -> shrinks b c -> shrinks a c.
Proof. intros [A1 A2] [B1 B2]. split; [congruence | auto]. Qed.

Lemma shrinks_setDirty_item (flag : bool) (i : SFItem) :
  shrinks i (setDirty_item flag i).
Proof. split; [reflexivity | auto]. Qed.

Lemma shrinks_removeReferenceWithUuid_item (u : string) (i : SFItem) :
  shrinks i (removeReferenceWithUuid_item u i).
Proof.
  split; [reflexivity|]. intros r Hr. simpl in Hr.
  now apply List.filter_In in Hr.
Qed.

Lemma hasReferenceTo_shrinks (u : string) (a b : SFItem) :
  shrinks a b -> hasReferenceTo u a = false -> hasReferenceTo u b = false.
Proof.
  intros [_ H] Ha. unfold hasReferenceTo in *.
  apply not_true_is_false. intros Hb. apply existsb_exists in Hb.
  destruct Hb as (r & Hr & E).
  assert (Ht : existsb (fun r => String.eqb (r_uuid r) u) (references a) = true).
  { apply existsb_exists. exists r. split; [apply H, Hr | exact E]. }
  congruence.
Qed.

Lemma shrinks_setDirty (l : loc) (flag : bool) (s : State) :
  heapRel shrinks s (setDirty l flag s).
Proof.
  apply heapRel_update; [apply shrinks_refl | apply shrinks_setDirty_item].
Qed.

Lemma shrinks_removeReferenceWithUuid (l : loc) (u : string) (s : State) :
  heapRel shrinks s (removeReferenceWithUuid l u s).
Proof.
  apply heapRel_update;
    [apply shrinks_refl | intros; apply shrinks_removeReferenceWithUuid_item].
Qed.

Lemma shrinks_setIsNoLongerBeingReferencedBy (this item : loc) (s : State) :
  heapRel shrinks s (setIsNoLongerBeingReferencedBy this item s).
Proof.
  unfold setIsNoLongerBeingReferencedBy. cbv zeta.
  set (s1 := update this _ s).
  assert (H1 : heapRel shrinks s s1).
  { apply heapRel_update; [apply shrinks_refl|].
    intros i. split; [reflexivity | auto]. }
  destruct (hasRelationshipWithItem this item s1); [|exact H1].
  eapply heapRel_trans; [apply shrinks_trans | exact H1 |].
  eapply heapRel_trans; [apply shrinks_trans | | apply shrinks_setDirty].
  apply shrinks_removeReferenceWithUuid.
Qed.

Lemma shrinks_removeItemAsRelationship (this item : loc) (s : State) :
  heapRel shrinks s (removeItemAsRelationship this item s).
Proof.
  unfold removeItemAsRelationship.
  eapply heapRel_trans; [apply shrinks_trans | |
                         apply shrinks_removeReferenceWithUuid].
  apply shrinks_setIsNoLongerBeingReferencedBy.
Qed.

Lemma shrinks_removeDirectRelationship (item : loc) (s : State)
  (r : Reference) :
  heapRel shrinks s (removeDirectRelationship item s r).
Proof.
  unfold removeDirectRelationship.
  destruct (findItem s (r_uuid r)) as [relationship|];
    [|apply heapRel_refl, shrinks_refl].
  set (s1 := removeItemAsRelationship item relationship s).
  assert (H1 : heapRel shrinks s s1) by apply shrinks_removeItemAsRelationship.
  destruct (hasRelationshipWithItem relationship item s1); [|exact H1].
  eapply heapRel_trans; [apply shrinks_trans | exact H1 |].
  eapply heapRel_trans; [apply shrinks_trans | | apply shrinks_setDirty].
  apply shrinks_removeItemAsRelationship.
Qed.

Lemma shrinks_removeIndirectRelationship (item object : loc) (s : State) :
  heapRel shrinks s (removeIndirectRelationship item object s).
Proof.
  unfold removeIndirectRelationship.
  eapply heapRel_trans; [apply shrinks_trans | | apply shrinks_setDirty].
  apply shrinks_removeItemAsRelationship.
Qed.

Lemma modelManager_removeItemAsRelationship (this item : loc) (s : State) :
  modelManager (removeItemAsRelationship this item s) = modelManager s.
Proof.
  unfold removeItemAsRelationship, removeReferenceWithUuid.
  rewrite modelManager_update.
  apply modelManager_setIsNoLongerBeingReferencedBy.
Qed.

Lemma modelManager_removeDirectRelationship (item : loc) (s : State)
  (r : Reference) :
  modelManager (removeDirectRelationship item s r) = modelManager s.
Proof.
  unfold removeDirectRelationship.
  destruct (findItem s (r_uuid r)) as [relationship|]; [|reflexivity].
  destruct (hasRelationshipWithItem _ _ _).
  - rewrite modelManager_setDirty, !modelManager_removeItemAsRelationship.
    reflexivity.
  - apply modelManager_removeItemAsRelationship.
Qed.

Lemma modelManager_removeIndirectRelationship (item object : loc)
  (s : State) :
  modelManager (removeIndirectRelationship item object s) = modelManager s.
Proof.
  unfold removeIndirectRelationship. rewrite modelManager_setDirty.
  apply modelManager_removeItemAsRelationship.
Qed.

Lemma modelManager_forOfLive {A : Type} (fuel : nat)
  (array : State -> list A) (body : A -> State -> State) (index : nat)
  (s : State) :
  (forall x s, modelManager (body x s) = modelManager s) ->
  modelManager (forOfLive fuel array body index s) = modelManager s.
Proof.
  intros Hbody. revert index s.
  induction fuel as [|fuel IH]; intros index s; [reflexivity|].
  simpl. destruct (array s !! index); [|reflexivity].
  rewrite IH. apply Hbody.
Qed.

Lemma registryConsistent_heapRel (s s' : State) :
  heapRel shrinks s s' -> modelManager s' = modelManager s ->
  registryConsistent s -> registryConsistent s'.
Proof.
  intros Hrel Hm Hs u l Hfind. unfold findItem in Hfind. rewrite Hm in Hfind.
  destruct (Hs u l Hfind) as (L & HL & Hu).
  destruct (Hrel l L HL) as (L' & HL' & Hu' & _).
  exists L'. split; [exact HL' | congruence].
Qed.

(** One step of the first loop. *)
Lemma removeDirectRelationship_step (x : loc) (s : State) (ref : Reference)
  (Xc : SFItem) :
  registryConsistent s -> heap s !! x = Some Xc ->
  exists X1,
    heap (removeDirectRelationship x s ref) !! x = Some X1
    /\ shrinks Xc X1
    /\ (findItem s (r_uuid ref) <> None ->
        hasReferenceTo (r_uuid ref) X1 = false).
Proof.
  intros Hs HX.
  destruct (shrinks_removeDirectRelationship x s ref x Xc HX)
    as (X1 & HX1 & S1).
  exists X1. split; [exact HX1|]. split; [exact S1|].
  intros Hfound. unfold removeDirectRelationship in HX1.
  destruct (findItem s (r_uuid ref)) as [rel|] eqn:Hfind; [|congruence].
  destruct (Hs _ _ Hfind) as (L & HL & HuL).
  destruct (removeItemAsRelationship_spec x rel Xc L s HX HL)
    as (Hgone & _).
  set (sa := removeItemAsRelationship x rel s) in *.
  destruct (shrinks_removeItemAsRelationship x rel s x Xc HX)
    as (Xa & HXa & _).
  fold sa in HXa.
  unfold hasRelationshipWithItem in Hgone. rewrite HXa in Hgone.
  assert (Hu : uuidAt sa rel = r_uuid ref).
  { unfold sa. rewrite uuidAt_removeItemAsRelationship.
    unfold uuidAt. now rewrite HL. }
  rewrite Hu in Hgone.
  assert (Sa1 : shrinks Xa X1).
  { destruct (hasRelationshipWithItem rel x sa).
    - assert (H : heapRel shrinks sa
                    (setDirty rel true (removeItemAsRelationship rel x sa))).
      { eapply heapRel_trans;
          [apply shrinks_trans | | apply shrinks_setDirty].
        apply shrinks_removeItemAsRelationship. }
      destruct (H x Xa HXa) as (X1' & HX1' & S). congruence.
    - assert (X1 = Xa) by congruence. subst. apply shrinks_refl. }
  exact (hasReferenceTo_shrinks _ _ _ Sa1 Hgone).
Qed.

(** The first loop. *)
Lemma removeDirectRelationships_spec (x : loc) (refs : list Reference) :
  forall (s : State) (Xc : SFItem),
    registryConsistent s -> heap s !! x = Some Xc ->
    exists X',
      heap (fold_left (removeDirectRelationship x) refs s) !! x = Some X'
      /\ shrinks Xc X'
      /\ (forall r ref, In r (references X') -> In ref refs ->
                        r_uuid r = r_uuid ref ->
                        findItem s (r_uuid ref) = None)
      /\ modelManager (fold_left (removeDirectRelationship x) refs s)
         = modelManager s.
Proof.
  induction refs as [|ref refs IH]; intros s Xc Hs HX.
  - exists Xc. split; [exact HX|]. split; [apply shrinks_refl|].
    split; [intros r ref _ []|reflexivity].
  - cbn [fold_left].
    destruct (removeDirectRelationship_step x s ref Xc Hs HX)
      as (X1 & HX1 & S1 & Hgone).
    set (s1 := removeDirectRelationship x s ref) in *.
    assert (Hm1 : modelManager s1 = modelManager s)
      by apply modelManager_removeDirectRelationship.
    assert (Hs1 : registryConsistent s1).
    { apply (registryConsistent_heapRel s s1);
        [apply shrinks_removeDirectRelationship | exact Hm1 | exact Hs]. }
    destruct (IH s1 X1 Hs1 HX1) as (X' & HX' & S' & Hrest & Hm').
    exists X'. split; [exact HX'|].
    split; [exact (shrinks_trans _ _ _ S1 S')|].
    split; [|now rewrite Hm', Hm1].
    intros r ref' Hr [<- | Hin] Heq.
    + destruct (findItem s (r_uuid ref)) eqn:Hfind; [|reflexivity].
      exfalso.
      assert (Hno : hasReferenceTo (r_uuid ref) X' = false).
      { apply (hasReferenceTo_shrinks _ _ _ S'), Hgone. congruence. }
      unfold hasReferenceTo in Hno.
      assert (Hyes : existsb (fun r0 => String.eqb (r_uuid r0) (r_uuid ref))
                       (references X') = true).
      { apply existsb_exists. exists r. split; [exact Hr|].
        now apply String.eqb_eq. }
      congruence.
    + specialize (Hrest r ref' Hr Hin Heq).
      unfold findItem in *. now rewrite <- Hm1.
Qed.

Lemma setItemToBeDeleted_spec (x : loc) (X : SFItem) (s : State) :
  heap s !! x = Some X -> registryConsistent s ->
  exists X',
    heap (setItemToBeDeleted x s) !! x = Some X'
    /\ deleted X' = true
    /\ referencingObjects X' = []
    /\ (dummy X = false -> dirty X' = true)
    /\ (forall r, In r (references X') ->
                  In r (references X) /\ findItem s (r_uuid r) = None)
    /\ modelManager (setItemToBeDeleted x s) = modelManager s.
Proof.
  intros HX Hs.
  destruct (setItemToBeDeleted_target x s X HX)
    as (Xt & HXt & Tdel & _ & _ & _ & Tdirty).
  unfold setItemToBeDeleted in *.
  set (s1 := update x (with_deleted true) s) in *.
  assert (HX1 : heap s1 !! x = Some (with_deleted true X)).
  { unfold s1. rewrite lookup_update_eq, HX. reflexivity. }
  rewrite HX1 in *. cbn [dummy with_deleted] in *.
  set (s2 := if negb (dummy X) then setDirty x true s1 else s1) in *.
  assert (H12 : heapRel shrinks s s2 /\ modelManager s2 = modelManager s).
  { split.
    - apply (heapRel_trans shrinks s s1 s2); [apply shrinks_trans | |].
      + apply heapRel_update; [apply shrinks_refl|].
        intros i. split; [reflexivity | auto].
      + unfold s2. destruct (negb (dummy X));
          [apply shrinks_setDirty | apply heapRel_refl, shrinks_refl].
    - unfold s2. now destruct (negb (dummy X)). }
  destruct H12 as [H12 Hm2].
  assert (HX2 : exists X2, heap s2 !! x = Some X2
                           /\ references X2 = references X).
  { unfold s2. destruct (negb (dummy X)).
    - exists (setDirty_item true (with_deleted true X)).
      split; [|reflexivity].
      unfold setDirty. now rewrite lookup_update_eq, HX1.
    - exists (with_deleted true X). split; [exact HX1 | reflexivity]. }
  destruct HX2 as (X2 & HX2 & Hrefs2).
  assert (Hs2 : registryConsistent s2)
    by (apply (registryConsistent_heapRel s s2); assumption).
  unfold removeAndDirtyAllRelationshipsForItem in *. rewrite HX2 in *.
  cbv zeta in *.
  destruct (removeDirectRelationships_spec x (references X2) s2 X2 Hs2 HX2)
    as (X3 & HX3 & S3 & Hgone & Hm3).
  set (s3 := fold_left (removeDirectRelationship x) (references X2) s2) in *.
  set (s4 := forOfLive _ _ _ 0 s3) in *.
  assert (H34 : heapRel shrinks s3 s4).
  { apply heapRel_forOfLive;
      [apply shrinks_refl | apply shrinks_trans |
       intros; apply shrinks_removeIndirectRelationship]. }
  assert (Hm4 : modelManager s4 = modelManager s3).
  { apply modelManager_forOfLive.
    intros; apply modelManager_removeIndirectRelationship. }
  destruct (H34 x X3 HX3) as (X4 & HX4 & S4).
  rewrite lookup_update_eq, HX4 in HXt. cbn in HXt.
  exists Xt. rewrite lookup_update_eq, HX4. cbn.
  split; [exact HXt|]. split; [exact Tdel|].
  injection HXt as <-.
  split; [reflexivity|]. split; [intros H; apply Tdirty; now right|].
  split.
  - cbn [references with_referencingObjects]. intros r Hr.
    assert (Hr3 : In r (references X3)) by apply S4, Hr.
    assert (Hr2 : In r (references X2)) by apply S3, Hr3.
    split; [now rewrite <- Hrefs2|].
    specialize (Hgone r r Hr3 Hr2 eq_refl).
    unfold findItem in *. now rewrite <- Hm2.
  - change (modelManager s4 = modelManager s). now rewrite Hm4, Hm3.
Qed.

(** After [setItemToBeDeleted(x)], in a store whose registry leads every
    UUID it knows to an item that carries it: [x] is deleted, is dirty
    unless it is a dummy, has an empty [referencingObjects], and holds no
    reference to any item the registry knows (the references it keeps are
    among those it had).  The registry itself is unchanged. *)
Theorem setItemToBeDeleted_severs (x : loc) (X : SFItem) (s : State) :
  heap s !! x = Some X -> registryConsistent s ->
  exists X',
    heap (setItemToBeDeleted x s) !! x = Some X'
    /\ deleted X' = true
    /\ referencingObjects X' = []
    /\ (dummy X = false -> dirty X' = true)
    /\ (forall r, In r (references X') ->
                  In r (references X) /\ findItem s (r_uuid r) = None)
    /\ modelManager (setItemToBeDeleted x s) = modelManager s.
Proof. exact (setItemToBeDeleted_spec x X s). Qed.


(** ** The loop over [item.referencingObjects] *)

Lemma frame_removeItemAsRelationship (this item l : loc) (s : State) :
  l <> this -> l <> item ->
  heap (removeItemAsRelationship this item s) !! l = heap s !! l.
Proof.
  intros Hthis Hitem. unfold removeItemAsRelationship, removeReferenceWithUuid.
  rewrite lookup_update_ne by congruence.
  apply frame_setIsNoLongerBeingReferencedBy, Hitem.
Qed.

Lemma frame_removeIndirectRelationship (x object l : loc) (s : State) :
  l <> x -> l <> object ->
  heap (removeIndirectRelationship x object s) !! l = heap s !! l.
Proof.
  intros Hx Hobject. unfold removeIndirectRelationship, setDirty.
  rewrite lookup_update_ne by congruence.
  now apply frame_removeItemAsRelationship.
Qed.

Lemma referencingObjectsAt_update (x l : loc) (f : SFItem -> SFItem)
  (s : State) :
  (forall i, referencingObjects (f i) = referencingObjects i) ->
  referencingObjectsAt x (update l f s) = referencingObjectsAt x s.
Proof.
  intros Hf. unfold referencingObjectsAt.
  destruct (Nat.eq_dec l x) as [-> | Hne].
  - rewrite lookup_update_eq. destruct (heap s !! x); simpl; [apply Hf|].
    reflexivity.
  - now rewrite lookup_update_ne.
Qed.

(** The body of the loop takes the objects with the UUID of the visited
    one out of the array the loop walks. *)
Lemma referencingObjectsAt_removeIndirectRelationship (x object : loc)
  (s : State) (X : SFItem) :
  heap s !! x = Some X ->
  referencingObjectsAt x (removeIndirectRelationship x object s)
  = List.filter
      (fun l => negb (String.eqb (uuidAt s l) (uuidAt s object)))
      (referencingObjectsAt x s).
Proof.
  intros HX.
  unfold removeIndirectRelationship, setDirty, removeItemAsRelationship,
    removeReferenceWithUuid.
  rewrite !referencingObjectsAt_update by reflexivity.
  destruct (setIsNoLongerBeingReferencedBy_receiver x object s X HX)
    as (X1 & HX1 & _ & Hros & _).
  unfold referencingObjectsAt. now rewrite HX1, HX.
Qed.

Lemma tl_filter_free {A : Type} (a : A) (p : A -> bool) (l : list A) :
  ~ In a (tl l) -> ~ In a (tl (List.filter p l)).
Proof.
  destruct l as [|a0 l]; [auto|]. cbn [tl List.filter]. intros H.
  assert (Hf : ~ In a (List.filter p l)).
  { intros Hin. apply List.filter_In in Hin. tauto. }
  destruct (p a0); [exact Hf|].
  intros Hin. apply Hf. destruct (List.filter p l); [destruct Hin|].
  now right.
Qed.

Lemma lookup_tl {A : Type} (l : list A) (idx : nat) (a : A) :
  1 <= idx -> l !! idx = Some a -> In a (tl l).
Proof.
  intros Hidx H. destruct l as [|a0 l], idx as [|k]; try discriminate; [lia|].
  cbn in H. cbn [tl]. apply list_elem_of_In.
  eapply list_elem_of_lookup_2, H.
Qed.

Lemma forOfLive_S {A : Type} (fuel : nat) (array : State -> list A)
  (body : A -> State -> State) (index : nat) (s : State) :
  forOfLive (S fuel) array body index s
  = match array s !! index with
    | None => s
    | Some x => forOfLive fuel array body (S index) (body x s)
    end.
Proof. reflexivity. Qed.

Lemma removeIndirectRelationships_skip (x r1 : loc) (fuel : nat) :
  r1 <> x ->
  forall (idx : nat) (s : State),
    1 <= idx -> is_Some (heap s !! x) ->
    ~ In r1 (tl (referencingObjectsAt x s)) ->
    heap (forOfLive fuel (referencingObjectsAt x)
            (removeIndirectRelationship x) idx s) !! r1
    = heap s !! r1.
Proof.
  intros Hne. induction fuel as [|fuel IH]; intros idx s Hidx [X HX] Hfree;
    [reflexivity|].
  cbn [forOfLive].
  destruct (referencingObjectsAt x s !! idx) as [object|] eqn:E;
    [|reflexivity].
  assert (Hobject : r1 <> object).
  { intros <-. apply Hfree. exact (lookup_tl _ _ _ Hidx E). }
  rewrite IH.
  - now apply frame_removeIndirectRelationship.
  - lia.
  - destruct (shrinks_removeIndirectRelationship x object s x X HX)
      as (X' & HX' & _). eauto.
  - rewrite (referencingObjectsAt_removeIndirectRelationship x object s X HX).
    now apply tl_filter_free.
Qed.

(** The loop of [removeAndDirtyAllRelationshipsForItem] over
    [item.referencingObjects] removes the visited object from the very
    array it walks, so the object that follows is skipped.  For an item
    without references of its own that is referenced by two or more
    distinct objects, [setItemToBeDeleted] leaves the second of them
    exactly as it was: it keeps its reference to the deleted item and is
    not made dirty. *)
Theorem setItemToBeDeleted_skips_second (x r0 r1 : loc) (rest : list loc)
  (X : SFItem) (s : State) :
  heap s !! x = Some X ->
  references X = [] ->
  referencingObjects X = r0 :: r1 :: rest ->
  List.NoDup (r0 :: r1 :: rest) ->
  r1 <> x ->
  heap (setItemToBeDeleted x s) !! r1 = heap s !! r1.
Proof.
  intros HX Hrefs Hros Hnd Hne.
  unfold setItemToBeDeleted.
  set (s1 := update x (with_deleted true) s).
  assert (HX1 : heap s1 !! x = Some (with_deleted true X)).
  { unfold s1. rewrite lookup_update_eq, HX. reflexivity. }
  rewrite HX1. cbn [dummy with_deleted].
  set (s2 := if negb (dummy X) then setDirty x true s1 else s1).
  assert (HX2 : exists X2, heap s2 !! x = Some X2 /\ references X2 = []
                           /\ referencingObjects X2 = r0 :: r1 :: rest).
  { unfold s2. destruct (negb (dummy X)).
    - exists (setDirty_item true (with_deleted true X)).
      split; [unfold setDirty; now rewrite lookup_update_eq, HX1|].
      split; assumption.
    - exists (with_deleted true X). split; [exact HX1|]. split; assumption. }
  destruct HX2 as (X2 & HX2 & Hrefs2 & Hros2).
  assert (H2 : heap s2 !! r1 = heap s !! r1).
  { unfold s2. destruct (negb (dummy X)); unfold setDirty, s1;
      now rewrite !lookup_update_ne by congruence. }
  unfold removeAndDirtyAllRelationshipsForItem. rewrite HX2, Hrefs2.
  cbn [fold_left]. cbv zeta.
  rewrite lookup_update_ne by congruence.
  assert (Harray : referencingObjectsAt x s2 = r0 :: r1 :: rest).
  { unfold referencingObjectsAt. now rewrite HX2. }
  rewrite Harray. cbn [length]. rewrite forOfLive_S, Harray.
  cbn [lookup list_lookup].
  inversion Hnd as [|? ? Hr0 Hnd']; subst.
  inversion Hnd' as [|? ? Hr1 _]; subst.
  rewrite removeIndirectRelationships_skip.
  - rewrite frame_removeIndirectRelationship; [exact H2 | congruence |].
    intros ->. apply Hr0. now left.
  - exact Hne.
  - lia.
  - destruct (shrinks_removeIndirectRelationship x r0 s2 x X2 HX2)
      as (X' & HX' & _). eauto.
  - rewrite (referencingObjectsAt_removeIndirectRelationship x r0 s2 X2 HX2).
    rewrite Harray.
    match goal with
    | |- context [List.filter ?p (r0 :: r1 :: rest)] =>
        replace (List.filter p (r0 :: r1 :: rest))
          with (List.filter p (r1 :: rest))
          by (cbn [List.filter]; now rewrite String.eqb_refl)
    end.
    apply tl_filter_free. exact Hr1.
Qed.

End DeletionFacts.

(* ===================================================================== *)
(** * UUIDs and keys *)
(* ===================================================================== *)

Section UuidFacts.
Import Js Codec.

Lemma randomNibble_range (buf : list Z) (idx : Z) :
  (0 <= randomNibble buf idx < 16)%Z.
Proof.
  unfold randomNibble. change 15%Z with (Z.ones 4).
  rewrite Z.land_ones by lia. apply Z.mod_pos_bound. lia.
Qed.

Lemma hexDigitOf_hex (v : Z) :
  (0 <= v < 16)%Z -> isHexDigit (hexDigitOf v) = true.
Proof.
  intros H. rewrite <- (Z2Nat.id v) by lia.
  assert (Hn : (Z.to_nat v < 16)%nat) by lia.
  set (n := Z.to_nat v) in *. clearbody n.
  do 16 (destruct n as [|n]; [vm_compute; reflexivity|]). lia.
Qed.

Lemma hexDigitOf_variant (r : Z) :
  isVariantDigit (hexDigitOf (Z.lor (Z.land r 3) 8)) = true.
Proof.
  change 3%Z with (Z.ones 2). rewrite Z.land_ones by lia.
  assert (H : (0 <= r mod 2 ^ 2 < 4)%Z) by (apply Z.mod_pos_bound; lia).
  rewrite <- (Z2Nat.id (r mod 2 ^ 2)) by lia.
  assert (Hn : (Z.to_nat (r mod 2 ^ 2) < 4)%nat) by lia.
  set (n := Z.to_nat (r mod 2 ^ 2)) in *. clearbody n.
  do 4 (destruct n as [|n]; [vm_compute; reflexivity|]). lia.
Qed.

Lemma fillTemplate_matches (buf : list Z) (template : string) (idx : Z) :
  matchesTemplate template (fillTemplate buf template idx) = true.
Proof.
  revert idx. induction template as [|c rest IH]; intros idx; [reflexivity|].
  cbn [fillTemplate]. destruct (Ascii.eqb c "x") eqn:Ex; cbn [orb].
  - cbn [matchesTemplate]. rewrite Ex, IH, andb_true_r.
    apply hexDigitOf_hex, randomNibble_range.
  - destruct (Ascii.eqb c "y") eqn:Ey.
    + cbn [matchesTemplate]. rewrite Ex, Ey, IH, andb_true_r.
      apply hexDigitOf_variant.
    + cbn [matchesTemplate]. rewrite Ex, Ey, IH, Ascii.eqb_refl.
      reflexivity.
Qed.

Lemma matchesTemplate_length (template s : string) :
  matchesTemplate template s = true -> String.length s = String.length template.
Proof.
  revert s. induction template as [|t template IH]; intros [|c s] H;
    try discriminate; [reflexivity|].
  cbn in H. apply andb_true_iff in H as [_ H]. cbn. now rewrite (IH s H).
Qed.

Lemma isHexDigit_not_colon (c : ascii) :
  isHexDigit c = true -> Ascii.eqb c colon = false.
Proof.
  intros H. destruct (Ascii.eqb c colon) eqn:E; [|reflexivity].
  apply Ascii.eqb_eq in E. subst c. discriminate H.
Qed.

Lemma isVariantDigit_hex (c : ascii) :
  isVariantDigit c = true -> isHexDigit c = true.
Proof.
  unfold isVariantDigit, isHexDigit. cbv zeta. intros H.
  repeat (apply orb_true_iff in H; destruct H as [H | H]);
    apply Nat.eqb_eq in H; rewrite H; reflexivity.
Qed.

Lemma matchesTemplate_colonFree (template s : string) :
  matchesTemplate template s = true -> colonFree template = true ->
  colonFree s = true.
Proof.
  revert s. induction template as [|t template IH]; intros [|c s] H Ht;
    try discriminate; [reflexivity|].
  cbn in H, Ht |- *.
  apply andb_true_iff in H as [Hc H]. apply andb_true_iff in Ht as [Htc Ht].
  rewrite (IH s H Ht), andb_true_r. apply negb_true_iff.
  destruct (Ascii.eqb t "x").
  - now apply isHexDigit_not_colon.
  - destruct (Ascii.eqb t "y").
    + now apply isHexDigit_not_colon, isVariantDigit_hex.
    + apply Ascii.eqb_eq in Hc. subst c. now apply negb_true_iff.
Qed.

(** [generateUUIDSync], whatever the random words are: 36 characters in
    the shape [xxxxxxxx-xxxx-4xxx-yxxx-xxxxxxxxxxxx], with a lower-case
    hexadecimal digit for every [x] and one of [8 9 a b] for the [y] (a
    version-4 UUID), and without [":"], the separator of the envelopes
    the UUID is put into. *)
Theorem generateUUIDSync_format (buf : list Z) :
  matchesTemplate uuidTemplate (generateUUIDSync buf) = true
  /\ String.length (generateUUIDSync buf) = 36%nat
  /\ colonFree (generateUUIDSync buf) = true.
Proof.
  assert (H : matchesTemplate uuidTemplate (generateUUIDSync buf) = true)
    by exact (fillTemplate_matches buf uuidTemplate (-1)).
  split; [exact H|]. split.
  - rewrite (matchesTemplate_length _ _ H). reflexivity.
  - apply (matchesTemplate_colonFree _ _ H). reflexivity.
Qed.

(** The two halves [firstHalfOfKey] and [secondHalfOfKey] cut a key in
    two without losing a character: joined again they give the key, and
    the first has half its length, rounded down. *)
Theorem key_halves_rejoin (key : string) :
  firstHalfOfKey key ++ secondHalfOfKey key = key
  /\ String.length (firstHalfOfKey key) = (String.length key / 2)%nat
  /\ String.length (secondHalfOfKey key)
     = (String.length key - String.length key / 2)%nat.
Proof.
  unfold firstHalfOfKey, secondHalfOfKey, substring.
  set (n := String.length key). set (h := (n / 2)%nat).
  assert (Hh : (h <= n)%nat) by (apply Nat.Div0.div_le_upper_bound; lia).
  rewrite Nat.sub_0_r. split; [|split].
  - pose proof (substring_append 0 h (n - h) key) as H.
    cbn [Nat.add] in H. rewrite H.
    replace (h + (n - h))%nat with n by lia. apply substring_all.
  - apply substring_length. lia.
  - apply substring_length. lia.
Qed.

End UuidFacts.

(* ===================================================================== *)
(** * What decryption leaves alone *)
(* ===================================================================== *)

Section DecryptionFacts.
Import Js Codec.
Context (P : Primitives).

Lemma readAuthParams_frame (c : Components) (item : SFItem) :
  uuid (readAuthParams P c item) = uuid item
  /\ content (readAuthParams P c item) = content item
  /\ appData (readAuthParams P c item) = appData item
  /\ enc_item_key (readAuthParams P c item) = enc_item_key item
  /\ auth_hash (readAuthParams P c item) = auth_hash item
  /\ deleted (readAuthParams P c item) = deleted item
  /\ errorDecrypting (readAuthParams P c item) = errorDecrypting item.
Proof.
  unfold readAuthParams.
  destruct (base64Decode P _) as [decoded|]; [|repeat split].
  destruct (JSON_parse P decoded); repeat split.
Qed.

Lemma decryptContent_frame (item : SFItem) (text item_key : string) :
  let r := decryptContent P item text item_key in
  uuid (fst r) = uuid item
  /\ appData (fst r) = appData item
  /\ enc_item_key (fst r) = enc_item_key item
  /\ auth_hash (fst r) = auth_hash item
  /\ deleted (fst r) = deleted item
  /\ (errorDecrypting (fst r) = true -> content (fst r) = content item)
  /\ (snd r = Thrown ->
      content (fst r) = content item
      /\ errorDecrypting (fst r) = errorDecrypting item).
Proof.
  unfold decryptContent. cbv zeta.
  set (c := encryptionComponentsFromString text _ _).
  destruct (readAuthParams_frame c item) as (F1 & F2 & F3 & F4 & F5 & F6 & F7).
  set (item1 := readAuthParams P c item) in *.
  destruct (uuidMismatch c item1); [solve [frame_goal]|].
  destruct (decryptText P _ true) as [| |plain|]; solve [frame_goal].
Qed.

Lemma decryptItem_frame (item : SFItem) (keys : Keys) :
  let r := decryptItem P item keys in
  uuid (fst r) = uuid item
  /\ appData (fst r) = appData item
  /\ enc_item_key (fst r) = enc_item_key item
  /\ auth_hash (fst r) = auth_hash item
  /\ deleted (fst r) = deleted item
  /\ (errorDecrypting item = false -> errorDecrypting (fst r) = true ->
      content (fst r) = content item)
  /\ (snd r = Thrown ->
      content (fst r) = content item
      /\ errorDecrypting (fst r) = errorDecrypting item).
Proof.
  unfold decryptItem.
  destruct (content item) as [| | | |text| |] eqn:Hc;
    try solve [frame_goal].
  destruct (startsWith text "000").
  { destruct (base64Decode P _) as [decoded|]; [|solve [frame_goal]].
    destruct (JSON_parse P decoded); solve [frame_goal]. }
  destruct (negb (truthy (enc_item_key item))); [solve [frame_goal]|].
  cbv zeta.
  destruct (uuidMismatch _ item); [solve [frame_goal]|].
  destruct (decryptText P _ _) as [| |item_key|]; try solve [frame_goal].
  destruct (String.eqb item_key EmptyString); [solve [frame_goal]|].
  pose proof (decryptContent_frame item text item_key) as H.
  cbv zeta in H. destruct H as (F1 & F2 & F3 & F4 & F5 & F6 & F7).
  split; [exact F1|]. split; [exact F2|]. split; [exact F3|].
  split; [exact F4|]. split; [exact F5|]. split.
  - intros _ H. rewrite (F6 H). exact Hc.
  - intros H. destruct (F7 H) as [G1 G2]. split; [|exact G2].
    rewrite G1. exact Hc.
Qed.

(** [decryptItem] never changes an item's [uuid], [appData],
    [enc_item_key], [auth_hash] or [deleted]; when it flags an item that
    was not flagged, the item keeps the content it had, that is, its
    ciphertext; and when it throws, it has touched neither the content
    nor the flag. *)
Theorem decryptItem_keeps_ciphertext (item : SFItem) (keys : Keys) :
  let r := decryptItem P item keys in
  uuid (fst r) = uuid item
  /\ appData (fst r) = appData item
  /\ enc_item_key (fst r) = enc_item_key item
  /\ auth_hash (fst r) = auth_hash item
  /\ deleted (fst r) = deleted item
  /\ (errorDecrypting item = false -> errorDecrypting (fst r) = true ->
      content (fst r) = content item)
  /\ (snd r = Thrown ->
      content (fst r) = content item
      /\ errorDecrypting (fst r) = errorDecrypting item).
Proof. exact (decryptItem_frame item keys). Qed.

Lemma decrypt_frame (keys : Keys) (item : SFItem) :
  snd (decrypt P false keys item) = Returned
  /\ uuid (fst (decrypt P false keys item)) = uuid item
  /\ enc_item_key (fst (decrypt P false keys item)) = enc_item_key item
  /\ auth_hash (fst (decrypt P false keys item)) = auth_hash item
  /\ deleted (fst (decrypt P false keys item)) = deleted item
  /\ (snd (decryptItem P item keys) = Thrown ->
      errorDecrypting (fst (decrypt P false keys item)) = true
      /\ content (fst (decrypt P false keys item)) = content item)
  /\ (deleted item = true ->
      content item = VNull \/ content item = VUndefined ->
      fst (decrypt P false keys item) = item).
Proof.
  pose proof (decryptItem_frame item keys) as H. cbv zeta in H.
  destruct H as (F1 & F2 & F3 & F4 & F5 & F6 & F7).
  unfold decrypt. cbv zeta.
  destruct (content item) as [| | | |text| |] eqn:Hc.
  1-4, 6-7:
    assert (Hd : decryptItem P item keys = (item, Returned))
      by (unfold decryptItem; now rewrite Hc);
    rewrite Hd; destruct (deleted item) eqn:Hdel; cbn;
    repeat split; intros; try discriminate; congruence.
  rewrite andb_false_r.
  destruct (decryptItem P item keys) as [item' [|]]; cbn in *.
  - repeat split; auto; try discriminate.
    intros _ [H | H]; discriminate H.
  - destruct (F7 eq_refl) as [G1 G2].
    repeat split; intros;
      repeat match goal with H : _ \/ _ |- _ => destruct H end;
      try discriminate; destruct (errorDecrypting item'); cbn; congruence.
Qed.

(** [decryptMultipleItems] returns the items in place, one for one, with
    their [uuid], [enc_item_key], [auth_hash] and [deleted] as they were;
    an exception thrown while decrypting one item does not escape: that
    item is flagged [errorDecrypting] and keeps its content, and the
    others are still processed.  A deleted item whose content is [null]
    is returned as it is. *)
Theorem decryptMultipleItems_keeps_items (items : list SFItem) (keys : Keys) :
  Forall2
    (fun item item' =>
       uuid item' = uuid item
       /\ enc_item_key item' = enc_item_key item
       /\ auth_hash item' = auth_hash item
       /\ deleted item' = deleted item
       /\ (snd (decryptItem P item keys) = Thrown ->
           errorDecrypting item' = true /\ content item' = content item)
       /\ (deleted item = true ->
           content item = VNull \/ content item = VUndefined ->
           item' = item))
    items (decryptMultipleItems P items keys).
Proof.
  unfold decryptMultipleItems.
  induction items as [|item items IH]; [constructor|].
  cbn [map]. constructor; [|exact IH].
  destruct (decrypt_frame keys item) as (_ & F). exact F.
Qed.

Lemma startsWith_substring3 (p s : string) :
  String.length p = 3%nat -> startsWith s p = true -> substring s 0 3 = p.
Proof.
  unfold startsWith, substring.
  destruct p as [|p0 [|p1 [|p2 [|]]]]; try discriminate. intros _.
  destruct s as [|s0 [|s1 [|s2 s]]]; cbn; try discriminate.
  - destruct (ascii_dec p0 s0); discriminate.
  - destruct (ascii_dec p0 s0); [destruct (ascii_dec p1 s1)|]; discriminate.
  - destruct (ascii_dec p0 s0) as [-> |]; [|discriminate].
    destruct (ascii_dec p1 s1) as [-> |]; [|discriminate].
    destruct (ascii_dec p2 s2) as [-> |]; [|discriminate].
    intros _. now destruct s.
Qed.

(** The key of a "002" or "003" item is never decrypted without a hash:
    when [enc_item_key] starts with one of these versions and its second
    field is missing or empty, [decryptItem] flags the item, whatever the
    keys are, and leaves the rest of it as it was. *)
Theorem decryptItem_rejects_unauthenticated_key (item : SFItem) (keys : Keys)
  (text key : string) :
  content item = VStr text -> startsWith text "000" = false ->
  enc_item_key item = Some key ->
  startsWith key "002" = true \/ startsWith key "003" = true ->
  truthy (split colon key !! 1%nat) = false ->
  decryptItem P item keys = (markErrorDecrypting item, Returned).
Proof.
  intros Hc H000 Hkey Hversion Hhash. unfold decryptItem.
  rewrite Hc, H000, Hkey.
  assert (Hne : key <> EmptyString).
  { intros ->. destruct Hversion as [H | H]; discriminate H. }
  rewrite (truthy_Some key Hne). cbn [negb orEmpty default from_option id].
  cbv zeta. unfold id.
  assert (Hlegacy : isLegacyKey key = false).
  { unfold isLegacyKey. destruct Hversion as [-> | ->]; [reflexivity|].
    apply andb_false_r. }
  rewrite Hlegacy. cbn [negb].
  assert (Hv : String.eqb (substring key 0 3) "001" = false).
  { destruct Hversion as [H | H].
    - rewrite (startsWith_substring3 "002" key eq_refl H); reflexivity.
    - rewrite (startsWith_substring3 "003" key eq_refl H); reflexivity. }
  destruct (uuidMismatch _ item); [reflexivity|].
  unfold decryptText, encryptionComponentsFromString. cbv zeta.
  rewrite Hv. cbn [c_authHash]. rewrite Hhash. reflexivity.
Qed.

End DecryptionFacts.

(* ===================================================================== *)
(** * Item params and registration *)
(* ===================================================================== *)

Section ParamsFacts.
Import Js Codec.
Context (P : Primitives).


(** Without keys, [paramsForSync] sends the content as ["000"] followed
    by the base64 of its JSON text, with no item key and no hash, and
    draws no random value; [decryptItem] reads such a record back without
    any key: when base64 and JSON decoding invert the encoding of that
    text, the record's content becomes the decoded value. *)
Theorem plain_params_round_trip (item : SFItem) (doNotEncrypt : bool)
  (g : rng P) (keys : Keys) (v : jsval) :
  errorDecrypting item = false ->
  base64Decode P
    (base64 P (JSON_stringify P (createContentJSONFromProperties P item)))
  = Some (JSON_stringify P (createContentJSONFromProperties P item)) ->
  JSON_parse P (JSON_stringify P (createContentJSONFromProperties P item))
  = Some v ->
  snd (paramsForSync P item None doNotEncrypt g) = g
  /\ ip_enc_item_key (fst (paramsForSync P item None doNotEncrypt g)) = None
  /\ ip_auth_hash (fst (paramsForSync P item None doNotEncrypt g)) = None
  /\ decryptItem P
       (withItemParams (fst (paramsForSync P item None doNotEncrypt g)) item)
       keys
     = (set_content v
          (withItemParams (fst (paramsForSync P item None doNotEncrypt g))
             item),
        Returned).
Proof.
  intros Hclean Hb64 Hjson. unfold paramsForSync, __params.
  rewrite Hclean. cbn [negb fst snd ip_enc_item_key ip_auth_hash].
  repeat split.
  set (text := JSON_stringify P (createContentJSONFromProperties P item)) in *.
  set (stored := withItemParams _ item).
  unfold decryptItem.
  change (content stored) with (VStr ("000" ++ base64 P text)).
  cbv beta iota.
  assert (Hprefix : startsWith ("000" ++ base64 P text) "000" = true).
  { unfold startsWith. now rewrite (prefix_length3 "000" "000"). }
  rewrite Hprefix.
  replace (substring ("000" ++ base64 P text) 3
             (String.length ("000" ++ base64 P text)))
    with (base64 P text) by (symmetry; exact (substring_drop "000" _)).
  now rewrite Hb64, Hjson.
Qed.

(** The keys [generateInitialKeysAndAuthParamsForUser] makes at
    registration are the ones [computeEncryptionKeysForUser] derives again
    from the password and the auth params it returns (version "003", cost
    110000), provided the identifier is not empty; with an empty
    identifier the registration still returns keys, but they cannot be
    derived again: [computeEncryptionKeysForUser] returns nothing. *)
Theorem registration_keys_rederived (email password : string)
  (g : rng P) :
  exists keys authParams,
    fst (generateInitialKeysAndAuthParamsForUser P email password g)
    = Some (keys, authParams)
    /\ version authParams = "003"
    /\ pw_cost authParams = 110000%N
    /\ computeEncryptionKeysForUser P password authParams
       = if String.eqb email EmptyString then None else Some keys.
Proof.
  unfold generateInitialKeysAndAuthParamsForUser.
  cbn [defaultPasswordGenerationCost costMinimumForVersion libraryVersion
       String.eqb Ascii.eqb Bool.eqb].
  cbv zeta.
  destruct (generateRandomKey P 256 g) as [nonce g1].
  unfold generateSymmetricKeyPair at 1. cbv zeta. cbn [fst].
  eexists. eexists. split; [reflexivity|].
  split; [reflexivity|]. split; [reflexivity|].
  unfold computeEncryptionKeysForUser.
  cbn [version identifier pw_cost pw_nonce truthy orEmpty default
       String.eqb Ascii.eqb Bool.eqb].
  destruct (String.eqb email EmptyString); reflexivity.
Qed.

End ParamsFacts.

(* ===================================================================== *)
(** * Resolving the references of an item *)
(* ===================================================================== *)

Section ResolutionFacts.
Import Store.
Local Open Scope list_scope.

Lemma lookupKey_setKey_is_Some {A : Type} (k k' : string) (v : A)
  (m : list (string * A)) :
  is_Some (lookupKey k m) -> is_Some (lookupKey k (setKey k' v m)).
Proof.
  intros H. destruct (String.eqb_spec k' k) as [-> | Hne].
  - rewrite lookupKey_setKey_eq. eauto.
  - now rewrite lookupKey_setKey_ne.
Qed.

(** When the reference is there already, [addItemAsRelationship] only
    installs the back-reference. *)
Lemma addItemAsRelationship_known (this item : loc) (T : SFItem) (s : State) :
  heap s !! this = Some T ->
  hasReferenceTo (uuidAt s item) T = true ->
  addItemAsRelationship this item s = setIsBeingReferencedBy item this s.
Proof.
  intros HT Hhas. unfold addItemAsRelationship. cbv zeta.
  set (s1 := setIsBeingReferencedBy item this s).
  assert (H1 : exists T1, heap s1 !! this = Some T1
                          /\ references T1 = references T).
  { destruct (Nat.eq_dec this item) as [Heq | Hne].
    - subst item.
      destruct (setIsBeingReferencedBy_receiver this this s T HT)
        as (ros & H & _).
      exists (with_referencingObjects ros T). split; [exact H | reflexivity].
    - exists T. split; [|reflexivity]. unfold s1.
      now rewrite frame_setIsBeingReferencedBy. }
  destruct H1 as (T1 & HT1 & Hrefs).
  unfold hasRelationshipWithItem. rewrite HT1.
  unfold s1 at 1. rewrite uuidAt_setIsBeingReferencedBy.
  unfold hasReferenceTo in *. now rewrite Hrefs, Hhas.
Qed.

Lemma setIsBeingReferencedBy_keeps (this item l0 : loc) (u : string)
  (L0 : SFItem) (s : State) :
  heap s !! l0 = Some L0 -> notReferencedBy s u L0 = false ->
  exists L0',
    heap (setIsBeingReferencedBy this item s) !! l0 = Some L0'
    /\ notReferencedBy (setIsBeingReferencedBy this item s) u L0' = false
    /\ references L0' = references L0.
Proof.
  intros HL0 Hback.
  assert (Hu : forall l, uuidAt (setIsBeingReferencedBy this item s) l
                         = uuidAt s l)
    by (intros l; apply uuidAt_setIsBeingReferencedBy).
  destruct (Nat.eq_dec l0 this) as [-> | Hne].
  - unfold setIsBeingReferencedBy in *. rewrite HL0 in *.
    destruct (notReferencedBy s (uuidAt s item) L0).
    + eexists. split; [now rewrite lookup_update_eq, HL0|].
      split; [|reflexivity].
      unfold notReferencedBy in *.
      cbn [referencingObjects with_referencingObjects].
      rewrite existsb_app.
      rewrite (existsb_pointwise _ (fun l => String.eqb (uuidAt s l) u))
        by (intros l; now rewrite Hu).
      apply negb_false_iff in Hback. now rewrite Hback.
    + exists L0. split; [exact HL0|]. split; [exact Hback | reflexivity].
  - exists L0. split; [now rewrite frame_setIsBeingReferencedBy|].
    split; [|reflexivity].
    now rewrite (notReferencedBy_pointwise s _ u L0 L0 Hu eq_refl).
Qed.

Lemma notReferencedBy_setDirty (l l0 : loc) (flag : bool) (u : string)
  (L0 : SFItem) (s : State) :
  heap s !! l0 = Some L0 -> notReferencedBy s u L0 = false ->
  exists L0',
    heap (setDirty l flag s) !! l0 = Some L0'
    /\ notReferencedBy (setDirty l flag s) u L0' = false
    /\ references L0' = references L0.
Proof.
  intros HL0 Hback.
  assert (Hu : forall l', uuidAt (setDirty l flag s) l' = uuidAt s l')
    by (intros l'; now apply uuidAt_update).
  unfold setDirty in *. destruct (Nat.eq_dec l l0) as [-> | Hne].
  - eexists. split; [now rewrite lookup_update_eq, HL0|].
    split; [|reflexivity].
    now rewrite (notReferencedBy_pointwise s _ u L0 (setDirty_item flag L0)
                   Hu eq_refl).
  - exists L0. split; [now rewrite lookup_update_ne|].
    split; [|reflexivity].
    now rewrite (notReferencedBy_pointwise s _ u L0 L0 Hu eq_refl).
Qed.

(** One reference whose target is known. *)
Lemma resolveKnown_step (item l : loc) (mark : bool) (I L : SFItem)
  (s : State) :
  heap s !! item = Some I -> heap s !! l = Some L ->
  hasReferenceTo (uuidAt s l) I = true ->
  let s' := if mark then setDirty l true (addItemAsRelationship item l s)
            else addItemAsRelationship item l s in
  (exists L', heap s' !! l = Some L'
              /\ notReferencedBy s' (uuid I) L' = false)
  /\ (exists I', heap s' !! item = Some I' /\ references I' = references I)
  /\ (forall l0 L0 u, heap s !! l0 = Some L0 ->
                      notReferencedBy s u L0 = false ->
                      exists L0', heap s' !! l0 = Some L0'
                                  /\ notReferencedBy s' u L0' = false)
  /\ modelManager s' = modelManager s
  /\ (forall l0, uuidAt s' l0 = uuidAt s l0)
  /\ heapRel quiet s s'.
Proof.
  intros HI HL Hhas. cbv zeta.
  rewrite (addItemAsRelationship_known item l I s HI Hhas).
  set (s1 := setIsBeingReferencedBy l item s).
  assert (HuI : uuidAt s item = uuid I) by (unfold uuidAt; now rewrite HI).
  destruct (setIsBeingReferencedBy_receiver l item s L HL)
    as (ros & HL1 & Hback).
  fold s1 in HL1. rewrite HuI in Hback.
  assert (Hu1 : forall l0, uuidAt s1 l0 = uuidAt s l0)
    by (intros l0; apply uuidAt_setIsBeingReferencedBy).
  rewrite <- (notReferencedBy_pointwise s s1 (uuid I) _ _ Hu1 eq_refl)
    in Hback.
  assert (HI1 : exists I1, heap s1 !! item = Some I1
                           /\ references I1 = references I).
  { destruct (Nat.eq_dec item l) as [-> | Hne].
    - rewrite HI in HL. injection HL as <-.
      eexists. split; [exact HL1 | reflexivity].
    - exists I. split; [|reflexivity]. unfold s1.
      now rewrite frame_setIsBeingReferencedBy. }
  destruct HI1 as (I1 & HI1 & Hrefs1).
  destruct mark.
  - destruct (notReferencedBy_setDirty l l true (uuid I) _ s1 HL1 Hback)
      as (L' & HL' & Hback' & _).
    split; [eauto|]. split.
    { destruct (quiet_setDirty l s1 item I1 HI1) as (I' & HI' & _).
      exists I'. split; [exact HI'|].
      unfold setDirty in HI'. destruct (Nat.eq_dec l item) as [-> | Hne].
      - rewrite lookup_update_eq, HI1 in HI'. injection HI' as <-.
        exact Hrefs1.
      - rewrite lookup_update_ne, HI1 in HI' by exact Hne.
        injection HI' as <-. exact Hrefs1. }
    split.
    { intros l0 L0 u HL0 Hb.
      destruct (setIsBeingReferencedBy_keeps l item l0 u L0 s HL0 Hb)
        as (L0' & HL0' & Hb' & _).
      destruct (notReferencedBy_setDirty l l0 true u L0' s1 HL0' Hb')
        as (L0'' & H1 & H2 & _). eauto. }
    split; [apply modelManager_setIsBeingReferencedBy|].
    split.
    { intros l0. unfold setDirty. rewrite uuidAt_update by reflexivity.
      apply Hu1. }
    eapply heapRel_trans; [apply quiet_trans | | apply quiet_setDirty].
    apply quiet_setIsBeingReferencedBy.
  - split; [eauto|]. split; [eauto|]. split.
    { intros l0 L0 u HL0 Hb.
      destruct (setIsBeingReferencedBy_keeps l item l0 u L0 s HL0 Hb)
        as (L0' & HL0' & Hb' & _). eauto. }
    split; [apply modelManager_setIsBeingReferencedBy|].
    split; [exact Hu1|]. apply quiet_setIsBeingReferencedBy.
Qed.


Lemma fold_left_combine_map {A B C S : Type} (f : S -> B * C -> S)
  (g : A -> B) (h : B -> C) (l : list A) (s : S) :
  fold_left f (combine (map g l) (map h (map g l))) s
  = fold_left (fun s a => f s (g a, h (g a))) l s.
Proof.
  revert s. induction l as [|a l IH]; intros s; [reflexivity|].
  cbn. apply IH.
Qed.

Lemma referenceResolved_same_heap (item : loc) (r : Reference)
  (s0 s s' : State) :
  heap s' = heap s ->
  (forall k, is_Some (lookupKey k (missedReferences (modelManager s))) ->
             is_Some (lookupKey k (missedReferences (modelManager s')))) ->
  referenceResolved item r s0 s -> referenceResolved item r s0 s'.
Proof.
  intros Hheap Hmissed. unfold referenceResolved.
  destruct (findItem s0 (r_uuid r)) as [l|]; [|apply Hmissed].
  intros (L & HL & Hback). exists L. rewrite Hheap. split; [exact HL|].
  rewrite <- Hback. apply notReferencedBy_pointwise; [|reflexivity].
  intros l0. unfold uuidAt. now rewrite Hheap.
Qed.

(** The loop of [resolveReferencesForItem], from any point on. *)
Lemma resolveReferences_fold (item : loc) (I : SFItem) (mark : bool)
  (s0 : State) :
  registryConsistent s0 ->
  forall (rs : list Reference) (s : State),
    (forall r, In r rs -> In r (references I)) ->
    registry s = registry s0 ->
    (forall l, uuidAt s l = uuidAt s0 l) ->
    heapRel quiet s0 s ->
    (exists Ic, heap s !! item = Some Ic /\ references Ic = references I) ->
    let step :=
      fun (s : State) (r : Reference) =>
        match findItem s0 (r_uuid r) with
        | Some l =>
            let s1 := addItemAsRelationship item l s in
            if mark then setDirty l true s1 else s1
        | None =>
            let m := modelManager s in
            let mappingKey :=
              missedReferenceBuildKey (r_uuid r) (uuidAt s item) in
            match lookupKey mappingKey (missedReferences m) with
            | Some _ => s
            | None =>
                with_modelManager
                  (with_missedReferences
                     (setKey mappingKey
                        {| reference_uuid := r_uuid r; for_item := item |}
                        (missedReferences m)) m) s
            end
        end in
    registry (fold_left step rs s) = registry s0
    /\ heapRel quiet s0 (fold_left step rs s)
    /\ (exists I', heap (fold_left step rs s) !! item = Some I'
                   /\ references I' = references I)
    /\ (forall r, In r rs -> referenceResolved item r s0 (fold_left step rs s))
    /\ (forall r, referenceResolved item r s0 s ->
                  referenceResolved item r s0 (fold_left step rs s)).
Proof.
  intros Hs0 rs. induction rs as [|r rs IH];
    intros s Hsub Hreg Hu Hq HI step.
  { cbn. repeat split; auto. intros r []. }
  cbn [fold_left].
  assert (Hstep :
            registry (step s r) = registry s0
            /\ (forall l, uuidAt (step s r) l = uuidAt s0 l)
            /\ heapRel quiet s0 (step s r)
            /\ (exists Ic, heap (step s r) !! item = Some Ic
                           /\ references Ic = references I)
            /\ referenceResolved item r s0 (step s r)
            /\ (forall r0, referenceResolved item r0 s0 s ->
                           referenceResolved item r0 s0 (step s r))).
  { destruct HI as (Ic & HIc & HrefsIc).
    assert (HuIc : uuidAt s0 item = uuid Ic).
    { rewrite <- Hu. unfold uuidAt. now rewrite HIc. }
    unfold step, referenceResolved.
    destruct (findItem s0 (r_uuid r)) as [l|] eqn:Hfind.
    - destruct (Hs0 _ _ Hfind) as (L0 & HL0 & HuL0).
      destruct (Hq l L0 HL0) as (L & HL & _).
      assert (Hul : uuidAt s l = r_uuid r).
      { rewrite Hu. unfold uuidAt. now rewrite HL0. }
      assert (Hhas : hasReferenceTo (uuidAt s l) Ic = true).
      { unfold hasReferenceTo. rewrite HrefsIc, Hul.
        apply existsb_exists. exists r.
        split; [apply Hsub; now left | apply String.eqb_refl]. }
      destruct (resolveKnown_step item l mark Ic L s HIc HL Hhas)
        as (K1 & K2 & K3 & K4 & K5 & K6).
      cbv zeta in K1, K2, K3, K4, K5, K6 |- *.
      set (s1 := if mark
                 then setDirty l true (addItemAsRelationship item l s)
                 else addItemAsRelationship item l s) in *.
      split; [now rewrite (registry_same_manager _ _ K4)|].
      split; [intros l0; now rewrite K5|].
      split; [eapply heapRel_trans; [apply quiet_trans | exact Hq | exact K6]|].
      split.
      { destruct K2 as (I' & HI' & Hrefs'). exists I'.
        split; [exact HI' | congruence]. }
      split; [now rewrite HuIc|].
      intros r0. destruct (findItem s0 (r_uuid r0)) as [l0|].
      + intros (L1 & HL1 & Hb). exact (K3 l0 L1 _ HL1 Hb).
      + now rewrite K4.
    - set (key := missedReferenceBuildKey (r_uuid r) (uuidAt s item)).
      assert (Hkey : key = missedReferenceBuildKey (r_uuid r) (uuidAt s0 item))
        by (unfold key; now rewrite Hu).
      cbv zeta.
      destruct (lookupKey key (missedReferences (modelManager s))) eqn:E.
      + repeat split; auto; [eauto | rewrite <- Hkey, E; eauto].
      + split; [exact Hreg|]. split; [exact Hu|]. split; [exact Hq|].
        split; [eauto|]. split.
        * rewrite <- Hkey. cbn. rewrite lookupKey_setKey_eq. eauto.
        * intros r0. apply referenceResolved_same_heap; [reflexivity|].
          intros k. cbn. apply lookupKey_setKey_is_Some. }
  destruct Hstep as (R1 & R2 & R3 & R4 & R5 & R6).
  destruct (IH (step s r)) as (A1 & A2 & A3 & A4 & A5); auto.
  { intros r0 Hr0. apply Hsub. now right. }
  split; [exact A1|]. split; [exact A2|]. split; [exact A3|]. split.
  - intros r0 [<- | Hr0]; [apply A5, R5 | apply A4, Hr0].
  - intros r0 Hr0. apply A5, R6, Hr0.
Qed.

Lemma resolveReferencesForItem_spec (item : loc) (I : SFItem) (mark : bool)
  (s : State) :
  heap s !! item = Some I -> registryConsistent s ->
  (forall r, In r (references I) ->
             referenceResolved item r s (resolveReferencesForItem item mark s))
  /\ (exists I', heap (resolveReferencesForItem item mark s) !! item = Some I'
                 /\ references I' = references I)
  /\ registry (resolveReferencesForItem item mark s) = registry s
  /\ heapRel quiet s (resolveReferencesForItem item mark s).
Proof.
  intros HI Hs.
  pose proof (resolveReferences_fold item I mark s Hs (references I) s
                (fun r H => H) eq_refl
                (fun l => eq_refl) (heapRel_refl quiet s quiet_refl)
                (ex_intro _ I (conj HI eq_refl))) as H.
  cbv zeta in H. destruct H as (A1 & A2 & A3 & A4 & _).
  unfold resolveReferencesForItem. rewrite HI. unfold findItems.
  rewrite (fold_left_combine_map _ r_uuid (findItem s) (references I) s).
  cbv beta iota.
  repeat split; assumption.
Qed.

(** [resolveReferencesForItem(item)], in a store whose registry leads
    every UUID it knows to an item that carries it: for every reference of
    the item, the referenced item, when the registry knows it, ends with
    an object of the item's UUID among its [referencingObjects]; when it
    does not, the reference is recorded as missed under the key
    [referenceId:itemId].  The item's own references are not changed, the
    registry is not changed, and no item loses its identity, flags or
    dirtiness. *)
Theorem resolveReferencesForItem_resolves (item : loc) (I : SFItem)
  (mark : bool) (s : State) :
  heap s !! item = Some I -> registryConsistent s ->
  (forall r, In r (references I) ->
             referenceResolved item r s (resolveReferencesForItem item mark s))
  /\ (exists I', heap (resolveReferencesForItem item mark s) !! item = Some I'
                 /\ references I' = references I)
  /\ registry (resolveReferencesForItem item mark s) = registry s
  /\ heapRel quiet s (resolveReferencesForItem item mark s).
Proof. exact (resolveReferencesForItem_spec item I mark s). Qed.

End ResolutionFacts.

(* ===================================================================== *)
(** * The sync cycle *)
(* ===================================================================== *)

Section SyncCycleFacts.
Import Store.
Local Open Scope list_scope.

Lemma sameDirty_refl (i : SFItem) : sameDirty i i.
Proof. split; reflexivity. Qed.

Lemma sameDirty_trans (a b c : SFItem) :
  sameDirty a b -> sameDirty b c -> sameDirty a c.
Proof. intros [A1 A2] [B1 B2]. split; congruence. Qed.

Lemma keepsDirty_refl (s : State) : keepsDirty s s.
Proof.
  split; [apply heapRel_refl, sameDirty_refl|].
  intros l i' H1 H2. congruence.
Qed.

Lemma keepsDirty_trans (s1 s2 s3 : State) :
  keepsDirty s1 s2 -> keepsDirty s2 s3 -> keepsDirty s1 s3.
Proof.
  intros [R12 N12] [R23 N23]. split.
  - exact (heapRel_trans sameDirty s1 s2 s3 sameDirty_trans R12 R23).
  - intros l i3 H3 H1. destruct (heap s2 !! l) as [i2|] eqn:E2.
    + destruct (R23 l i2 E2) as (i3' & H3' & Hd & Hc).
      assert (i3' = i3) as -> by congruence.
      destruct (N12 l i2 E2 H1) as [D C]. split; congruence.
    + exact (N23 l i3 H3 E2).
Qed.

Lemma keepsDirty_heap (s s' : State) : heap s' = heap s -> keepsDirty s s'.
Proof.
  intros H. split.
  - intros l i Hl. exists i. rewrite H. split; [exact Hl | apply sameDirty_refl].
  - intros l i' H1 H2. rewrite H in H1. congruence.
Qed.

Lemma keepsDirty_update (l : loc) (f : SFItem -> SFItem) (s : State) :
  (forall i, sameDirty i (f i)) -> keepsDirty s (update l f s).
Proof.
  intros Hf. split; [apply heapRel_update; [apply sameDirty_refl | exact Hf]|].
  intros l' i' H1 H2. exfalso. destruct (Nat.eq_dec l l') as [<- | Hne].
  - rewrite lookup_update_eq, H2 in H1. discriminate H1.
  - rewrite lookup_update_ne in H1 by exact Hne. congruence.
Qed.

Lemma keepsDirty_fold_left {A : Type} (f : State -> A -> State)
  (xs : list A) (s : State) :
  (forall s x, keepsDirty s (f s x)) -> keepsDirty s (fold_left f xs s).
Proof.
  intros Hf. revert s.
  induction xs as [|x xs IH]; intros s; [apply keepsDirty_refl|].
  simpl. eapply keepsDirty_trans; [apply Hf | apply IH].
Qed.

(** A new clean object. *)
Lemma keepsDirty_append (i : SFItem) (s s' : State) :
  heap s' = heap s ++ [i] -> dirty i = false -> dirtyCount i = None ->
  keepsDirty s s'.
Proof.
  intros Hh Hd Hc. split.
  - intros l i0 Hl. exists i0. split; [|apply sameDirty_refl].
    rewrite Hh. now apply lookup_app_l_Some.
  - intros l i' H1 H2. rewrite Hh in H1.
    apply lookup_ge_None_1 in H2.
    rewrite lookup_app_r in H1 by exact H2.
    destruct (l - length (heap s))%nat; [|now destruct n].
    injection H1 as <-. now split.
Qed.

Lemma keepsDirty_setIsBeingReferencedBy (this item : loc) (s : State) :
  keepsDirty s (setIsBeingReferencedBy this item s).
Proof.
  unfold setIsBeingReferencedBy.
  destruct (heap s !! this); [|apply keepsDirty_refl].
  destruct (notReferencedBy _ _ _); [|apply keepsDirty_refl].
  apply keepsDirty_update. intros i0. split; reflexivity.
Qed.

Lemma keepsDirty_addItemAsRelationship (this item : loc) (s : State) :
  keepsDirty s (addItemAsRelationship this item s).
Proof.
  unfold addItemAsRelationship. cbv zeta.
  set (s1 := setIsBeingReferencedBy item this s).
  assert (H1 : keepsDirty s s1) by apply keepsDirty_setIsBeingReferencedBy.
  destruct (hasRelationshipWithItem this item s1); [exact H1|].
  destruct (heap s1 !! item); [|exact H1].
  eapply keepsDirty_trans; [exact H1|].
  apply keepsDirty_update. intros i0. split; reflexivity.
Qed.

Lemma keepsDirty_resolveReferencesForItem (item : loc) (s : State) :
  keepsDirty s (resolveReferencesForItem item false s).
Proof.
  unfold resolveReferencesForItem.
  destruct (heap s !! item) as [i|]; [|apply keepsDirty_refl].
  apply keepsDirty_fold_left. intros s0 [missingRefId [r|]].
  - apply keepsDirty_addItemAsRelationship.
  - destruct (lookupKey _ _); [apply keepsDirty_refl|].
    now apply keepsDirty_heap.
Qed.

Lemma withoutDirtyKeys_spec (json : JsonObj) :
  withoutDirtyKeys json = true <-> j_dirty json = None /\ j_dirtyCount json = None.
Proof.
  unfold withoutDirtyKeys.
  destruct (j_dirty json), (j_dirtyCount json); split;
    try discriminate; try tauto; intros [? ?]; discriminate.
Qed.

Lemma withoutDirtyKeys_omitField (key : string) (json : JsonObj) :
  withoutDirtyKeys json = true -> withoutDirtyKeys (omitField key json) = true.
Proof.
  rewrite !withoutDirtyKeys_spec. intros [H1 H2]. unfold omitField.
  cbn [j_dirty j_dirtyCount]. rewrite H1, H2.
  split; [now destruct (String.eqb key "dirty")
         | now destruct (String.eqb key "dirtyCount")].
Qed.

Lemma withoutDirtyKeys_omitFields (keys : list string) (json : JsonObj) :
  withoutDirtyKeys json = true ->
  withoutDirtyKeys (fold_left (fun j key => omitField key j) keys json) = true.
Proof.
  revert json. induction keys as [|key keys IH]; intros json H; [exact H|].
  simpl. apply IH. now apply withoutDirtyKeys_omitField.
Qed.

(** [updateFromJSON] with a record that has neither key. *)
Lemma sameDirty_updateFromJSON_item (time : Z) (json : JsonObj) (i : SFItem) :
  withoutDirtyKeys json = true -> sameDirty i (updateFromJSON_item time json i).
Proof.
  intros H. apply withoutDirtyKeys_spec in H as [H1 H2].
  unfold sameDirty, updateFromJSON_item. cbn [dirty dirtyCount].
  now rewrite H1, H2.
Qed.

Lemma keepsDirty_createItem (json : JsonObj) (s : State) :
  withoutDirtyKeys json = true -> keepsDirty s (snd (createItem json s)).
Proof.
  intros H. apply withoutDirtyKeys_spec in H as [H1 H2].
  unfold createItem, newSFItem. cbv zeta.
  match goal with
  | |- context [String.eqb ?u EmptyString] => destruct (String.eqb u EmptyString)
  end; unfold generateUUID; cbn [snd];
    (eapply keepsDirty_append; [reflexivity | |]);
    cbn [dirty dirtyCount with_uuid updateFromJSON_item];
    rewrite ?H1, ?H2; reflexivity.
Qed.

Lemma heap_removeItemLocally (item : loc) (s : State) :
  heap (removeItemLocally item s) = heap s.
Proof. reflexivity. Qed.

(** The first loop of the mapper, for one record without the keys. *)
Lemma keepsDirty_mapRecord (omitFields : option (list string))
  (acc : State * list loc * list JsonObj) (json_obj : JsonObj) :
  withoutDirtyKeys json_obj = true ->
  keepsDirty (fst (fst acc)) (fst (fst (mapRecord omitFields acc json_obj))).
Proof.
  intros Hj. destruct acc as [[s models] processedObjects]. cbn [fst].
  unfold mapRecord.
  match goal with
  | |- context [if ?c then (s, models, processedObjects) else _] =>
      destruct c
  end; [apply keepsDirty_refl|].
  set (j := match omitFields with
            | Some keys => fold_left (fun j key => omitField key j) keys json_obj
            | None => json_obj
            end).
  assert (Hj' : withoutDirtyKeys j = true).
  { unfold j. destruct omitFields; [now apply withoutDirtyKeys_omitFields|].
    exact Hj. }
  cbv zeta.
  set (s1 := match findItem s (j_uuid j) with
             | Some l => update l (with_dummy false) (updateFromJSON l j s)
             | None => s
             end).
  assert (H1 : keepsDirty s s1).
  { unfold s1. destruct (findItem s (j_uuid j)) as [l|];
      [|apply keepsDirty_refl].
    apply (keepsDirty_trans s (updateFromJSON l j s)).
    - unfold updateFromJSON. apply keepsDirty_update. intros i.
      now apply sameDirty_updateFromJSON_item.
    - apply keepsDirty_update. intros i. split; reflexivity. }
  destruct (existsb _ (itemsPendingRemoval (modelManager s1))).
  { cbn [fst]. eapply keepsDirty_trans; [exact H1|]. now apply keepsDirty_heap. }
  match goal with
  | |- context [if ?c then (s1, models, processedObjects) else _] =>
      destruct c
  end; [exact H1|].
  destruct (j_deleted j && negb (default false (j_dirty j))).
  { cbn [fst]. destruct (findItem s (j_uuid j));
      [|exact H1].
    eapply keepsDirty_trans; [exact H1|]. now apply keepsDirty_heap. }
  destruct (findItem s (j_uuid j)) as [l|].
  - cbn [fst]. eapply keepsDirty_trans; [exact H1|].
    apply keepsDirty_heap, heap_addItem.
  - destruct (createItem j s1) as [l s2] eqn:E. cbn [fst].
    eapply keepsDirty_trans; [exact H1|].
    eapply keepsDirty_trans.
    + pose proof (keepsDirty_createItem j s1 Hj') as H2.
      rewrite E in H2. exact H2.
    + apply keepsDirty_heap, heap_addItem.
Qed.

Lemma mapRecords_spec (omitFields : option (list string))
  (records : list JsonObj) (acc : State * list loc * list JsonObj) :
  forallb withoutDirtyKeys records = true ->
  keepsDirty (fst (fst acc))
    (fst (fst (fold_left (mapRecord omitFields) records acc))).
Proof.
  revert acc. induction records as [|j records IH]; intros acc H;
    [apply keepsDirty_refl|].
  cbn [forallb] in H. apply andb_true_iff in H as [Hj H].
  cbn [fold_left]. eapply keepsDirty_trans; [|apply IH, H].
  now apply keepsDirty_mapRecord.
Qed.

(** The mapper writes neither [dirty] nor [dirtyCount] of an item that is
    there when the records have neither key, and the items it creates are
    clean. *)
Lemma keepsDirty_mapper (records : list JsonObj)
  (omitFields : option (list string)) (s : State) :
  forallb withoutDirtyKeys records = true ->
  keepsDirty s
    (snd (mapResponseItemsToLocalModelsOmittingFields records omitFields s)).
Proof.
  intros H. unfold mapResponseItemsToLocalModelsOmittingFields.
  pose proof (mapRecords_spec omitFields records (s, [], []) H) as H1.
  destruct (fold_left (mapRecord omitFields) records (s, [], []))
    as [[s1 models] processedObjects].
  cbn [fst] in H1. cbv zeta.
  set (s2 := fold_left _ (combine processedObjects models) s1).
  assert (H2 : keepsDirty s1 s2).
  { apply keepsDirty_fold_left. intros s0 [json_obj model].
    destruct (hasContent json_obj); [|apply keepsDirty_refl].
    apply keepsDirty_resolveReferencesForItem. }
  destruct (popMissedReferenceStructsForObjects processedObjects s2)
    as [missedRefs s3] eqn:E.
  assert (H3 : keepsDirty s2 s3).
  { apply keepsDirty_heap.
    pose proof (popMissedReferenceStructsForObjects_state processedObjects s2)
      as [_ Hh]. now rewrite E in Hh. }
  cbn [snd].
  eapply keepsDirty_trans; [exact H1|].
  eapply keepsDirty_trans; [exact H2|].
  eapply keepsDirty_trans; [exact H3|].
  destruct (last models); [|apply keepsDirty_refl].
  apply keepsDirty_fold_left. intros s0 ref.
  apply keepsDirty_addItemAsRelationship.
Qed.

Lemma countImpliesDirty_keepsDirty (s s' : State) :
  keepsDirty s s' -> countImpliesDirty s -> countImpliesDirty s'.
Proof.
  intros [HR HN] Hs l i' n Hl Hc.
  destruct (heap s !! l) as [i|] eqn:E.
  - destruct (HR l i E) as (i0 & Hl0 & Hd & Hcount).
    assert (Ei : Some i0 = Some i') by (rewrite <- Hl0; exact Hl).
    injection Ei as ->.
    rewrite Hd. apply (Hs l i n E). congruence.
  - destruct (HN l i' Hl E) as [_ Hnone]. congruence.
Qed.

Lemma heap_syncOffline (items : list loc) (s : State) :
  heap (syncOffline items s) = heap s.
Proof.
  unfold syncOffline. revert s.
  induction items as [|x items IH]; intros s; [reflexivity|].
  cbn [fold_left]. rewrite IH.
  destruct (heap s !! x) as [i|]; [|reflexivity].
  now destruct (deleted i).
Qed.

Lemma countImpliesDirty_heap (s s' : State) :
  heap s' = heap s -> countImpliesDirty s -> countImpliesDirty s'.
Proof.
  intros H Hs l i n Hl Hc. rewrite H in Hl. exact (Hs l i n Hl Hc).
Qed.

Lemma countImpliesDirty_clearDirtyItems (ls : list loc) (s : State) :
  countImpliesDirty s -> countImpliesDirty (clearDirtyItems ls s).
Proof.
  apply (countImpliesDirty_updateAll (setDirty_item false)).
  intros i _. apply countOk_setDirty.
Qed.

Lemma countImpliesDirty_resetNotYetSaved (ls : list loc) (s : State) :
  countImpliesDirty s -> countImpliesDirty (resetNotYetSaved ls s).
Proof.
  apply (countImpliesDirty_updateAll
           (fun i => match dirtyCount i with
                     | Some (S _) => with_dirty (dirty i) (Some O) i
                     | _ => i
                     end)).
  intros i Hi. destruct (dirtyCount i) as [[|n]|] eqn:E; try exact Hi.
  apply countOk_reset.
Qed.

Lemma countImpliesDirty_submit (ls : list loc) (s : State) :
  countImpliesDirty s -> countImpliesDirty (snd (submit ls s)).
Proof.
  apply (countImpliesDirty_updateAll
           (fun i => with_dirty (dirty i) (Some O) i)).
  intros i _. apply countOk_reset.
Qed.

Lemma countImpliesDirty_call (c : Call) (st : State * SFSyncManager) :
  mapsServerRecords c = true ->
  countImpliesDirty (fst st) -> countImpliesDirty (fst (call c st)).
Proof.
  destruct st as [s sm]. cbn [fst]. intros Hc Hs.
  destruct c as [item flag | offline | offline | | records omit | |];
    cbn [call].
  - apply countImpliesDirty_update; [|exact Hs].
    intros i _. apply countOk_setDirty.
  - destruct (syncOpInProgress sm); [exact Hs|].
    destruct offline; cbn [fst].
    + apply (countImpliesDirty_heap (clearDirtyItems (getDirtyItems s) s));
        [apply heap_syncOffline|].
      now apply countImpliesDirty_clearDirtyItems.
    + now apply (countImpliesDirty_submit (getDirtyItems s)).
  - cbv zeta.
    pose proof (countImpliesDirty_resetNotYetSaved (getDirtyItems s) s Hs)
      as Hs1.
    destruct (syncOpInProgress sm); [exact Hs1|].
    destruct offline; cbn [fst].
    + apply countImpliesDirty_clearDirtyItems.
      now apply (countImpliesDirty_heap (resetNotYetSaved (getDirtyItems s) s));
        [apply heap_syncOffline|].
    + now apply countImpliesDirty_submit.
  - destruct (syncOpInProgress sm); [|exact Hs]. cbn [fst].
    now apply countImpliesDirty_clearDirtyItems.
  - cbn [fst]. cbn [mapsServerRecords] in Hc.
    exact (countImpliesDirty_keepsDirty _ _ (keepsDirty_mapper _ _ s Hc) Hs).
  - exact Hs.
  - exact Hs.
Qed.

Lemma countImpliesDirty_run (calls : list Call) (st : State * SFSyncManager) :
  forallb mapsServerRecords calls = true ->
  countImpliesDirty (fst st) -> countImpliesDirty (fst (run calls st)).
Proof.
  revert st. induction calls as [|c calls IH]; intros st Hc Hs; [exact Hs|].
  cbn [forallb] in Hc. apply andb_true_iff in Hc as [Hc Hcs].
  unfold run in *. cbn [fold_left]. apply IH; [exact Hcs|].
  now apply countImpliesDirty_call.
Qed.

(** What the start of a request leaves behind: every submitted item is
    dirty, with its counter at 0. *)
Lemma submit_resets (allDirtyItems : list loc) (s : State) (l : loc) :
  (forall x, In x allDirtyItems ->
             exists i, heap s !! x = Some i /\ dirty i = true) ->
  In l (fst (submit allDirtyItems s)) ->
  exists i, heap (snd (submit allDirtyItems s)) !! l = Some i
            /\ dirty i = true /\ dirtyCount i = Some O.
Proof.
  unfold submit. cbn [fst snd]. intros Hall Hin.
  assert (Hd : In l allDirtyItems).
  { apply list_elem_of_In. apply list_elem_of_In in Hin.
    revert Hin. apply subseteq_take. }
  destruct (Hall l Hd) as (i & E & Hdirty).
  rewrite (updateAll_lookup (fun i => with_dirty (dirty i) (Some O) i))
    by reflexivity.
  apply existsb_eqb_In in Hin. rewrite Hin, E. cbn.
  eexists. split; [reflexivity|]. split; [exact Hdirty | reflexivity].
Qed.

Lemma resetNotYetSaved_dirty (ls : list loc) (s : State) (x : loc)
  (i : SFItem) :
  heap s !! x = Some i ->
  exists i', heap (resetNotYetSaved ls s) !! x = Some i' /\ dirty i' = dirty i.
Proof.
  intros E. unfold resetNotYetSaved.
  rewrite (updateAll_lookup
             (fun i => match dirtyCount i with
                       | Some (S _) => with_dirty (dirty i) (Some O) i
                       | _ => i
                       end)).
  - rewrite E. destruct (existsb (Nat.eqb x) ls); cbn; [|eauto].
    eexists. split; [reflexivity|]. now destruct (dirtyCount i) as [[|n]|].
  - intros i0. destruct (dirtyCount i0) as [[|n]|] eqn:E0;
      cbn; rewrite ?E0; reflexivity.
Qed.

Lemma getDirtyItems_dirty (s : State) (x : loc) :
  In x (getDirtyItems s) -> exists i, heap s !! x = Some i /\ dirty i = true.
Proof.
  unfold getDirtyItems. intros H. apply filter_In in H as [_ H].
  destruct (heap s !! x) as [i|]; [|discriminate H].
  exists i. split; [reflexivity|]. unfold isDirtyItem in H.
  apply andb_true_iff in H as [H _]. now apply andb_true_iff in H as [H _].
Qed.

(** C3 (as amended).  The counter and the flag do not always agree: a
    [sync] that starts a request leaves every item it submits dirty with
    [dirtyCount] 0.  What holds is one direction.  From a store in which
    every item with [dirtyCount] above 0 is dirty, this stays so along
    every sequence of [setDirty] calls, [sync] calls of either build,
    clearings of the submitted items by the success handler, mappings of
    records that carry neither [dirty] nor [dirtyCount], ends of the
    success handler and error responses; right after [setDirty] the item
    is dirty exactly when its [dirtyCount] is above 0; and right after a
    [sync] of either build that starts a request, every submitted item is
    dirty with [dirtyCount] 0. *)
Theorem C3_count_implies_dirty (calls : list Call) (st : State * SFSyncManager) :
  countImpliesDirty (fst st) ->
  forallb mapsServerRecords calls = true ->
  let st1 := run calls st in
  countImpliesDirty (fst st1)
  /\ (forall l flag i, heap (fst st1) !! l = Some i ->
      exists i', heap (fst (call (CallSetDirty l flag) st1)) !! l = Some i'
                 /\ (dirty i' = true <-> exists n, dirtyCount i' = Some (S n)))
  /\ (syncOpInProgress (snd st1) = false ->
      forall c, c = CallSync false \/ c = CallBundledSync false ->
      let st2 := call c st1 in
      syncOpInProgress (snd st2) = true /\
      forall l, In l (subItemsInFlight (snd st2)) ->
        exists i, heap (fst st2) !! l = Some i
                  /\ dirty i = true /\ dirtyCount i = Some O).
Proof.
  intros Hs Hcalls st1. split; [now apply countImpliesDirty_run|]. split.
  - intros l flag i Hl. destruct st1 as [s sm]. cbn [fst] in Hl.
    cbn [call fst]. unfold setDirty. rewrite lookup_update_eq, Hl. simpl.
    eexists. split; [reflexivity|].
    destruct (setDirty_item_agree flag i) as [Hd Hc]. rewrite Hd. exact Hc.
  - intros Hidle c Hc st2. subst st2. destruct st1 as [s sm].
    cbn [snd] in Hidle. destruct Hc as [-> | ->]; cbn [call]; rewrite Hidle.
    + change (prepareSubmission s) with (submit (getDirtyItems s) s).
      destruct (submit (getDirtyItems s) s) as [subItems s'] eqn:E.
      cbn [fst snd syncOpInProgress subItemsInFlight].
      split; [reflexivity|]. intros l Hl.
      pose proof (submit_resets (getDirtyItems s) s l (getDirtyItems_dirty s))
        as H. rewrite E in H. exact (H Hl).
    + cbv zeta.
      set (s1 := resetNotYetSaved (getDirtyItems s) s).
      destruct (submit (getDirtyItems s) s1) as [subItems s'] eqn:E.
      cbn [fst snd syncOpInProgress subItemsInFlight].
      split; [reflexivity|]. intros l Hl.
      assert (Hall : forall x, In x (getDirtyItems s) ->
                exists i, heap s1 !! x = Some i /\ dirty i = true).
      { intros x Hx. destruct (getDirtyItems_dirty s x Hx) as (i & Hi & Hd).
        destruct (resetNotYetSaved_dirty (getDirtyItems s) s x i Hi)
          as (i' & Hi' & Hd'). exists i'. split; [exact Hi' | congruence]. }
      pose proof (submit_resets (getDirtyItems s) s1 l Hall) as H.
      rewrite E in H. exact (H Hl).
Qed.

(** The start of a request, in either build. *)
Lemma startRequest_spec (c : Call) (s : State) (sm : SFSyncManager) :
  syncOpInProgress sm = false ->
  c = CallSync false \/ c = CallBundledSync false ->
  let batch := take submitLimit (getDirtyItems s) in
  exists s1,
    call c (s, sm) = (s1, {| syncOpInProgress := true;
                             subItemsInFlight := batch |})
    /\ (forall l, In l batch ->
          exists i1, heap s1 !! l = Some i1
                     /\ dirty i1 = true /\ dirtyCount i1 = Some O)
    /\ (forall l i, heap s !! l = Some i -> ~ In l batch ->
          exists i1, heap s1 !! l = Some i1 /\ dirty i1 = dirty i
                     /\ (c = CallSync false -> dirtyCount i1 = dirtyCount i)).
Proof.
  intros Hidle Hc batch.
  assert (Hrest : forall s0 l,
            ~ In l batch ->
            heap (snd (submit (getDirtyItems s) s0)) !! l = heap s0 !! l).
  { intros s0 l Hl. unfold submit. cbn [snd].
    rewrite (updateAll_lookup (fun i => with_dirty (dirty i) (Some O) i))
      by reflexivity.
    destruct (existsb (Nat.eqb l) (take submitLimit (getDirtyItems s))) eqn:E;
      [|reflexivity].
    apply existsb_eqb_In in E. contradiction. }
  destruct Hc as [-> | ->]; cbn [call]; rewrite Hidle.
  - change (prepareSubmission s) with (submit (getDirtyItems s) s).
    exists (snd (submit (getDirtyItems s) s)). split; [reflexivity|]. split.
    + intros l Hl.
      exact (submit_resets (getDirtyItems s) s l (getDirtyItems_dirty s) Hl).
    + intros l i Hi Hl. exists i. rewrite Hrest by exact Hl. auto.
  - cbv zeta. set (s0 := resetNotYetSaved (getDirtyItems s) s).
    exists (snd (submit (getDirtyItems s) s0)). split; [reflexivity|]. split.
    + intros l Hl. apply submit_resets; [|exact Hl].
      intros x Hx. destruct (getDirtyItems_dirty s x Hx) as (i & Hi & Hd).
      destruct (resetNotYetSaved_dirty (getDirtyItems s) s x i Hi)
        as (i' & Hi' & Hd'). exists i'. split; [exact Hi' | congruence].
    + intros l i Hi Hl.
      destruct (resetNotYetSaved_dirty (getDirtyItems s) s l i Hi)
        as (i' & Hi' & Hd').
      exists i'. rewrite Hrest by exact Hl.
      split; [exact Hi'|]. split; [exact Hd' | discriminate].
Qed.

(** A [sync] of either build that starts a request, and the handling of
    its successful response with nothing in between: the clearing, the
    mapping of the retrieved and of the saved records (none of which
    carries [dirty] or [dirtyCount]), and the end of the handler, for a
    response without conflicts.  Exactly the submitted batch, the first
    [submitLimit] dirty items, is cleaned: every item of the batch ends
    not dirty with [dirtyCount] 0, every other item keeps its flag (and,
    in the source build, its counter), and no request is in progress. *)
Theorem sync_cycle_cleans_batch (c : Call) (s : State) (sm : SFSyncManager)
  (retrieved_items saved_items : list JsonObj) :
  syncOpInProgress sm = false ->
  c = CallSync false \/ c = CallBundledSync false ->
  forallb withoutDirtyKeys retrieved_items = true ->
  forallb withoutDirtyKeys saved_items = true ->
  let batch := take submitLimit (getDirtyItems s) in
  let st' :=
    run [c; ResponseCleared; ResponseItems retrieved_items None;
         ResponseItems saved_items (Some ["content"; "auth_hash"]%string);
         ResponseHandled] (s, sm) in
  syncOpInProgress (snd st') = false
  /\ (forall l, In l batch ->
        exists i', heap (fst st') !! l = Some i'
                   /\ dirty i' = false /\ dirtyCount i' = Some O)
  /\ (forall l i, heap s !! l = Some i -> ~ In l batch ->
        exists i', heap (fst st') !! l = Some i' /\ dirty i' = dirty i
                   /\ (c = CallSync false -> dirtyCount i' = dirtyCount i)).
Proof.
  intros Hidle Hc Hretrieved Hsaved batch st'.
  destruct (startRequest_spec c s sm Hidle Hc) as (s1 & E1 & Hbatch & Hrest).
  fold batch in E1, Hbatch, Hrest.
  subst st'. unfold run. cbn [fold_left]. rewrite E1.
  cbn [call syncOpInProgress subItemsInFlight fst snd].
  set (s2 := clearSubmitted batch s1).
  set (s3 := snd (mapResponseItemsToLocalModelsOmittingFields retrieved_items
                    None s2)).
  set (s4 := snd (mapResponseItemsToLocalModelsOmittingFields saved_items
                    (Some ["content"; "auth_hash"]%string) s3)).
  assert (H24 : heapRel sameDirty s2 s4).
  { apply (keepsDirty_trans s2 s3 s4); now apply keepsDirty_mapper. }
  assert (Hclear : forall l : loc,
            heap s2 !! l
            = if existsb (Nat.eqb l) (itemsToClearAsDirty batch s1)
              then setDirty_item false <$> heap s1 !! l
              else heap s1 !! l).
  { intros l. unfold s2, clearSubmitted. apply clearDirtyItems_lookup. }
  split; [reflexivity|]. split.
  - intros l Hl. destruct (Hbatch l Hl) as (i1 & Hi1 & Hd1 & Hc1).
    assert (E : existsb (Nat.eqb l) (itemsToClearAsDirty batch s1) = true).
    { apply existsb_eqb_In. unfold itemsToClearAsDirty.
      apply filter_In. split; [exact Hl|].
      unfold dirtyCountIsZero. now rewrite Hi1, Hc1. }
    pose proof (Hclear l) as H2. rewrite E, Hi1 in H2. cbn [fmap option_fmap option_map] in H2.
    destruct (H24 l _ H2) as (i4 & Hi4 & Hd4 & Hc4).
    exists i4. split; [exact Hi4|]. rewrite Hd4, Hc4. split; reflexivity.
  - intros l i Hi Hl. destruct (Hrest l i Hi Hl) as (i1 & Hi1 & Hd1 & Hc1).
    assert (E : existsb (Nat.eqb l) (itemsToClearAsDirty batch s1) = false).
    { destruct (existsb (Nat.eqb l) (itemsToClearAsDirty batch s1)) eqn:E;
        [|reflexivity].
      apply existsb_eqb_In in E. unfold itemsToClearAsDirty in E.
      apply filter_In in E as [E _]. contradiction. }
    pose proof (Hclear l) as H2. rewrite E, Hi1 in H2.
    destruct (H24 l _ H2) as (i4 & Hi4 & Hd4 & Hc4).
    exists i4. split; [exact Hi4|]. split; [congruence|].
    intros Hsrc. rewrite Hc4. now apply Hc1.
Qed.

End SyncCycleFacts.

(* ===================================================================== *)
(** * The model manager and the singleton manager on the sample stores *)
(* ===================================================================== *)

Section StoreRuns.
Import Store Scenario.
Local Open Scope list_scope.

(** A registry is consistent when each of its entries is. *)
Lemma registryConsistent_checked (s : State) :
  forallb (fun kv => match heap s !! snd kv with
                     | Some L => String.eqb (uuid L) (fst kv)
                     | None => false
                     end)
    (itemsHash (modelManager s)) = true ->
  registryConsistent s.
Proof.
  intros H u l. unfold findItem.
  induction (itemsHash (modelManager s)) as [|[k v] m IH]; [discriminate|].
  cbn [forallb fst snd] in H. apply andb_true_iff in H as [Hkv Hm].
  cbn [lookupKey]. destruct (String.eqb_spec u k) as [-> | _]; [|exact (IH Hm)].
  intros [= <-]. destruct (heap s !! v) as [L|]; [|discriminate].
  exists L. split; [reflexivity|]. now apply String.eqb_eq.
Qed.

(** The note [x], forgotten by [removeItemLocally], is added again. *)
Lemma addItem_registers_witness :
  (findItem (removeItemLocally 0 linked) "x" = None ->
   findItem (addItem 0 (removeItemLocally 0 linked)) "x" = Some 0
   /\ items (modelManager (addItem 0 (removeItemLocally 0 linked)))
      = items (modelManager (removeItemLocally 0 linked)) ++ [0])
  /\ (forall l, findItem (removeItemLocally 0 linked) "x" = Some l ->
                addItem 0 (removeItemLocally 0 linked)
                = removeItemLocally 0 linked)
  /\ (forall u, u <> "x"%string ->
                findItem (addItem 0 (removeItemLocally 0 linked)) u
                = findItem (removeItemLocally 0 linked) u)
  /\ heap (addItem 0 (removeItemLocally 0 linked))
     = heap (removeItemLocally 0 linked).
Proof.
  refine (addItem_registers 0 referencedNote (removeItemLocally 0 linked) _).
  vm_compute. reflexivity.
Defined.

Lemma removeItemLocally_forgets_witness :
  findItem (removeItemLocally 0 linked) "x" = None
  /\ (forall u, u <> "x"%string ->
                findItem (removeItemLocally 0 linked) u = findItem linked u)
  /\ (forall l, In l (items (modelManager (removeItemLocally 0 linked))) <->
                In l (items (modelManager linked))
                /\ uuidAt linked l <> "x"%string)
  /\ In "x"%string
       (itemsPendingRemoval (modelManager (removeItemLocally 0 linked)))
  /\ heap (removeItemLocally 0 linked) = heap linked.
Proof.
  refine (removeItemLocally_forgets 0 referencedNote linked _).
  vm_compute. reflexivity.
Defined.


(** An edit, a sync, a second edit while the request is in flight, the
    response with the awaited note [b], and a sync of the bundled build. *)
Lemma C3_count_implies_dirty_witness :
  let calls :=
    [CallSetDirty 0 true; CallSync false; CallSetDirty 0 true;
     ResponseCleared; ResponseItems [record "b" [] 20] None;
     ResponseItems [record "a" ["b"] 10] (Some ["content"; "auth_hash"]%string);
     ResponseHandled; CallBundledSync false] in
  countImpliesDirty waiting /\
  countImpliesDirty (fst (run calls (waiting, idle))).
Proof.
  split; [exact waiting_countImpliesDirty|].
  refine (proj1 (C3_count_implies_dirty
                   [CallSetDirty 0 true; CallSync false; CallSetDirty 0 true;
                    ResponseCleared; ResponseItems [record "b" [] 20] None;
                    ResponseItems [record "a" ["b"] 10]
                      (Some ["content"; "auth_hash"]%string);
                    ResponseHandled; CallBundledSync false]
                   (waiting, idle) waiting_countImpliesDirty _)).
  vm_compute. reflexivity.
Defined.

(** 101 dirty notes: the request takes the first 100, the response
    brings the first of them back as saved, and the last note is still
    dirty afterwards. *)
Lemma sync_cycle_cleans_batch_witness :
  let st' :=
    run [CallSync false; ResponseCleared; ResponseItems [] None;
         ResponseItems [record "n0" [] 0]
           (Some ["content"; "auth_hash"]%string);
         ResponseHandled] (manyNotes, idle) in
  length (getDirtyItems manyNotes) = 101%nat
  /\ syncOpInProgress (snd st') = false
  /\ (forall l, In l (take submitLimit (getDirtyItems manyNotes)) ->
        exists i', heap (fst st') !! l = Some i'
                   /\ dirty i' = false /\ dirtyCount i' = Some O)
  /\ (forall l i, heap manyNotes !! l = Some i ->
        ~ In l (take submitLimit (getDirtyItems manyNotes)) ->
        exists i', heap (fst st') !! l = Some i' /\ dirty i' = dirty i
                   /\ (CallSync false = CallSync false ->
                       dirtyCount i' = dirtyCount i)).
Proof.
  split; [vm_compute; reflexivity|].
  refine (sync_cycle_cleans_batch (CallSync false) manyNotes idle []
            [record "n0" [] 0] _ _ _ _).
  - reflexivity.
  - left. reflexivity.
  - reflexivity.
  - reflexivity.
Defined.

(** [x] takes up a relationship with [r1]. *)
Lemma addItemAsRelationship_links_witness :
  hasRelationshipWithItem 0 1 (addItemAsRelationship 0 1 linked) = true
  /\ (exists I', heap (addItemAsRelationship 0 1 linked) !! 1%nat = Some I'
                 /\ notReferencedBy (addItemAsRelationship 0 1 linked)
                      "x" I' = false)
  /\ addItemAsRelationship 0 1 (addItemAsRelationship 0 1 linked)
     = addItemAsRelationship 0 1 linked
  /\ (forall l : loc, l <> 0%nat -> l <> 1%nat ->
                heap (addItemAsRelationship 0 1 linked) !! l
                = heap linked !! l).
Proof.
  refine (addItemAsRelationship_links 0 1 referencedNote firstReferrer linked
            _ _); vm_compute; reflexivity.
Defined.

(** [r1] gives up its relationship with [x]. *)
Lemma removeItemAsRelationship_unlinks_witness :
  hasRelationshipWithItem 1 0 (removeItemAsRelationship 1 0 linked) = false
  /\ hasRelationshipWithItem 0 1 (removeItemAsRelationship 1 0 linked) = false
  /\ (exists I', heap (removeItemAsRelationship 1 0 linked) !! 0%nat = Some I'
                 /\ notReferencedBy (removeItemAsRelationship 1 0 linked)
                      "r1" I' = true)
  /\ (forall l : loc, l <> 1%nat -> l <> 0%nat ->
                heap (removeItemAsRelationship 1 0 linked) !! l
                = heap linked !! l).
Proof.
  refine (removeItemAsRelationship_unlinks 1 0 firstReferrer referencedNote
            linked _ _); vm_compute; reflexivity.
Defined.

(** A single note is its own singleton: nothing is deleted. *)
Lemma resolveSingleton_quiet_witness :
  fst (fst (resolveSingleton contentTypeIs [0] [] false 0 notesHandler
              waiting)) = waiting
  /\ ~ In SyncTriggered
         (snd (resolveSingleton contentTypeIs [0] [] false 0 notesHandler
                 waiting)).
Proof.
  refine (resolveSingleton_quiet contentTypeIs [0] [] false 0 notesHandler
            waiting _).
  right. vm_compute. lia.
Defined.

(** Nothing came back from the sync and the handler has a create block. *)
Lemma resolveSingleton_creates_once_witness :
  let '(s1, h1, effects) :=
    resolveSingleton contentTypeIs [] [] false 0 creatingHandler emptyStore in
  (In (CreateBlock 0) effects <->
     singleton creatingHandler = None /\ false = false
     /\ pendingCreateBlockCallback creatingHandler = false
     /\ createBlock creatingHandler = true)
  /\ (In (CreateBlock 0) effects ->
      pendingCreateBlockCallback h1 = true
      /\ forall retrievedItems' savedItems' initialLoad' s',
           ~ In (CreateBlock 0)
               (snd (resolveSingleton contentTypeIs retrievedItems'
                       savedItems' initialLoad' 0 h1 s')))
  /\ predicates h1 = predicates creatingHandler.
Proof.
  refine (resolveSingleton_creates_once contentTypeIs [] [] false 0
            creatingHandler emptyStore _ _); reflexivity.
Defined.

(** Two records without content leave the store as it was. *)
Lemma mapper_skips_corrupt_records_witness :
  mapResponseItemsToLocalModelsOmittingFields
    [emptyRecord "m"; emptyRecord "n"] None linked
  = ([], linked).
Proof.
  refine (mapper_skips_corrupt_records [emptyRecord "m"; emptyRecord "n"]
            None linked _).
  reflexivity.
Defined.

(** The record of [x] arrives after [x] was removed locally. *)
Lemma mapper_drops_pending_removal_witness :
  mapResponseItemsToLocalModels [record "x" [] 10] (removeItemLocally 0 linked)
  = ([], with_modelManager
           (with_itemsPendingRemoval
              (List.filter (fun u => negb (String.eqb u "x"))
                 (itemsPendingRemoval
                    (modelManager (removeItemLocally 0 linked))))
              (modelManager (removeItemLocally 0 linked)))
           (removeItemLocally 0 linked))
  /\ ~ In "x"%string
         (List.filter (fun u => negb (String.eqb u "x"))
            (itemsPendingRemoval (modelManager (removeItemLocally 0 linked)))).
Proof.
  refine (mapper_drops_pending_removal (record "x" [] 10)
            (removeItemLocally 0 linked) _ _ _).
  - reflexivity.
  - vm_compute. left. reflexivity.
  - vm_compute. reflexivity.
Defined.

(** The server reports the deletion of [x]. *)
Lemma mapper_removes_deleted_item_witness :
  exists s',
    mapResponseItemsToLocalModels [deletedRecord "x"] linked = ([], s')
    /\ findItem s' "x" = None
    /\ In "x"%string (itemsPendingRemoval (modelManager s'))
    /\ ~ In 0%nat (items (modelManager s'))
    /\ heap s' !! 0%nat
       = Some (with_dummy false
                 (updateFromJSON_item (now linked) (deletedRecord "x")
                    referencedNote))
    /\ (forall u, u <> "x"%string -> findItem s' u = findItem linked u)
    /\ (forall l : loc, l <> 0%nat -> heap s' !! l = heap linked !! l).
Proof.
  refine (mapper_removes_deleted_item (deletedRecord "x") 0 referencedNote
            linked _ _ _ _ _ _).
  - reflexivity.
  - reflexivity.
  - vm_compute. reflexivity.
  - vm_compute. reflexivity.
  - vm_compute. intros [].
  - vm_compute. reflexivity.
Defined.

(** A fourth note arrives. *)
Lemma mapper_registers_new_record_witness :
  exists s' i,
    mapResponseItemsToLocalModels [record "n" [] 40] linked
    = ([length (heap linked)], s')
    /\ findItem s' "n" = Some (length (heap linked))
    /\ items (modelManager s')
       = items (modelManager linked) ++ [length (heap linked)]
    /\ heap s' !! length (heap linked) = Some i
    /\ uuid i = "n"%string /\ content_type i = "Note"%string
    /\ deleted i = false /\ dummy i = false
    /\ (forall u, u <> "n"%string -> findItem s' u = findItem linked u)
    /\ heapRel quiet linked s'.
Proof.
  refine (mapper_registers_new_record (record "n" [] 40) linked _ _ _ _ _ _).
  - reflexivity.
  - discriminate.
  - reflexivity.
  - vm_compute. reflexivity.
  - vm_compute. intros [].
  - vm_compute. reflexivity.
Defined.

(** The note [b], awaited by [a], arrives. *)
Lemma popMissedReferenceStructsForObjects_awaited_witness :
  fst (popMissedReferenceStructsForObjects [record "b" [] 20] waiting)
  = map snd
      (List.filter
         (fun kv => existsb (String.eqb (reference_uuid (snd kv)))
                      (map j_uuid [record "b" [] 20]))
         (missedReferences (modelManager waiting)))
  /\ missedReferences
       (modelManager
          (snd (popMissedReferenceStructsForObjects [record "b" [] 20]
                  waiting)))
     = List.filter
         (fun kv => negb (existsb (String.eqb (reference_uuid (snd kv)))
                            (map j_uuid [record "b" [] 20])))
         (missedReferences (modelManager waiting))
  /\ registry (snd (popMissedReferenceStructsForObjects [record "b" [] 20]
                      waiting))
     = registry waiting
  /\ heap (snd (popMissedReferenceStructsForObjects [record "b" [] 20]
                  waiting))
     = heap waiting.
Proof.
  refine (popMissedReferenceStructsForObjects_awaited (record "b" [] 20) []
            waiting _).
  intros key ref H. vm_compute in H. destruct H as [H | []].
  injection H as <- <-. split; [reflexivity|].
  exists "a"%string. reflexivity.
Defined.

(** [x] becomes [y]: the reference of [r1] follows. *)
Lemma informModelsOfUUIDChangeForItem_renames_witness :
  exists i',
    heap (informModelsOfUUIDChangeForItem 0 "x" "y" linked) !! 1%nat
    = Some i'
    /\ (In 1%nat (items (modelManager linked)) ->
        hasReferenceTo "x" i' = false
        /\ hasReferenceTo "y" i'
           = hasReferenceTo "y" firstReferrer
             || hasReferenceTo "x" firstReferrer
        /\ length (references i') = length (references firstReferrer)
        /\ (hasReferenceTo "x" firstReferrer = true -> dirty i' = true))
    /\ (hasReferenceTo "x" firstReferrer = false
        \/ ~ In 1%nat (items (modelManager linked)) ->
        i' = firstReferrer).
Proof.
  refine (informModelsOfUUIDChangeForItem_renames 0 "x" "y" linked 1
            firstReferrer _ _).
  - discriminate.
  - vm_compute. reflexivity.
Defined.

(** [r1], which references [x] and is referenced by [r2], is deleted. *)
Lemma setItemToBeDeleted_severs_witness :
  exists X',
    heap (setItemToBeDeleted 1 linked) !! 1%nat = Some X'
    /\ deleted X' = true
    /\ referencingObjects X' = []
    /\ (dummy firstReferrer = false -> dirty X' = true)
    /\ (forall r, In r (references X') ->
                  In r (references firstReferrer)
                  /\ findItem linked (r_uuid r) = None)
    /\ modelManager (setItemToBeDeleted 1 linked) = modelManager linked.
Proof.
  refine (setItemToBeDeleted_severs 1 firstReferrer linked _ _).
  - vm_compute. reflexivity.
  - apply registryConsistent_checked. vm_compute. reflexivity.
Defined.

(** [x] is deleted: its second referrer, [r2], is left as it was. *)
Lemma setItemToBeDeleted_skips_second_witness :
  heap (setItemToBeDeleted 0 linked) !! 2%nat = heap linked !! 2%nat.
Proof.
  refine (setItemToBeDeleted_skips_second 0 1 2 [] referencedNote linked
            _ _ _ _ _).
  - vm_compute. reflexivity.
  - reflexivity.
  - reflexivity.
  - repeat constructor; simpl; lia.
  - lia.
Defined.

(** The references of [r1] are resolved again. *)
Lemma resolveReferencesForItem_resolves_witness :
  (forall r, In r (references firstReferrer) ->
             referenceResolved 1 r linked
               (resolveReferencesForItem 1 false linked))
  /\ (exists I', heap (resolveReferencesForItem 1 false linked) !! 1%nat
                 = Some I'
                 /\ references I' = references firstReferrer)
  /\ registry (resolveReferencesForItem 1 false linked) = registry linked
  /\ heapRel quiet linked (resolveReferencesForItem 1 false linked).
Proof.
  refine (resolveReferencesForItem_resolves 1 firstReferrer false linked _ _).
  - vm_compute. reflexivity.
  - apply registryConsistent_checked. vm_compute. reflexivity.
Defined.

End StoreRuns.

(* ===================================================================== *)
(** * The transformer and the item params on the sample primitives *)
(* ===================================================================== *)

Section CodecRuns.
Import Js Codec Sample.

(** The item key of the record has an empty hash field. *)
Lemma decryptItem_rejects_unauthenticated_key_witness :
  decryptItem primitives unauthenticated keys
  = (markErrorDecrypting unauthenticated, Returned).
Proof.
  refine (decryptItem_rejects_unauthenticated_key primitives unauthenticated
            keys "003:h:u1:9a:049" "003::u1:7c:049050" _ _ _ _ _).
  - reflexivity.
  - reflexivity.
  - reflexivity.
  - right. reflexivity.
  - vm_compute. reflexivity.
Defined.


(** The sample note, sent without keys and read back. *)
Lemma plain_params_round_trip_witness :
  snd (paramsForSync readingPrimitives note None false 0%nat) = 0%nat
  /\ ip_enc_item_key (fst (paramsForSync readingPrimitives note None false
                             0%nat)) = None
  /\ ip_auth_hash (fst (paramsForSync readingPrimitives note None false
                          0%nat)) = None
  /\ decryptItem readingPrimitives
       (withItemParams
          (fst (paramsForSync readingPrimitives note None false 0%nat)) note)
       keys
     = (set_content noteJSON
          (withItemParams
             (fst (paramsForSync readingPrimitives note None false 0%nat))
             note),
        Returned).
Proof.
  refine (plain_params_round_trip readingPrimitives note false 0%nat keys
            noteJSON _ _ _).
  - reflexivity.
  - vm_compute. reflexivity.
  - vm_compute. reflexivity.
Defined.

End CodecRuns.
